(** * Orchestration core: Ralph loop, memory learning, session store,
    realtime bus and agent manager

  A shallow embedding of the Python sources under
  [agentic-framework-main/orchestrator/service/] together with the
  properties stated about them.  Python dictionaries used as maps are
  [gmap]s, dictionaries whose iteration order matters are association
  lists in insertion order, [None]-able values are [option]s, raising an
  exception is an explicit result, and the outside world (sub-processes,
  the language model, the memory service, sockets) is an explicit input
  of each operation. *)

From Stdlib Require Import ZArith QArith String Ascii DecimalString DecimalZ Sorted Permutation.
From stdpp Require Import gmap strings list.

Local Open Scope string_scope.
Local Open Scope Z_scope.

Set Warnings "-clear-no-such-hyp".

(** ** Python string primitives *)

Module PyStr.

(** A Python [str] is modelled by its UTF-8 bytes.  [lower_ascii] lowers an
    ASCII capital and leaves every other byte.  For the searches and
    comparisons below this agrees with [str.lower()]: the words looked for
    are ASCII, and the only characters beyond ASCII whose lower case holds
    an ASCII letter give [k], which none of the words holds, or [i]
    followed by a combining mark, which none of the words continues. *)
Definition lower_ascii (c : ascii) : ascii :=
  let n := nat_of_ascii c in
  if (Nat.leb 65 n && Nat.leb n 90)%bool then ascii_of_nat (n + 32) else c.

(** [s.lower()] *)
Fixpoint lower (s : string) : string :=
  match s with
  | EmptyString => EmptyString
  | String c s' => String (lower_ascii c) (lower s')
  end.

(** [needle in hay] *)
Fixpoint contains (needle hay : string) : bool :=
  if String.prefix needle hay then true
  else match hay with
       | EmptyString => false
       | String _ hay' => contains needle hay'
       end.

(** [str(n)] for an integer. *)
Definition str_int (n : Z) : string := NilZero.string_of_int (Z.to_int n).

(** [sep.join(parts)] *)
Fixpoint join (sep : string) (parts : list string) : string :=
  match parts with
  | [] => ""
  | [p] => p
  | p :: rest => p ++ sep ++ join sep rest
  end.

(** [sorted(items, key=key)]: Python's sort is stable, so it is the
    insertion of each element before the first later element whose key is
    not smaller. *)
Section Sorted.
Context {A : Type} (key : A -> Z).

Fixpoint insert_sorted (x : A) (l : list A) : list A :=
  match l with
  | [] => [x]
  | y :: l' => if key x <=? key y then x :: y :: l' else y :: insert_sorted x l'
  end.

Definition sorted (l : list A) : list A := foldr insert_sorted [] l.
End Sorted.

(** [l[start:]] for a Python list: a negative [start] counts from the end. *)
Definition slice_from {A : Type} (start : Z) (l : list A) : list A :=
  if start <? 0
  then drop (Z.to_nat (Z.max 0 (Z.of_nat (length l) + start))) l
  else drop (Z.to_nat start) l.

(** [l[start:stop]] for a Python list: a negative bound counts from the
    end, and a bound beyond the list is clipped to it. *)
Definition slice {A : Type} (start stop : Z) (l : list A) : list A :=
  let len := Z.of_nat (length l) in
  let clip := fun i => if i <? 0 then Z.max 0 (len + i) else Z.min i len in
  take (Z.to_nat (clip stop - clip start)) (drop (Z.to_nat (clip start)) l).

(** [s.split(sep)[0]] for a separator that is not empty: what comes before
    the first [sep], all of [s] when there is none. *)
Fixpoint split_head (sep s : string) : string :=
  if String.prefix sep s then ""
  else match s with
       | EmptyString => ""
       | String c s' => String c (split_head sep s')
       end.

(** Slicing a [str] counts characters, not bytes.  In UTF-8 a character is
    a byte that is not of the form [10xxxxxx], followed by the bytes of
    that form that continue it. *)
Definition is_continuation (c : ascii) : bool :=
  let n := nat_of_ascii c in
  (Nat.leb 128 n && Nat.ltb n 192)%bool.

(** [len(s)] *)
Fixpoint char_length (s : string) : nat :=
  match s with
  | EmptyString => 0%nat
  | String c s' => ((if is_continuation c then 0 else 1) + char_length s')%nat
  end.

(** The bytes that continue the character begun before [s], and what comes
    after them. *)
Fixpoint take_continuation (s : string) : string :=
  match s with
  | EmptyString => EmptyString
  | String c s' => if is_continuation c then String c (take_continuation s') else EmptyString
  end.

Fixpoint drop_continuation (s : string) : string :=
  match s with
  | EmptyString => EmptyString
  | String c s' => if is_continuation c then drop_continuation s' else s
  end.

(** The first [n] characters of [s], and [s] without them. *)
Fixpoint take_chars (n : nat) (s : string) : string :=
  match n with
  | O => EmptyString
  | S n' =>
      match s with
      | EmptyString => EmptyString
      | String c s' =>
          String c (take_continuation s' ++ take_chars n' (drop_continuation s'))
      end
  end.

Fixpoint drop_chars (n : nat) (s : string) : string :=
  match n with
  | O => s
  | S n' =>
      match s with
      | EmptyString => EmptyString
      | String _ s' => drop_chars n' (drop_continuation s')
      end
  end.

(** [s[:n]] and [s[-n:]] for a string and a literal [n > 0]: the first and
    the last [n] characters, all of [s] when it has no more. *)
Definition str_take (n : nat) (s : string) : string := take_chars n s.

Definition str_last (n : nat) (s : string) : string :=
  drop_chars (char_length s - n) s.

End PyStr.

(** ** memory_learning.py *)

Module MemoryLearning.

(** One entry of a story's [quality_checks]. *)
Record QualityCheck := {
  qc_name : string;
  qc_passed : bool;
  qc_output : string
}.

(** The value under the key ["error"] of an attempt dictionary: the key may
    be absent, hold [None], or hold a string. *)
Inductive ErrorField :=
| ErrAbsent
| ErrNone
| ErrStr (s : string).

(** One entry of [all_attempts], with the keys [reflect] reads.  An absent
    ["success"], ["changes_made"] or ["quality_checks"] reads as its
    default ([False], [0], [[]]) and is modelled by that value. *)
Record Attempt := {
  attempt : Z;
  success : bool;
  changes_made : Z;
  error : ErrorField;
  quality_checks : list QualityCheck
}.

(** The [if/elif] chain of [_analyze_failure_patterns]. *)
Definition error_type_of (error : string) : string :=
  let e := PyStr.lower error in
  if PyStr.contains "test" e || PyStr.contains "pytest" e then "Test failures"
  else if PyStr.contains "syntax" e then "Syntax errors"
  else if PyStr.contains "import" e then "Import errors"
  else if PyStr.contains "type" e then "Type errors"
  else if PyStr.contains "quality" e then "Quality check failures"
  else "Implementation errors".

(** [error_counts[error_type] = error_counts.get(error_type, 0) + 1] on a
    dictionary kept in insertion order. *)
Fixpoint bump (error_type : string) (error_counts : list (string * Z)) : list (string * Z) :=
  match error_counts with
  | [] => [(error_type, 0 + 1)]
  | (k, n) :: rest =>
      if String.eqb k error_type then (k, n + 1) :: rest
      else (k, n) :: bump error_type rest
  end.

(** [error_counts.get(k, 0)] *)
Fixpoint dict_get (k : string) (error_counts : list (string * Z)) : Z :=
  match error_counts with
  | [] => 0
  | (k', n) :: rest => if String.eqb k' k then n else dict_get k rest
  end.

(** [failure.get("error", "Unknown error")], then [error.lower()], which
    raises (here [None]) when the value is [None]. *)
Definition failure_error (failure : Attempt) : option string :=
  match error failure with
  | ErrAbsent => Some "Unknown error"
  | ErrNone => None
  | ErrStr s => Some s
  end.

(** The counting loop of [_analyze_failure_patterns]. *)
Fixpoint count_errors (failures : list Attempt) (error_counts : list (string * Z))
  : option (list (string * Z)) :=
  match failures with
  | [] => Some error_counts
  | failure :: rest =>
      match failure_error failure with
      | None => None
      | Some e => count_errors rest (bump (error_type_of e) error_counts)
      end
  end.

Definition pattern_line (item : string * Z) : string :=
  item.1 ++ " occurred in " ++ PyStr.str_int item.2 ++ " attempt(s)".

(** [_analyze_failure_patterns]; [None] when the method raises. *)
Definition _analyze_failure_patterns (failures : list Attempt) : option (list string) :=
  match failures with
  | [] => Some []
  | _ =>
      match count_errors failures [] with
      | None => None
      | Some error_counts =>
          Some (map pattern_line
                  (filter (fun item => 0 < item.2)
                     (PyStr.sorted (fun x => - x.2) error_counts)))
      end
  end.

Section Reflect.

(** [f"{successful_changes / len(successes):.1f}"]: the float division and
    its one-decimal rendering are not modelled; they are a parameter. *)
Variable format_avg : Z -> nat -> string.

Definition passed_checks (a : Attempt) : list QualityCheck :=
  filter (fun c => qc_passed c = true) (quality_checks a).

(** The [for success in successes: ... break] loop. *)
Fixpoint first_passed_checks (successes : list Attempt) : list string :=
  match successes with
  | [] => []
  | s :: rest =>
      match passed_checks s with
      | [] => first_passed_checks rest
      | cs => ["Passed quality checks: " ++ PyStr.join ", " (map qc_name cs)]
      end
  end.

Definition _analyze_success_factors (successes failures : list Attempt) : list string :=
  match successes with
  | [] => []
  | _ =>
      let successful_changes := foldr Z.add 0 (map changes_made successes) in
      ([("Successful attempts averaged "
           ++ format_avg successful_changes (length successes) ++ " file changes")%string]
       ++ (match failures with
           | [] => []
           | _ => ["Persistence through failures led to success"]
           end)
       ++ first_passed_checks successes)%list
  end.

(** The [if/elif] chain in the loop of [_generate_recommendations]. *)
Definition recommendation_for (pattern : string) : list string :=
  if PyStr.contains "Test failures" pattern
  then ["Write tests incrementally alongside implementation"]
  else if PyStr.contains "Syntax errors" pattern
  then ["Run syntax validation before applying changes"]
  else if PyStr.contains "Import errors" pattern
  then ["Verify all imports exist before implementation"]
  else if PyStr.contains "Type errors" pattern
  then ["Add type hints and run type checking early"]
  else [].

(** ["Persistence" in str(success_factors)]: the word is made of letters
    only, which [repr] leaves as they are, and the separators of the
    printed list are not letters, so it occurs in the printed list exactly
    when it occurs in one of its strings. *)
Definition mentions_persistence (success_factors : list string) : bool :=
  existsb (PyStr.contains "Persistence") success_factors.

Definition _generate_recommendations (failure_patterns success_factors : list string)
  : list string :=
  let recommendations := concat (map recommendation_for failure_patterns) in
  let recommendations :=
    if mentions_persistence success_factors
    then (recommendations ++ ["Retry with refined approach when initial attempt fails"])%list
    else recommendations in
  let recommendations :=
    match recommendations with
    | [] => ["Break complex tasks into smaller incremental changes";
             "Run quality checks after each significant change"]
    | _ => recommendations
    end in
  take 5 recommendations.

(** What [reflect] derives from [all_attempts] (the insights, the files it
    writes and the remote commit are left out). *)
Record Derived := {
  failure_patterns : list string;
  success_factors : list string;
  recommendations : list string
}.

Definition reflect (all_attempts : list Attempt) : option Derived :=
  let failures := filter (fun a => success a = false) all_attempts in
  let successes := filter (fun a => success a = true) all_attempts in
  match _analyze_failure_patterns failures with
  | None => None
  | Some patterns =>
      let factors := _analyze_success_factors successes failures in
      Some {| failure_patterns := patterns;
              success_factors := factors;
              recommendations := _generate_recommendations patterns factors |}
  end.

End Reflect.

(** *** Insights *)

(** The first insight of [_generate_insights]. *)
Definition outcome_insight (story_title : string) (total_attempts : Z)
    (final_success : bool) : string :=
  if final_success
  then if total_attempts =? 1
       then "'" ++ story_title
            ++ "' completed on first attempt - similar tasks may be straightforward"
       else if total_attempts <=? 3
       then "'" ++ story_title ++ "' required " ++ PyStr.str_int total_attempts
            ++ " attempts - some iteration expected"
       else "'" ++ story_title ++ "' was complex, requiring "
            ++ PyStr.str_int total_attempts ++ " attempts"
  else "'" ++ story_title ++ "' could not be completed after "
       ++ PyStr.str_int total_attempts ++ " attempts".

(** [_generate_insights] *)
Definition _generate_insights (story_title : string) (total_attempts : Z)
    (final_success : bool) (failure_patterns success_factors : list string) : list string :=
  ([outcome_insight story_title total_attempts final_success]
   ++ match failure_patterns with
      | [] => []
      | pattern :: _ =>
          [("Primary challenge: " ++ PyStr.split_head " occurred" pattern)%string]
      end
   ++ match success_factors with
      | [] => []
      | factor :: _ => [("Key success factor: " ++ factor)%string]
      end)%list.

(** The insights [reflect] derives. *)
Definition reflect_insights (format_avg : Z -> nat -> string) (story_title : string)
    (total_attempts : Z) (final_success : bool) (all_attempts : list Attempt)
  : option (list string) :=
  match reflect format_avg all_attempts with
  | None => None
  | Some derived =>
      Some (_generate_insights story_title total_attempts final_success
              (failure_patterns derived) (success_factors derived))
  end.

(** *** Reading the diary and the reflections back *)

(** The loop of [get_diary_entries] and of [get_reflections] over the files
    of the folder, in the order [sorted(..., reverse=True)] gives them.  A
    file is its name and its content, [None] when reading it raises: the
    [except] around the loop then returns what was collected. *)
Fixpoint read_entries (story_id : option string) (limit : Z)
    (files : list (string * option string)) (entries : list (string * string))
  : list (string * string) :=
  match files with
  | [] => entries
  | (name, content) :: rest =>
      if limit <=? Z.of_nat (length entries) then entries
      else
        let filtered_out :=
          match story_id with
          | Some id => negb (String.eqb id "") && negb (PyStr.contains id name)
          | None => false
          end in
        if filtered_out then read_entries story_id limit rest entries
        else match content with
             | None => entries
             | Some c => read_entries story_id limit rest (entries ++ [(name, c)])%list
             end
  end.

(** [get_diary_entries(story_id, since, limit)]; [since] is not read. *)
Definition get_diary_entries (story_id : option string) (limit : Z)
    (files : list (string * option string)) : list (string * string) :=
  read_entries story_id limit files [].

(** [get_reflections(story_id, limit)] *)
Definition get_reflections (story_id : option string) (limit : Z)
    (files : list (string * option string)) : list (string * string) :=
  read_entries story_id limit files [].

(** *** query_past_learnings *)

(** The parsed ["artifact_content"] of a query result. *)
Record Artifact := {
  a_story_id : option string;
  a_story_title : option string;
  a_insights : list string;
  a_recommendations : list string;
  a_timestamp : option string
}.

(** One element of the ["results"] of [POST /memory/query]; [r_artifact] is
    [None] when [json.loads] of its ["artifact_content"] raises. *)
Record QueryResult := {
  r_content : string;
  r_artifact_type : string;
  r_score : Q;
  r_artifact : option Artifact
}.

(** What the request to the memory service does: it raises (connection
    refused, timeout, a body that is not JSON), or it answers with a status
    code and a list of results. *)
Inductive ServiceReply :=
| RequestRaises
| Replied (status_code : Z) (results : list QueryResult).

(** The local file [COPILOT.md] as [query_past_learnings] finds it. *)
Inductive CopilotMd :=
| MdMissing
| MdUnreadable
| MdContent (local_content : string).

Record Learning := {
  l_content : string;
  l_type : string;
  l_score : Q;
  l_story_id : option string;
  l_story_title : option string;
  l_insights : list string;
  l_recommendations : list string;
  l_timestamp : option string;
  l_source : option string
}.

Definition learning_of (result : QueryResult) (artifact : Artifact) : Learning :=
  {| l_content := r_content result;
     l_type := r_artifact_type result;
     l_score := r_score result;
     l_story_id := a_story_id artifact;
     l_story_title := a_story_title artifact;
     l_insights := a_insights artifact;
     l_recommendations := a_recommendations artifact;
     l_timestamp := a_timestamp artifact;
     l_source := None |}.

(** The [for result in results] loop: an artifact that does not parse
    raises out of the loop, and what was appended before stays. *)
Fixpoint collect (results : list QueryResult) : list Learning :=
  match results with
  | [] => []
  | result :: rest =>
      match r_artifact result with
      | None => []
      | Some artifact => learning_of result artifact :: collect rest
      end
  end.

Definition local_learning (local_content : string) : Learning :=
  {| l_content := PyStr.str_last 2000 local_content;
     l_type := "local_memory";
     l_score := (1 # 2)%Q;
     l_story_id := None;
     l_story_title := None;
     l_insights := [];
     l_recommendations := [];
     l_timestamp := None;
     l_source := Some "COPILOT.md" |}.

(** [query_past_learnings(query, tags, limit, min_relevance)]: the request
    carries [top_k = limit]; the reply and the local file are inputs. *)
Definition query_past_learnings (limit : Z) (reply : ServiceReply) (md : CopilotMd)
  : list Learning :=
  let learnings :=
    match reply with
    | RequestRaises => []
    | Replied status_code results =>
        if status_code =? 200 then collect results else []
    end in
  match md with
  | MdContent local_content =>
      if negb (String.eqb local_content "") && (Z.of_nat (length learnings) <? limit)
      then (learnings ++ [local_learning local_content])%list
      else learnings
  | _ => learnings
  end.

(** The file as [_init_copilot_md] writes it when the client is built. *)
Definition copilot_md_initial : string :=
  "# Copilot Memory

This file contains learnings extracted from coding sessions.
The AI assistant uses this to improve future task implementations.

## Learnings

".

End MemoryLearning.

(** ** session_storage.py *)

(** A stored message; its metadata dictionary is kept as its JSON text. *)
Record Message := {
  m_id : string;
  m_role : string;
  m_content : string;
  m_timestamp : string;
  m_metadata : string
}.

(** [session_id or str(uuid4())]: [None] and the empty string are falsy. *)
Definition session_id_or (session_id : option string) (uuid : string) : string :=
  match session_id with
  | Some s => if String.eqb s "" then uuid else s
  | None => uuid
  end.

(** [metadata or {}] *)
Definition metadata_or_empty (metadata : option string) : string :=
  match metadata with
  | Some m => m
  | None => "{}"
  end.

(** *** InMemorySessionStorage *)

Module InMemorySessionStorage.

Record Session := {
  s_id : string;
  s_created_at : string;
  s_updated_at : string;
  s_message_count : Z;
  s_active_workflow : option string;
  s_status : string
}.

Record t := {
  sessions : gmap string Session;
  messages : gmap string (list Message);
  contexts : gmap string (gmap string string);
  workflows : gmap string (gmap string string);
  max_messages : Z
}.

(** [__init__] *)
Definition init (max_messages_per_session : Z) : t :=
  {| sessions := ∅; messages := ∅; contexts := ∅; workflows := ∅;
     max_messages := max_messages_per_session |}.

Definition new_session (session_id now : string) : Session :=
  {| s_id := session_id;
     s_created_at := now;
     s_updated_at := now;
     s_message_count := 0;
     s_active_workflow := None;
     s_status := "active" |}.

(** [create_session]; [uuid] and [now] are what [uuid4()] and
    [datetime.utcnow()] give. *)
Definition create_session (session_id : option string) (uuid now : string) (st : t)
  : string * t :=
  let session_id := session_id_or session_id uuid in
  (session_id,
   {| sessions := <[session_id := new_session session_id now]> (sessions st);
      messages := <[session_id := []]> (messages st);
      contexts := <[session_id := ∅]> (contexts st);
      workflows := <[session_id := ∅]> (workflows st);
      max_messages := max_messages st |}).

Definition get_session (session_id : string) (st : t) : option Session :=
  sessions st !! session_id.

Definition session_exists (session_id : string) (st : t) : bool :=
  bool_decide (is_Some (sessions st !! session_id)).

Definition set_message_count (n : Z) (s : Session) : Session :=
  {| s_id := s_id s;
     s_created_at := s_created_at s;
     s_updated_at := s_updated_at s;
     s_message_count := n;
     s_active_workflow := s_active_workflow s;
     s_status := s_status s |}.

(** [add_message] *)
Definition add_message (session_id role content : string) (metadata : option string)
    (uuid now : string) (st : t) : Message * t :=
  let message :=
    {| m_id := uuid; m_role := role; m_content := content; m_timestamp := now;
       m_metadata := metadata_or_empty metadata |} in
  let appended := (default [] (messages st !! session_id) ++ [message])%list in
  let stored :=
    if max_messages st <? Z.of_nat (length appended)
    then PyStr.slice_from (- max_messages st) appended
    else appended in
  (message,
   {| sessions := alter (set_message_count (Z.of_nat (length stored))) session_id (sessions st);
      messages := <[session_id := stored]> (messages st);
      contexts := contexts st;
      workflows := workflows st;
      max_messages := max_messages st |}).

Definition get_all_messages (session_id : string) (st : t) : list Message :=
  default [] (messages st !! session_id).

(** [set_context] *)
Definition set_context (session_id key value : string) (st : t) : t :=
  {| sessions := sessions st;
     messages := messages st;
     contexts := <[session_id := <[key := value]> (default ∅ (contexts st !! session_id))]>
                   (contexts st);
     workflows := workflows st;
     max_messages := max_messages st |}.

Definition set_active_workflow (workflow_id now : string) (s : Session) : Session :=
  {| s_id := s_id s;
     s_created_at := s_created_at s;
     s_updated_at := now;
     s_message_count := s_message_count s;
     s_active_workflow := Some workflow_id;
     s_status := s_status s |}.

(** [save_workflow], with its [update_session(..., {"active_workflow": ...})]. *)
Definition save_workflow (session_id workflow_id workflow_data now : string) (st : t) : t :=
  {| sessions := alter (set_active_workflow workflow_id now) session_id (sessions st);
     messages := messages st;
     contexts := contexts st;
     workflows := <[session_id := <[workflow_id := workflow_data]>
                                     (default ∅ (workflows st !! session_id))]>
                    (workflows st);
     max_messages := max_messages st |}.

(** [get_messages]: [offset] is tested for truth, so [0] takes the other
    branch. *)
Definition get_messages (session_id : string) (limit offset : Z) (st : t) : list Message :=
  let msgs := default [] (messages st !! session_id) in
  let len := Z.of_nat (length msgs) in
  let start := Z.max 0 (len - limit - offset) in
  let end_ := if offset =? 0 then len else len - offset in
  PyStr.slice start end_ msgs.

(** [get_recent_context]: the role and the content of each message. *)
Definition get_recent_context (session_id : string) (num_messages : Z) (st : t)
  : list (string * string) :=
  (fun msg => (m_role msg, m_content msg)) <$> get_messages session_id num_messages 0 st.

(** What [get_context] returns other than [None]: the value under a key, or
    the whole dictionary for a key that is [None] or empty. *)
Inductive Context :=
| Value (v : string)
| Whole (c : gmap string string).

Definition get_context (session_id : string) (key : option string) (st : t)
  : option Context :=
  match contexts st !! session_id with
  | None => None
  | Some c =>
      match key with
      | Some k => if String.eqb k "" then Some (Whole c) else Value <$> c !! k
      | None => Some (Whole c)
      end
  end.

Definition get_workflow (session_id workflow_id : string) (st : t) : option string :=
  default ∅ (workflows st !! session_id) !! workflow_id.

Definition get_all_workflows (session_id : string) (st : t) : gmap string string :=
  default ∅ (workflows st !! session_id).

(** [delete_session] *)
Definition delete_session (session_id : string) (st : t) : t :=
  {| sessions := delete session_id (sessions st);
     messages := delete session_id (messages st);
     contexts := delete session_id (contexts st);
     workflows := delete session_id (workflows st);
     max_messages := max_messages st |}.

End InMemorySessionStorage.

(** *** The Redis commands the store uses *)

Module Redis.

(** Hashes and lists by key.  A key holds a hash or a list with at least
    one element; key expiry is not modelled. *)
Record db := {
  hashes : gmap string (gmap string string);
  lists : gmap string (list Message)
}.

Definition empty : db := {| hashes := ∅; lists := ∅ |}.

(** HSET key field value [field value ...]: the given fields overwrite. *)
Definition hset (key : string) (mapping : gmap string string) (d : db) : db :=
  {| hashes := <[key := mapping ∪ default ∅ (hashes d !! key)]> (hashes d);
     lists := lists d |}.

Definition hgetall (key : string) (d : db) : gmap string string :=
  default ∅ (hashes d !! key).

(** EXISTS key *)
Definition exists_ (key : string) (d : db) : Z :=
  if bool_decide (is_Some (hashes d !! key)) || bool_decide (is_Some (lists d !! key))
  then 1 else 0.

(** RPUSH key value *)
Definition rpush (key : string) (value : Message) (d : db) : db :=
  {| hashes := hashes d;
     lists := <[key := (default [] (lists d !! key) ++ [value])%list]> (lists d) |}.

(** The elements an index range [start..stop] (inclusive, negative indices
    counting from the end) selects. *)
Definition range {A : Type} (start stop : Z) (l : list A) : list A :=
  let len := Z.of_nat (length l) in
  let s := if start <? 0 then Z.max 0 (len + start) else start in
  let e := if stop <? 0 then len + stop else Z.min stop (len - 1) in
  if (e <? s) || (len <=? s) then []
  else take (Z.to_nat (e - s + 1)) (drop (Z.to_nat s) l).

(** LTRIM key start stop; a list trimmed to nothing is removed. *)
Definition ltrim (key : string) (start stop : Z) (d : db) : db :=
  match lists d !! key with
  | None => d
  | Some l =>
      match range start stop l with
      | [] => {| hashes := hashes d; lists := delete key (lists d) |}
      | kept => {| hashes := hashes d; lists := <[key := kept]> (lists d) |}
      end
  end.

(** The integers Redis counts with: signed, 64 bits. *)
Definition in_int64 (n : Z) : bool := (- 2 ^ 63 <=? n) && (n <=? 2 ^ 63 - 1).

(** The integer a hash field holds for HINCRBY: [0] for a field that is
    not there; otherwise the field has to be the decimal text of a signed
    64-bit integer as Redis writes it (["0"], or an optional [-] and digits
    that do not start with [0]), which is the text that reads back as
    itself. *)
Definition int_of_field (v : option string) : option Z :=
  match v with
  | None => Some 0
  | Some s =>
      match Z.of_int <$> NilZero.int_of_string s with
      | Some n => if String.eqb (PyStr.str_int n) s && in_int64 n then Some n else None
      | None => None
      end
  end.

(** HINCRBY key field increment; [None] is the error reply: the field
    holds no such integer, or the sum leaves the 64 bits. *)
Definition hincrby (key field : string) (increment : Z) (d : db) : option db :=
  let h := default ∅ (hashes d !! key) in
  match int_of_field (h !! field) with
  | None => None
  | Some n =>
      if in_int64 (n + increment)
      then Some {| hashes := <[key := <[field := PyStr.str_int (n + increment)]> h]> (hashes d);
                   lists := lists d |}
      else None
  end.

Definition lrange (key : string) (start stop : Z) (d : db) : list Message :=
  range start stop (default [] (lists d !! key)).

(** HGET key field *)
Definition hget (key field : string) (d : db) : option string :=
  default ∅ (hashes d !! key) !! field.

(** DEL key [key ...] *)
Definition del (keys : list string) (d : db) : db :=
  {| hashes := foldr delete (hashes d) keys;
     lists := foldr delete (lists d) keys |}.

End Redis.

(** *** SessionStorage (Redis-backed) *)

Module SessionStorage.

(** [redis] is [None] when [self.redis] is unset or [_connected] is false:
    every operation is guarded by [if self.redis and self._connected]. *)
Record t := {
  redis : option Redis.db;
  max_messages : Z
}.

Definition _session_key (session_id : string) : string := "session:" ++ session_id.
Definition _messages_key (session_id : string) : string := "messages:" ++ session_id.
Definition _context_key (session_id : string) : string := "context:" ++ session_id.
Definition _workflow_key (session_id : string) : string := "workflows:" ++ session_id.

Definition session_data (session_id now : string) : gmap string string :=
  <["id" := session_id]>
    (<["created_at" := now]>
       (<["updated_at" := now]>
          (<["message_count" := "0"]>
             (<["active_workflow" := ""]>
                (<["status" := "active"]> ∅))))).

Definition with_redis (st : t) (d : Redis.db) : t :=
  {| redis := Some d; max_messages := max_messages st |}.

(** [create_session] *)
Definition create_session (session_id : option string) (uuid now : string) (st : t)
  : string * t :=
  let session_id := session_id_or session_id uuid in
  match redis st with
  | Some d =>
      (session_id,
       with_redis st (Redis.hset (_session_key session_id) (session_data session_id now) d))
  | None => (session_id, st)
  end.

Definition get_session (session_id : string) (st : t) : option (gmap string string) :=
  match redis st with
  | Some d =>
      let data := Redis.hgetall (_session_key session_id) d in
      if bool_decide (data = ∅) then None else Some data
  | None => None
  end.

Definition session_exists (session_id : string) (st : t) : bool :=
  match redis st with
  | Some d => 0 <? Redis.exists_ (_session_key session_id) d
  | None => false
  end.

(** [add_message]; [None] when HINCRBY answers with an error, which the
    method does not catch. *)
Definition add_message (session_id role content : string) (metadata : option string)
    (uuid now : string) (st : t) : option (Message * t) :=
  let message :=
    {| m_id := uuid; m_role := role; m_content := content; m_timestamp := now;
       m_metadata := metadata_or_empty metadata |} in
  match redis st with
  | Some d =>
      let d := Redis.rpush (_messages_key session_id) message d in
      let d := Redis.ltrim (_messages_key session_id) (- max_messages st) (-1) d in
      match Redis.hincrby (_session_key session_id) "message_count" 1 d with
      | Some d => Some (message, with_redis st d)
      | None => None
      end
  | None => Some (message, st)
  end.

Definition get_all_messages (session_id : string) (st : t) : list Message :=
  match redis st with
  | Some d => Redis.lrange (_messages_key session_id) 0 (-1) d
  | None => []
  end.

(** The [message_count] field of the session hash, as an integer. *)
Definition message_count (session_id : string) (st : t) : option Z :=
  match get_session session_id st with
  | Some data => Z.of_int <$> (data !! "message_count" ≫= NilZero.int_of_string)
  | None => None
  end.

(** [get_messages]: the index range asked of LRANGE. *)
Definition get_messages (session_id : string) (limit offset : Z) (st : t) : list Message :=
  match redis st with
  | Some d =>
      let start := if offset =? 0 then - limit else - limit - offset in
      let end_ := if offset =? 0 then -1 else -1 - offset in
      Redis.lrange (_messages_key session_id) start end_ d
  | None => []
  end.

Definition get_recent_context (session_id : string) (num_messages : Z) (st : t)
  : list (string * string) :=
  (fun msg => (m_role msg, m_content msg)) <$> get_messages session_id num_messages 0 st.

(** [update_session]: the fields given and [updated_at] are written, whether
    or not the session hash was there. *)
Definition update_session (session_id : string) (updates : gmap string string)
    (now : string) (st : t) : t :=
  match redis st with
  | Some d =>
      with_redis st (Redis.hset (_session_key session_id) (<["updated_at" := now]> updates) d)
  | None => st
  end.

(** [save_workflow]; [workflow_data] is the JSON text of the workflow. *)
Definition save_workflow (session_id workflow_id workflow_data now : string) (st : t) : t :=
  match redis st with
  | Some d =>
      let st := with_redis st (Redis.hset (_workflow_key session_id)
                                 {[workflow_id := workflow_data]} d) in
      update_session session_id {["active_workflow" := workflow_id]} now st
  | None => st
  end.

(** [get_workflow]: an empty value is falsy. *)
Definition get_workflow (session_id workflow_id : string) (st : t) : option string :=
  match redis st with
  | Some d =>
      match Redis.hget (_workflow_key session_id) workflow_id d with
      | Some data => if String.eqb data "" then None else Some data
      | None => None
      end
  | None => None
  end.

(** [delete_session] *)
Definition delete_session (session_id : string) (st : t) : t :=
  match redis st with
  | Some d =>
      with_redis st (Redis.del [_session_key session_id; _messages_key session_id;
                                _context_key session_id; _workflow_key session_id] d)
  | None => st
  end.

End SessionStorage.

(** *** get_session_storage *)

Module StorageGlobals.

(** The module globals [_storage] and [_fallback_storage]. *)
Record t := {
  _storage : option SessionStorage.t;
  _fallback_storage : option InMemorySessionStorage.t
}.

Definition init : t := {| _storage := None; _fallback_storage := None |}.

(** The object returned. *)
Inductive Returned :=
| RedisBacked (s : SessionStorage.t)
| Fallback (m : InMemorySessionStorage.t).

(** [SessionStorage(redis_url=...)] followed by [connect()]; [server] is the
    Redis server reached, [None] when the connection fails. *)
Definition connected_storage (server : option Redis.db) : SessionStorage.t :=
  {| SessionStorage.redis := server; SessionStorage.max_messages := 100 |}.

(** [get_session_storage]; [server] is read only when a connection is
    attempted. *)
Definition get_session_storage (server : option Redis.db) (g : t) : Returned * t :=
  match _storage g with
  | None =>
      let s := connected_storage server in
      match SessionStorage.redis s with
      | None =>
          let m := InMemorySessionStorage.init 100 in
          (Fallback m, {| _storage := Some s; _fallback_storage := Some m |})
      | Some _ => (RedisBacked s, {| _storage := Some s; _fallback_storage := _fallback_storage g |})
      end
  | Some s =>
      match SessionStorage.redis s with
      | None =>
          let m := default (InMemorySessionStorage.init 100) (_fallback_storage g) in
          (Fallback m, {| _storage := Some s; _fallback_storage := Some m |})
      | Some _ => (RedisBacked s, g)
      end
  end.

End StorageGlobals.

(** *** The orchestrator's get-or-create (agent.py, [_get_session]) *)

(** The two stores offer one interface. *)
Class SessionStore (S : Type) := {
  store_session_exists : string -> S -> bool;
  store_create_session : option string -> string -> string -> S -> string * S
}.

#[export] Instance in_memory_store : SessionStore InMemorySessionStorage.t := {
  store_session_exists := InMemorySessionStorage.session_exists;
  store_create_session := InMemorySessionStorage.create_session
}.

#[export] Instance redis_store : SessionStore SessionStorage.t := {
  store_session_exists := SessionStorage.session_exists;
  store_create_session := SessionStorage.create_session
}.


(** ** websocket_manager.py *)

Module WebSocketManager.

(** The payload of a chat message (the dictionary [_add_message] builds). *)
Record ChatMessage := {
  cm_session_id : string;
  cm_role : string;
  cm_content : string
}.

(** The JSON events the manager sends (timestamps left out). *)
Inductive Event :=
| ConnectionEstablished (client_id : string)
| ChatMessageEvent (message : ChatMessage)
| ChatStream (session_id chunk : string) (is_complete : bool)
| BufferedMessage (channel : string) (message : ChatMessage).

(** A connection is named by a number.  [sent] is the log of what
    [send_json] delivered, oldest first. *)
Record t := {
  active_connections : list nat;
  message_buffer : gmap string (list ChatMessage);
  buffer_size : Z;
  sent : list (nat * Event)
}.

(** [__init__] *)
Definition init : t :=
  {| active_connections := []; message_buffer := ∅; buffer_size := 50; sent := [] |}.

(** What a connection received, oldest first. *)
Definition received (websocket : nat) (st : t) : list Event :=
  map snd (filter (fun p => p.1 = websocket) (sent st)).

(** [list.remove(x)] on a list that holds [x]: the first occurrence goes. *)
Fixpoint remove_first (x : nat) (l : list nat) : list nat :=
  match l with
  | [] => []
  | y :: l' => if decide (y = x) then l' else y :: remove_first x l'
  end.

(** [disconnect] *)
Definition disconnect (websocket : nat) (st : t) : t :=
  {| active_connections := remove_first websocket (active_connections st);
     message_buffer := message_buffer st;
     buffer_size := buffer_size st;
     sent := sent st |}.

Definition log_sent (websocket : nat) (data : Event) (st : t) : t :=
  {| active_connections := active_connections st;
     message_buffer := message_buffer st;
     buffer_size := buffer_size st;
     sent := (sent st ++ [(websocket, data)])%list |}.

Section Sockets.

(** The connections whose [send_json] raises. *)
Variable broken : nat -> bool.

(** [send_to_client] *)
Definition send_to_client (websocket : nat) (data : Event) (st : t) : t :=
  if broken websocket then disconnect websocket st
  else log_sent websocket data st.

(** [connect]; a [client_id] that is falsy ([None], here the empty string
    as well) is replaced by ["client_{n}"], [n] being the number of
    connections once this one is registered. *)
Definition connect (websocket : nat) (client_id : string) (st : t) : t :=
  let st :=
    {| active_connections := (active_connections st ++ [websocket])%list;
       message_buffer := message_buffer st;
       buffer_size := buffer_size st;
       sent := sent st |} in
  let client_id :=
    if String.eqb client_id ""
    then "client_" ++ PyStr.str_int (Z.of_nat (length (active_connections st)))
    else client_id in
  send_to_client websocket (ConnectionEstablished client_id) st.

(** [broadcast] (without [exclude], which no caller here passes): send to
    every active connection in order, then drop those that failed. *)
Definition broadcast (data : Event) (st : t) : t :=
  let delivered :=
    foldl (fun st c => if broken c then st else log_sent c data st)
          st (active_connections st) in
  foldl (fun st c => if broken c then disconnect c st else st)
        delivered (active_connections st).

(** [_buffer_message] *)
Definition _buffer_message (channel : string) (message : ChatMessage) (st : t) : t :=
  let appended := (default [] (message_buffer st !! channel) ++ [message])%list in
  let kept :=
    if buffer_size st <? Z.of_nat (length appended)
    then PyStr.slice_from (- buffer_size st) appended
    else appended in
  {| active_connections := active_connections st;
     message_buffer := <[channel := kept]> (message_buffer st);
     buffer_size := buffer_size st;
     sent := sent st |}.

(** [broadcast_chat_message] *)
Definition broadcast_chat_message (message_data : ChatMessage) (st : t) : t :=
  _buffer_message "chat" message_data (broadcast (ChatMessageEvent message_data) st).

(** [broadcast_chat_stream] *)
Definition broadcast_chat_stream (session_id chunk : string) (is_complete : bool) (st : t) : t :=
  broadcast (ChatStream session_id chunk is_complete) st.

(** The loop of [send_buffered_messages]: it stops at the first failed send. *)
Fixpoint send_each (websocket : nat) (channel : string) (msgs : list ChatMessage) (st : t) : t :=
  match msgs with
  | [] => st
  | msg :: rest =>
      if broken websocket then st
      else send_each websocket channel rest
             (log_sent websocket (BufferedMessage channel msg) st)
  end.

(** [send_buffered_messages], what the request [get_buffered] runs. *)
Definition send_buffered_messages (websocket : nat) (channel : string) (st : t) : t :=
  match message_buffer st !! channel with
  | Some msgs => send_each websocket channel msgs st
  | None => st
  end.

(** Broadcast the given chat messages, oldest first. *)
Definition broadcast_all (msgs : list ChatMessage) (st : t) : t :=
  foldl (fun st m => broadcast_chat_message m st) st msgs.

End Sockets.

End WebSocketManager.

(** ** agent_manager.py *)

Module AgentManager.

Inductive AgentRole :=
| RESEARCH
| VERIFY
| CODE
| SYNTHESIS
| REVIEW
| ORCHESTRATOR.

(** [AgentRole(value)]; [None] is the [ValueError] of a value outside the
    enumeration. *)
Definition AgentRole_of_value (value : string) : option AgentRole :=
  if String.eqb value "research" then Some RESEARCH
  else if String.eqb value "verify" then Some VERIFY
  else if String.eqb value "code" then Some CODE
  else if String.eqb value "synthesis" then Some SYNTHESIS
  else if String.eqb value "review" then Some REVIEW
  else if String.eqb value "orchestrator" then Some ORCHESTRATOR
  else None.

Inductive AgentStatus :=
| PENDING
| RUNNING
| WAITING
| PAUSED
| COMPLETED
| FAILED
| TERMINATED.

Record Template := {
  t_role : AgentRole;
  t_system_prompt : string;
  t_capabilities : list string
}.

(** [self.templates] *)
Definition templates : gmap string Template :=
  <["research" :=
      {| t_role := RESEARCH;
         t_system_prompt := "You are a Research Agent. Your task is to gather comprehensive information.
Provide detailed, factual research with sources where possible.
Focus on accuracy and completeness.";
         t_capabilities := ["web_search"; "document_analysis"; "fact_extraction"] |}]>
  (<["verify" :=
      {| t_role := VERIFY;
         t_system_prompt := "You are a Verification Agent. Your task is to validate and verify information.
Cross-reference claims and provide confidence assessments.
Be skeptical and thorough.";
         t_capabilities := ["fact_checking"; "source_validation"; "claim_analysis"] |}]>
  (<["code" :=
      {| t_role := CODE;
         t_system_prompt := "You are a Code Agent. Your task is to write clean, efficient code.
Follow best practices, include comments, and write tests.
You can create new files and programs.";
         t_capabilities := ["code_generation"; "file_operations"; "testing"] |}]>
  (<["synthesis" :=
      {| t_role := SYNTHESIS;
         t_system_prompt := "You are a Synthesis Agent. Your task is to combine and summarize information.
Create coherent summaries from multiple sources.
Highlight key insights and conclusions.";
         t_capabilities := ["summarization"; "insight_extraction"; "report_generation"] |}]>
  (<["review" :=
      {| t_role := REVIEW;
         t_system_prompt := "You are a Review Agent. Your task is to review and critique work.
Provide constructive feedback and suggestions for improvement.
Be thorough but fair in your assessment.";
         t_capabilities := ["code_review"; "document_review"; "quality_assessment"] |}]>
  ∅)))).

Record Agent := {
  agent_id : string;
  agent_name : string;
  agent_role : AgentRole;
  agent_system_prompt : string;
  agent_model : string;
  agent_capabilities : list string;
  agent_parent_id : option string;
  agent_status : AgentStatus;
  agent_openclaw_session_id : option string
}.

Record t := {
  agents : gmap string Agent;
  agent_by_name : gmap string string;
  model : string
}.

(** [x or y] for an optional string: [None] and the empty string are falsy. *)
Definition str_or (x : option string) (y : string) : string :=
  match x with
  | Some s => if String.eqb s "" then y else s
  | None => y
  end.

(** [x or y] for an optional list: [None] and the empty list are falsy. *)
Definition list_or (x : option (list string)) (y : list string) : list string :=
  match x with
  | Some (c :: cs) => c :: cs
  | _ => y
  end.

Inductive Result (A : Type) :=
| Ok (a : A)
| ValueError (msg : string).

Arguments Ok {A} a.
Arguments ValueError {A} msg.

(** [create_agent].  [uuid] is what [uuid4()] gives; [openclaw_session] is
    the session the OpenClaw adapter opens for the agent, [None] when there
    is no adapter or the call raises (logged, not raised).  The broadcast
    of the creation changes nothing here. *)
Definition create_agent (name role : string) (system_prompt model_arg : option string)
    (capabilities : option (list string)) (parent_id : option string)
    (use_template : bool) (uuid : string) (openclaw_session : option string) (st : t)
  : Result (Agent * t) :=
  if bool_decide (is_Some (agent_by_name st !! name))
  then ValueError ("Agent with name '" ++ name ++ "' already exists")
  else
    let template := if use_template then templates !! PyStr.lower role else None in
    let role_enum := default RESEARCH (AgentRole_of_value (PyStr.lower role)) in
    let final_prompt :=
      str_or system_prompt
        (match template with
         | Some tpl => t_system_prompt tpl
         | None => "You are a " ++ role ++ " agent."
         end) in
    let final_capabilities :=
      list_or capabilities
        (match template with
         | Some tpl => t_capabilities tpl
         | None => []
         end) in
    let final_model := str_or model_arg (model st) in
    let agent :=
      {| agent_id := uuid;
         agent_name := name;
         agent_role := role_enum;
         agent_system_prompt := final_prompt;
         agent_model := final_model;
         agent_capabilities := final_capabilities;
         agent_parent_id := parent_id;
         agent_status := PENDING;
         agent_openclaw_session_id := openclaw_session |} in
    Ok (agent,
        {| agents := <[uuid := agent]> (agents st);
           agent_by_name := <[name := uuid]> (agent_by_name st);
           model := model st |}).

(** [x] when it is truthy. *)
Definition truthy (x : option string) : option string :=
  match x with
  | Some s => if String.eqb s "" then None else Some s
  | None => None
  end.

(** [get_agent(agent_id, name)] *)
Definition get_agent (agent_id name : option string) (st : t) : option Agent :=
  match truthy agent_id with
  | Some id => agents st !! id
  | None =>
      match truthy name with
      | Some n =>
          match truthy (agent_by_name st !! n) with
          | Some id => agents st !! id
          | None => None
          end
      | None => None
      end
  end.

(** [terminate_agent]: whether the agent was there, and the registries
    afterwards (the status change and the broadcasts reach an agent that
    is no longer registered). *)
Definition terminate_agent (agent_id : string) (st : t) : bool * t :=
  match agents st !! agent_id with
  | None => (false, st)
  | Some agent =>
      (true,
       {| agents := delete agent_id (agents st);
          agent_by_name := delete (agent_name agent) (agent_by_name st);
          model := model st |})
  end.

(** The agent a call created, if it did. *)
Definition created (r : Result (Agent * t)) : option Agent :=
  match r with
  | Ok (agent, _) => Some agent
  | ValueError _ => None
  end.

(** A manager with no agent yet. *)
Definition init (model : string) : t :=
  {| agents := ∅; agent_by_name := ∅; model := model |}.

End AgentManager.

(** ** ralph_loop.py *)

Module RalphLoop.

Import MemoryLearning.

Inductive StoryStatus :=
| NOT_STARTED
| IN_PROGRESS
| COMPLETED
| FAILED
| SKIPPED.

#[export] Instance StoryStatus_eq_dec : EqDecision StoryStatus.
Proof. solve_decision. Defined.

Record UserStory := {
  us_id : string;
  us_title : string;
  us_description : string;
  us_acceptance_criteria : list string;
  us_priority : Z;
  us_status : StoryStatus;
  us_attempts : Z;
  us_last_error : option string;
  us_completed_at : option string;
  us_commit_sha : option string
}.

(** [UserStory.__init__] *)
Definition new_story (story_id title description : string)
    (acceptance_criteria : list string) (priority : Z) : UserStory :=
  {| us_id := story_id;
     us_title := title;
     us_description := description;
     us_acceptance_criteria := acceptance_criteria;
     us_priority := priority;
     us_status := NOT_STARTED;
     us_attempts := 0;
     us_last_error := None;
     us_completed_at := None;
     us_commit_sha := None |}.

(** [status in (COMPLETED, FAILED, SKIPPED)] *)
Definition is_terminal (s : StoryStatus) : bool :=
  match s with
  | COMPLETED | FAILED | SKIPPED => true
  | NOT_STARTED | IN_PROGRESS => false
  end.

(** [PRD.get_next_story]: the story is an object of [self.stories], given
    here with its position in that list. *)
Definition get_next_story (stories : list UserStory) : option (nat * UserStory) :=
  let incomplete :=
    filter (fun p => is_terminal (us_status p.2) = false) (imap pair stories) in
  head (PyStr.sorted (fun p => us_priority p.2) incomplete).

Definition get_completed_stories (stories : list UserStory) : list UserStory :=
  filter (fun s => us_status s = COMPLETED) stories.

Definition get_failed_stories (stories : list UserStory) : list UserStory :=
  filter (fun s => us_status s = FAILED) stories.

(** *** The quality gate *)

(** What [subprocess.run] does for one tool: the program is missing, the
    call raises otherwise (a timeout), or the process exits. *)
Inductive ProcOutcome :=
| ProcNotFound
| ProcRaised
| ProcExited (returncode : Z) (stdout stderr : string).

Record QualityResult := {
  qr_passed : bool;
  qr_checks : list QualityCheck;
  qr_errors : list string;
  qr_warnings : list string
}.

(** [out[:500] if out else alt] *)
Definition excerpt (out alt : string) : string :=
  if String.eqb out "" then alt else PyStr.str_take 500 out.

(** [_run_quality_checks]: pytest, then ruff, then mypy.  Nothing is ever
    appended to [errors]. *)
Definition _run_quality_checks (pytest ruff mypy : ProcOutcome) : QualityResult :=
  let checks : list QualityCheck := [] in
  let errors : list string := [] in
  let warnings : list string := [] in
  let '(checks, warnings) :=
    match pytest with
    | ProcExited returncode stdout stderr =>
        let check :=
          {| qc_name := "pytest";
             qc_passed := returncode =? 0;
             qc_output := excerpt stdout (PyStr.str_take 500 stderr) |} in
        ((checks ++ [check])%list,
         if qc_passed check then warnings
         else (warnings ++ [("pytest warnings: " ++ PyStr.str_take 200 stderr)%string])%list)
    | _ => (checks, warnings)
    end in
  let checks :=
    match ruff with
    | ProcExited returncode stdout _ =>
        (checks ++ [{| qc_name := "ruff";
                       qc_passed := returncode =? 0;
                       qc_output := excerpt stdout "" |}])%list
    | _ => checks
    end in
  let '(checks, warnings) :=
    match mypy with
    | ProcExited returncode stdout _ =>
        let check :=
          {| qc_name := "mypy";
             qc_passed := returncode =? 0;
             qc_output := excerpt stdout "" |} in
        ((checks ++ [check])%list,
         if qc_passed check then warnings
         else (warnings ++ [("mypy warnings: " ++ PyStr.str_take 200 stdout)%string])%list)
    | _ => (checks, warnings)
    end in
  {| qr_passed := bool_decide (length errors = 0%nat);
     qr_checks := checks;
     qr_errors := errors;
     qr_warnings := warnings |}.

(** *** One attempt *)

(** The dictionary [_implement_with_agent] or [_implement_with_copilot_cli]
    returns. *)
Record Generation := {
  g_success : bool;
  g_code : option string;
  g_files : list string;
  g_error : option string
}.

Record AttemptData := {
  ad_changes_made : Z;
  ad_error : option string;
  ad_quality_checks : list QualityCheck;
  ad_code_generated : option string;
  ad_files_modified : list string
}.

(** What the outside world does during one iteration of the loop. *)
Record IterEnv := {
  (** an exception inside the [try] of [_implement_story] *)
  impl_raises : option string;
  generation : Generation;
  (** what [_apply_code_changes] returns for the generated code *)
  changes : Z;
  pytest : ProcOutcome;
  ruff : ProcOutcome;
  mypy : ProcOutcome;
  (** [memory_client.diary] and [memory_client.reflect] return normally
      (their writes to the local memory directory succeed) *)
  diary_ok : bool;
  reflect_ok : bool;
  (** what [_commit_changes] returns *)
  commit : option string;
  (** an exception of [_save_progress] *)
  save_raises : option string;
  now : string;
  (** [stop()] is called while the iteration runs *)
  stop_called : bool
}.

(** [str(list)] of the gate's error messages. *)
Definition str_list (l : list string) : string :=
  "[" ++ PyStr.join ", " (map (fun s => "'" ++ s ++ "'") l) ++ "]".

(** [_implement_story] (the prompt text is not modelled). *)
Definition _implement_story (e : IterEnv) : bool * AttemptData :=
  match impl_raises e with
  | Some msg =>
      (false,
       {| ad_changes_made := 0; ad_error := Some msg; ad_quality_checks := [];
          ad_code_generated := None; ad_files_modified := [] |})
  | None =>
      let result := generation e in
      if negb (g_success result)
      then (false,
            {| ad_changes_made := 0; ad_error := g_error result; ad_quality_checks := [];
               ad_code_generated := g_code result; ad_files_modified := g_files result |})
      else if changes e =? 0
      then (false,
            {| ad_changes_made := changes e; ad_error := Some "No code changes applied";
               ad_quality_checks := [];
               ad_code_generated := g_code result; ad_files_modified := g_files result |})
      else
        let quality_result := _run_quality_checks (pytest e) (ruff e) (mypy e) in
        if negb (qr_passed quality_result)
        then (false,
              {| ad_changes_made := changes e;
                 ad_error := Some ("Quality checks failed: " ++ str_list (qr_errors quality_result));
                 ad_quality_checks := qr_checks quality_result;
                 ad_code_generated := g_code result; ad_files_modified := g_files result |})
        else (true,
              {| ad_changes_made := changes e; ad_error := None;
                 ad_quality_checks := qr_checks quality_result;
                 ad_code_generated := g_code result; ad_files_modified := g_files result |})
  end.

(** *** The loop *)

Record DiaryCall := {
  d_story_id : string;
  d_attempt_number : Z;
  d_success : bool;
  d_changes_made : Z;
  d_error : option string
}.

Record ReflectCall := {
  rf_story_id : string;
  rf_total_attempts : Z;
  rf_final_success : bool;
  rf_all_attempts : list Attempt;
  rf_commit_sha : option string
}.

Record Config := {
  max_iterations : Z;
  max_retries_per_story : Z;
  (** a [memory_client] was given *)
  memory_client : bool
}.

(** The loop object while [run] executes; [diary] and [reflections] log
    the diary entries written and the reflections produced. *)
Record State := {
  stories : list UserStory;
  iteration : Z;
  running : bool;
  story_attempts : gmap string (list Attempt);
  diary : list DiaryCall;
  reflections : list ReflectCall
}.

Definition set_status (s : StoryStatus) (story : UserStory) : UserStory :=
  {| us_id := us_id story; us_title := us_title story;
     us_description := us_description story;
     us_acceptance_criteria := us_acceptance_criteria story;
     us_priority := us_priority story;
     us_status := s;
     us_attempts := us_attempts story;
     us_last_error := us_last_error story;
     us_completed_at := us_completed_at story;
     us_commit_sha := us_commit_sha story |}.

(** [story.status = IN_PROGRESS; story.attempts += 1] *)
Definition start_attempt (story : UserStory) : UserStory :=
  {| us_id := us_id story; us_title := us_title story;
     us_description := us_description story;
     us_acceptance_criteria := us_acceptance_criteria story;
     us_priority := us_priority story;
     us_status := IN_PROGRESS;
     us_attempts := us_attempts story + 1;
     us_last_error := us_last_error story;
     us_completed_at := us_completed_at story;
     us_commit_sha := us_commit_sha story |}.

(** The [if success:] branch on the story. *)
Definition complete (completed_at : string) (sha : option string) (story : UserStory)
  : UserStory :=
  {| us_id := us_id story; us_title := us_title story;
     us_description := us_description story;
     us_acceptance_criteria := us_acceptance_criteria story;
     us_priority := us_priority story;
     us_status := COMPLETED;
     us_attempts := us_attempts story;
     us_last_error := us_last_error story;
     us_completed_at := Some completed_at;
     us_commit_sha := sha |}.

Definition set_last_error (err : option string) (story : UserStory) : UserStory :=
  {| us_id := us_id story; us_title := us_title story;
     us_description := us_description story;
     us_acceptance_criteria := us_acceptance_criteria story;
     us_priority := us_priority story;
     us_status := us_status story;
     us_attempts := us_attempts story;
     us_last_error := err;
     us_completed_at := us_completed_at story;
     us_commit_sha := us_commit_sha story |}.

Definition error_field (err : option string) : ErrorField :=
  match err with
  | Some s => ErrStr s
  | None => ErrNone
  end.

Section Run.

Variable cfg : Config.

(** The world during iteration number [i] (the value of [self.iteration]
    once it is incremented). *)
Variable env : Z -> IterEnv.

(** The body of the [while] once a story was picked and is within its
    retry budget: from [self.iteration += 1] to the end of the inner
    [try/except]. *)
Definition attempt_story (i : nat) (story : UserStory) (st : State) : State :=
  let iteration := iteration st + 1 in
  let e := env iteration in
  let story := start_attempt story in
  let '(success, attempt_data) := _implement_story e in
  let diary :=
    if memory_client cfg && diary_ok e
    then (diary st ++ [{| d_story_id := us_id story;
                          d_attempt_number := us_attempts story;
                          d_success := success;
                          d_changes_made := ad_changes_made attempt_data;
                          d_error := ad_error attempt_data |}])%list
    else diary st in
  let attempts :=
    (default [] (story_attempts st !! us_id story)
     ++ [{| attempt := us_attempts story;
            success := success;
            changes_made := ad_changes_made attempt_data;
            error := error_field (ad_error attempt_data);
            quality_checks := ad_quality_checks attempt_data |}])%list in
  let story_attempts := <[us_id story := attempts]> (story_attempts st) in
  let story :=
    if success then complete (now e) (commit e) story
    else set_last_error (ad_error attempt_data) story in
  let reflections :=
    if success && memory_client cfg && reflect_ok e
    then (reflections st ++ [{| rf_story_id := us_id story;
                                rf_total_attempts := us_attempts story;
                                rf_final_success := true;
                                rf_all_attempts := attempts;
                                rf_commit_sha := us_commit_sha story |}])%list
    else reflections st in
  let story :=
    match save_raises e with
    | Some msg => set_last_error (Some msg) story
    | None => story
    end in
  {| stories := <[i := story]> (stories st);
     iteration := iteration;
     running := running st && negb (stop_called e);
     story_attempts := story_attempts;
     diary := diary;
     reflections := reflections |}.

(** The branch [story.attempts >= self.max_retries_per_story]. *)
Definition mark_failed (i : nat) (story : UserStory) (st : State) : State :=
  {| stories := <[i := set_status FAILED story]> (stories st);
     iteration := iteration st;
     running := running st;
     story_attempts := story_attempts st;
     diary := diary st;
     reflections := reflections st |}.

(** The [while] loop of [run]; [None] when the fuel runs out first. *)
Fixpoint loop (fuel : nat) (st : State) : option State :=
  match fuel with
  | O => None
  | S fuel =>
      if running st && (iteration st <? max_iterations cfg)
      then match get_next_story (stories st) with
           | None => Some st
           | Some (i, story) =>
               if max_retries_per_story cfg <=? us_attempts story
               then loop fuel (mark_failed i story st)
               else loop fuel (attempt_story i story st)
           end
      else Some st
  end.

(** [len(self.prd.get_completed_stories())] *)
Definition completed_count (stories : list UserStory) : nat :=
  length (get_completed_stories stories).

(** The stories [get_next_story] can still pick. *)
Definition open_stories (stories : list UserStory) : nat :=
  length (filter (fun s => is_terminal (us_status s) = false) stories).

(** Passes of the loop that are left at most: every pass starts an
    iteration or closes a story. *)
Definition passes_left (st : State) : nat :=
  (Z.to_nat (max_iterations cfg - iteration st) + open_stories (stories st))%nat.

Record Summary := {
  sum_status : string;
  sum_iterations : Z;
  sum_total : nat;
  sum_completed : nat;
  sum_failed : nat;
  sum_total_attempts : nat
}.

(** [_generate_summary] (duration and percentage left out). *)
Definition _generate_summary (st : State) : Summary :=
  let completed := get_completed_stories (stories st) in
  let failed := get_failed_stories (stories st) in
  {| sum_status := match failed with [] => "completed" | _ => "partial" end;
     sum_iterations := iteration st;
     sum_total := length (stories st);
     sum_completed := length completed;
     sum_failed := length failed;
     sum_total_attempts :=
       map_fold (fun _ a n => (length a + n)%nat) 0%nat (story_attempts st) |}.

(** A fresh loop object around a PRD ([RalphLoop.__init__]). *)
Definition init (prd : list UserStory) : State :=
  {| stories := prd; iteration := 0; running := false;
     story_attempts := ∅; diary := []; reflections := [] |}.

Definition start (st : State) : State :=
  {| stories := stories st; iteration := iteration st; running := true;
     story_attempts := story_attempts st; diary := diary st;
     reflections := reflections st |}.

Definition finish (st : State) : State :=
  {| stories := stories st; iteration := iteration st; running := false;
     story_attempts := story_attempts st; diary := diary st;
     reflections := reflections st |}.

(** [run] on a loaded PRD once the set-up before the loop has gone through
    ([_init_progress] did not raise; [run_from_start] below has that
    case): the loop object when [run] returns, and the summary
    returned. *)
Definition run (prd : list UserStory) : option (State * Summary) :=
  let st := start (init prd) in
  match loop (S (passes_left st)) st with
  | Some st => Some (finish st, _generate_summary st)
  | None => None
  end.



(** A story is within its retry budget. *)
Definition within_budget (s : UserStory) : Prop :=
  us_attempts s <= max_retries_per_story cfg.

End Run.

End RalphLoop.

(** ** The specification's own words *)

Module Spec.

(** The failure buckets in their priority order, each with the words whose
    presence in the lower-cased error selects it. *)
Definition priority_table : list (list string * string) :=
  [ (["test"; "pytest"], "Test failures");
    (["syntax"], "Syntax errors");
    (["import"], "Import errors");
    (["type"], "Type errors");
    (["quality"], "Quality check failures") ].

Fixpoint first_match (table : list (list string * string)) (e : string) : string :=
  match table with
  | [] => "Implementation errors"
  | (words, bucket) :: rest =>
      if existsb (fun w => PyStr.contains w e) words then bucket
      else first_match rest e
  end.

(** The bucket of an error string: case-insensitive substring match, first
    match in priority order. *)
Definition bucket_of (error : string) : string :=
  first_match priority_table (PyStr.lower error).

(** In how many of the errors a bucket occurs. *)
Definition occurrences (bucket : string) (errors : list string) : Z :=
  Z.of_nat (length (filter (fun e => bucket_of e = bucket) errors)).

(** The four failure patterns the recommendation table has an entry for. *)
Definition table_entries : list string :=
  ["Test failures"; "Syntax errors"; "Import errors"; "Type errors"].

(** A failure pattern matches the table when it names one of its entries. *)
Definition matches_table (pattern : string) : bool :=
  existsb (fun entry => PyStr.contains entry pattern) table_entries.

Definition default_recommendations : list string :=
  ["Break complex tasks into smaller incremental changes";
   "Run quality checks after each significant change"].

(** The recommendation table: a failure bucket and the advice for it. *)
Definition advice_table : list (string * string) :=
  [ ("Test failures", "Write tests incrementally alongside implementation");
    ("Syntax errors", "Run syntax validation before applying changes");
    ("Import errors", "Verify all imports exist before implementation");
    ("Type errors", "Add type hints and run type checking early") ].

(** The files a [story_id] filter lets through: all of them without a
    [story_id], otherwise those whose name holds it. *)
Definition entry_wanted (story_id : option string) (name : string) : bool :=
  match story_id with
  | Some id => String.eqb id "" || PyStr.contains id name
  | None => true
  end.

(** The closed set of agent roles. *)
Definition role_values : list string :=
  ["research"; "verify"; "code"; "synthesis"; "review"; "orchestrator"].

(** The last [n] elements of a list. *)
Definition last_n {A : Type} (n : nat) (l : list A) : list A :=
  drop (length l - n) l.

End Spec.

(** ** Scenarios *)

(** The concrete inputs the properties below are checked on, and the
    predicates they are stated with. *)

Section ReflectScenarios.
Import MemoryLearning.

(** Three failed attempts and a success. *)
Definition c6_attempts : list Attempt :=
  [ {| attempt := 1; success := false; changes_made := 0;
       error := ErrStr "pytest exited with 1"; quality_checks := [] |};
    {| attempt := 2; success := false; changes_made := 1;
       error := ErrStr "SyntaxError: invalid syntax"; quality_checks := [] |};
    {| attempt := 3; success := false; changes_made := 1;
       error := ErrStr "2 Tests failed"; quality_checks := [] |};
    {| attempt := 4; success := true; changes_made := 2;
       error := ErrNone; quality_checks := [] |} ].

(** One failed attempt that produced no file, then a success. *)
Definition c7_attempts : list Attempt :=
  [ {| attempt := 1; success := false; changes_made := 0;
       error := ErrStr "No code changes applied"; quality_checks := [] |};
    {| attempt := 2; success := true; changes_made := 1;
       error := ErrNone; quality_checks := [] |} ].

(** The results a reply carries: none when the request raises. *)
Definition reply_results (reply : ServiceReply) : list QueryResult :=
  match reply with
  | RequestRaises => []
  | Replied _ results => results
  end.

(** [n] copies of a text, one after the other. *)
Fixpoint repeat_text (n : nat) (text : string) : string :=
  match n with
  | O => ""
  | S n' => text ++ repeat_text n' text
  end.

(** The check mark [_update_copilot_md] writes (U+2705), in UTF-8. *)
Definition check_mark : string :=
  String (ascii_of_nat 226) (String (ascii_of_nat 156) (String (ascii_of_nat 133) "")).

(** A [COPILOT.md] of 2001 characters (2003 bytes): an "x", a check mark
    and 1999 ASCII characters.  Its last 2000 characters are all but the
    "x". *)
Definition accented_md : string := "x" ++ check_mark ++ "!" ++ repeat_text 999 "ok".

Definition accented_md_tail : string := check_mark ++ "!" ++ repeat_text 999 "ok".

Definition c8_result : QueryResult :=
  {| r_content := "Reflection: add login form";
     r_artifact_type := "research_snippet";
     r_score := (9 # 10)%Q;
     r_artifact := Some {| a_story_id := Some "US-001"; a_story_title := None;
                           a_insights := ["'add login form' completed on first attempt"];
                           a_recommendations := []; a_timestamp := None |} |}.

End ReflectScenarios.

Section StoreScenarios.

(** Append the given contents as user messages, one [add_message] each. *)
Fixpoint redis_add_all (session_id : string) (contents : list string) (st : SessionStorage.t)
  : option SessionStorage.t :=
  match contents with
  | [] => Some st
  | content :: rest =>
      match SessionStorage.add_message session_id "user" content None "id" "t" st with
      | Some (_, st) => redis_add_all session_id rest st
      | None => None
      end
  end.

(** A connected Redis-backed store that keeps two messages per session. *)
Definition c5_store : SessionStorage.t :=
  (SessionStorage.create_session (Some "s") "u" "t0"
     {| SessionStorage.redis := Some Redis.empty; SessionStorage.max_messages := 2 |}).2.

(** Every session's [message_count] is the length of its message list. *)
Definition counts_agree (st : InMemorySessionStorage.t) : Prop :=
  forall session_id s,
    InMemorySessionStorage.sessions st !! session_id = Some s ->
    InMemorySessionStorage.s_message_count s = Z.of_nat (length (InMemorySessionStorage.get_all_messages session_id st)).

(** A call on the in-memory store, with what [uuid4()] and
    [datetime.utcnow()] give during it. *)
Inductive StoreCall :=
| CreateSession (session_id : option string) (uuid now : string)
| AddMessage (session_id role content : string) (metadata : option string) (uuid now : string)
| SetContext (session_id key value : string)
| SaveWorkflow (session_id workflow_id workflow_data now : string).

Definition call (st : InMemorySessionStorage.t) (c : StoreCall) : InMemorySessionStorage.t :=
  match c with
  | CreateSession session_id uuid now =>
      (InMemorySessionStorage.create_session session_id uuid now st).2
  | AddMessage session_id role content metadata uuid now =>
      (InMemorySessionStorage.add_message session_id role content metadata uuid now st).2
  | SetContext session_id key value =>
      InMemorySessionStorage.set_context session_id key value st
  | SaveWorkflow session_id workflow_id workflow_data now =>
      InMemorySessionStorage.save_workflow session_id workflow_id workflow_data now st
  end.




(** The same appends on the in-memory store. *)
Fixpoint memory_add_all (session_id : string) (contents : list string)
    (st : InMemorySessionStorage.t) : InMemorySessionStorage.t :=
  match contents with
  | [] => st
  | content :: rest =>
      memory_add_all session_id rest
        (InMemorySessionStorage.add_message session_id "user" content None "id" "t" st).2
  end.

(** The messages those appends build. *)
Definition user_messages (contents : list string) : list Message :=
  (fun content => {| m_id := "id"; m_role := "user"; m_content := content;
                     m_timestamp := "t"; m_metadata := "{}" |}) <$> contents.

(** Successive callers of [get_session_storage]: each is given the Redis
    server a connection attempt would reach, and makes the given calls on
    the store it is handed.  The fallback store is one shared object, so
    what a caller writes to it is what the global holds afterwards; the
    objects returned, each as it is when handed out. *)
Fixpoint storage_callers (callers : list (option Redis.db * list StoreCall))
    (g : StorageGlobals.t) : list StorageGlobals.Returned :=
  match callers with
  | [] => []
  | (server, calls) :: rest =>
      let '(r, g) := StorageGlobals.get_session_storage server g in
      let g :=
        match r with
        | StorageGlobals.Fallback m =>
            {| StorageGlobals._storage := StorageGlobals._storage g;
               StorageGlobals._fallback_storage := Some (foldl call m calls) |}
        | StorageGlobals.RedisBacked _ => g
        end in
      r :: storage_callers rest g
  end.

End StoreScenarios.

Section BusScenarios.

(** An early subscriber, three stream chunks on session S6, then a late
    subscriber; every socket works. *)
Definition c9_state : WebSocketManager.t :=
  let ok := fun _ : nat => false in
  let st := WebSocketManager.connect ok 0 "early" WebSocketManager.init in
  let st := WebSocketManager.broadcast_chat_stream ok "S6" "a" false st in
  let st := WebSocketManager.broadcast_chat_stream ok "S6" "b" false st in
  let st := WebSocketManager.broadcast_chat_stream ok "S6" "c" true st in
  WebSocketManager.connect ok 1 "late" st.

Definition c9_messages : list WebSocketManager.ChatMessage :=
  [ {| WebSocketManager.cm_session_id := "S6"; WebSocketManager.cm_role := "user";
       WebSocketManager.cm_content := "hello" |};
    {| WebSocketManager.cm_session_id := "S6"; WebSocketManager.cm_role := "assistant";
       WebSocketManager.cm_content := "hi" |} ].

(** A call on the manager. *)
Inductive BusCall :=
| Connect (websocket : nat) (client_id : string)
| Disconnect (websocket : nat)
| BroadcastChatMessage (message : WebSocketManager.ChatMessage)
| BroadcastChatStream (session_id chunk : string) (is_complete : bool)
| SendBufferedMessages (websocket : nat) (channel : string).

(** The manager after a call, given the sockets that are broken while it
    runs. *)
Definition bus_call (st : WebSocketManager.t) (c : (nat -> bool) * BusCall)
  : WebSocketManager.t :=
  let broken := c.1 in
  match c.2 with
  | Connect websocket client_id => WebSocketManager.connect broken websocket client_id st
  | Disconnect websocket => WebSocketManager.disconnect websocket st
  | BroadcastChatMessage message => WebSocketManager.broadcast_chat_message broken message st
  | BroadcastChatStream session_id chunk is_complete =>
      WebSocketManager.broadcast_chat_stream broken session_id chunk is_complete st
  | SendBufferedMessages websocket channel =>
      WebSocketManager.send_buffered_messages broken websocket channel st
  end.

(** The chat messages a sequence of calls broadcasts, oldest first. *)
Definition chat_messages_of (calls : list ((nat -> bool) * BusCall))
  : list WebSocketManager.ChatMessage :=
  omap (fun c => match c.2 with
                 | BroadcastChatMessage message => Some message
                 | _ => None
                 end) calls.

(** How often a connection is registered. *)
Definition registrations (websocket : nat) (st : WebSocketManager.t) : nat :=
  length (filter (fun c => c = websocket) (WebSocketManager.active_connections st)).

End BusScenarios.

Section AgentScenarios.

(** A call on the agent manager; [uuid] is what [uuid4()] gives during a
    creation. *)
Inductive ManagerCall :=
| CreateAgent (name role : string) (system_prompt model_arg : option string)
    (capabilities : option (list string)) (parent_id : option string)
    (use_template : bool) (uuid : string) (openclaw_session : option string)
| TerminateAgent (agent_id : string).

(** The manager after a call; a creation that raises leaves it as it
    was. *)
Definition manager_call (st : AgentManager.t) (c : ManagerCall) : AgentManager.t :=
  match c with
  | CreateAgent name role system_prompt model_arg capabilities parent_id use_template
      uuid openclaw_session =>
      match AgentManager.create_agent name role system_prompt model_arg capabilities
              parent_id use_template uuid openclaw_session st with
      | AgentManager.Ok (_, st') => st'
      | AgentManager.ValueError _ => st
      end
  | TerminateAgent agent_id => (AgentManager.terminate_agent agent_id st).2
  end.

(** Every [uuid4()] of a sequence of calls gives an id that is not empty
    and not in use. *)
Fixpoint fresh_ids (st : AgentManager.t) (calls : list ManagerCall) : Prop :=
  match calls with
  | [] => True
  | c :: rest =>
      match c with
      | CreateAgent _ _ _ _ _ _ _ uuid _ =>
          uuid <> "" /\ AgentManager.agents st !! uuid = None
      | TerminateAgent _ => True
      end
      /\ fresh_ids (manager_call st c) rest
  end.

(** The two registries agree: a name leads to an id exactly when the agent
    registered under that id has that name, and every agent is registered
    under its own id. *)
Definition registry_consistent (st : AgentManager.t) : Prop :=
  (forall name id,
     AgentManager.agent_by_name st !! name = Some id
     <-> exists agent, AgentManager.agents st !! id = Some agent
                       /\ AgentManager.agent_name agent = name)
  /\ (forall id agent,
        AgentManager.agents st !! id = Some agent ->
        AgentManager.agent_id agent = id /\ id <> "").

End AgentScenarios.

Section LoopScenarios.
Import MemoryLearning RalphLoop.

(** Code was generated and one file written; pytest and the linter exit
    with 1, the type checker is not installed. *)
Definition c2_env : IterEnv :=
  {| impl_raises := None;
     generation := {| g_success := true; g_code := Some "code"; g_files := [];
                      g_error := None |};
     changes := 1;
     pytest := ProcExited 1 "1 failed" "";
     ruff := ProcExited 1 "E501 line too long" "";
     mypy := ProcNotFound;
     diary_ok := true;
     reflect_ok := true;
     commit := Some "abc123";
     save_raises := None;
     now := "t";
     stop_called := false |}.

(** The model answers, but its output holds no file artifact: nothing is
    written.  The memory client works. *)
Definition no_artifact_env : Z -> IterEnv :=
  fun _ =>
    {| impl_raises := None;
       generation := {| g_success := true; g_code := Some "I would add a function.";
                        g_files := []; g_error := None |};
       changes := 0;
       pytest := ProcNotFound;
       ruff := ProcNotFound;
       mypy := ProcNotFound;
       diary_ok := true;
       reflect_ok := true;
       commit := None;
       save_raises := None;
       now := "t";
       stop_called := false |}.

(** The model writes one file; the tools are not installed; the commit
    succeeds. *)
Definition one_file_env : Z -> IterEnv :=
  fun _ =>
    {| impl_raises := None;
       generation := {| g_success := true; g_code := Some "def reverse(s): return s[::-1]";
                        g_files := []; g_error := None |};
       changes := 1;
       pytest := ProcNotFound;
       ruff := ProcNotFound;
       mypy := ProcNotFound;
       diary_ok := true;
       reflect_ok := true;
       commit := Some "abc123";
       save_raises := None;
       now := "t";
       stop_called := false |}.

Definition one_story_prd : list UserStory :=
  [ new_story "US-001" "Reverse a string" "Write reverse(s)" ["reverse('ab') == 'ba'"] 1 ].

Definition s3_cfg : Config :=
  {| max_iterations := 100; max_retries_per_story := 3; memory_client := true |}.

(** As [no_artifact_env], but [stop()] is called while iteration [k]
    runs. *)
Definition stop_at_env (k : Z) : Z -> IterEnv :=
  fun i =>
    {| impl_raises := None;
       generation := {| g_success := true; g_code := Some "I would add a function.";
                        g_files := []; g_error := None |};
       changes := 0;
       pytest := ProcNotFound;
       ruff := ProcNotFound;
       mypy := ProcNotFound;
       diary_ok := true;
       reflect_ok := true;
       commit := None;
       save_raises := None;
       now := "t";
       stop_called := i =? k |}.

(** Two stories of equal priority after one of lower urgency, and a
    closed one. *)
Definition tie_prd : list UserStory :=
  [ new_story "US-001" "Later" "d" [] 3;
    set_status SKIPPED (new_story "US-002" "Skipped" "d" [] 1);
    new_story "US-003" "First of two" "d" [] 2;
    new_story "US-004" "Second of two" "d" [] 2 ].


(** What the loop keeps true of a story: it is within the retry budget, it
    is failed only with the budget used up, and completed only with a
    completion time. *)
Definition story_settled (cfg : Config) (s : UserStory) : Prop :=
  us_attempts s <= max_retries_per_story cfg
  /\ (us_status s = FAILED -> us_attempts s = max_retries_per_story cfg)
  /\ (us_status s = COMPLETED -> is_Some (us_completed_at s)).

End LoopScenarios.

(** * Properties *)

(** ** Python primitives *)

Example lower_ex : PyStr.lower "PyTest FAILED" = "pytest failed".
Proof. reflexivity. Qed.

Example contains_ex : PyStr.contains "test" "pytest failed" = true.
Proof. reflexivity. Qed.

Example str_int_ex : PyStr.str_int 12 = "12".
Proof. reflexivity. Qed.

Example sorted_stable_ex :
  PyStr.sorted (fun x : string * Z => - x.2) [("a", 1); ("b", 2); ("c", 1); ("d", 2)]
  = [("b", 2); ("d", 2); ("a", 1); ("c", 1)].
Proof. reflexivity. Qed.

Example str_last_ex :
  PyStr.str_last 2 ("ab" ++ check_mark ++ "c") = check_mark ++ "c"
  /\ PyStr.str_take 3 ("ab" ++ check_mark ++ "c") = "ab" ++ check_mark
  /\ PyStr.str_last 9 "abc" = "abc" /\ PyStr.str_take 9 "abc" = "abc".
Proof. by vm_compute. Qed.

Example slice_from_ex :
  PyStr.slice_from (-2) [1; 2; 3] = [2; 3] /\ PyStr.slice_from (-0) [1; 2; 3] = [1; 2; 3].
Proof. split; reflexivity. Qed.

Section SortedFacts.
Context {A : Type} (key : A -> Z).

Lemma insert_sorted_perm (x : A) (l : list A) :
  PyStr.insert_sorted key x l ≡ₚ x :: l.
Proof.
  induction l as [|y l IH]; simpl; [done|].
  destruct (key x <=? key y); [done|].
  rewrite IH. apply Permutation_swap.
Qed.

Lemma sorted_perm (l : list A) : PyStr.sorted key l ≡ₚ l.
Proof.
  induction l as [|x l IH]; simpl; [done|].
  unfold PyStr.sorted in IH. rewrite insert_sorted_perm. by rewrite IH.
Qed.

Lemma insert_sorted_ascending (x : A) (l : list A) :
  StronglySorted (fun a b => key a <= key b) l ->
  StronglySorted (fun a b => key a <= key b) (PyStr.insert_sorted key x l).
Proof.
  induction 1 as [|y l Hl IH Hy]; simpl.
  - repeat constructor.
  - destruct (key x <=? key y) eqn:Hxy.
    + apply Z.leb_le in Hxy. constructor.
      * by constructor.
      * constructor; [done|].
        eapply Forall_impl; [exact Hy|]. simpl. intros z Hz. lia.
    + apply Z.leb_gt in Hxy. constructor; [done|].
      rewrite insert_sorted_perm. constructor; [lia|done].
Qed.

Lemma sorted_ascending (l : list A) :
  StronglySorted (fun a b => key a <= key b) (PyStr.sorted key l).
Proof.
  induction l as [|x l IH]; simpl; [constructor|].
  by apply insert_sorted_ascending.
Qed.

End SortedFacts.

Lemma foldl_preserves {A B : Type} (P : A -> Prop) (f : A -> B -> A) (l : list B) (a : A) :
  P a -> (forall a b, P a -> P (f a b)) -> P (foldl f a l).
Proof. intros Ha Hf. revert a Ha. induction l; simpl; auto. Qed.

Lemma StronglySorted_filter_keep {A : Type} (R : relation A) (P : A -> Prop)
    `{forall x, Decision (P x)} (l : list A) :
  StronglySorted R l -> StronglySorted R (filter P l).
Proof.
  induction 1 as [|x l Hl IH Hx]; [constructor|].
  rewrite filter_cons. case_decide; [|done].
  constructor; [done|].
  rewrite Forall_forall in Hx |- *. intros y [_ Hy]%list_elem_of_filter. auto.
Qed.

Lemma StronglySorted_weaken {A : Type} (R R' : relation A) (l : list A) :
  (forall x y, R x y -> R' x y) -> StronglySorted R l -> StronglySorted R' l.
Proof.
  intros HR. induction 1 as [|x l Hl IH Hx]; constructor; [done|].
  eapply Forall_impl; [exact Hx | auto].
Qed.

(** ** Failure patterns *)

Section FailurePatterns.
Import MemoryLearning.

Lemma error_type_of_bucket (e : string) : error_type_of e = Spec.bucket_of e.
Proof.
  unfold error_type_of, Spec.bucket_of. simpl.
  rewrite !orb_false_r. reflexivity.
Qed.

Lemma dict_get_bump (k k' : string) (d : list (string * Z)) :
  dict_get k' (bump k d) = dict_get k' d + (if decide (k = k') then 1 else 0).
Proof.
  induction d as [|[k0 n] d IH]; simpl.
  - destruct (String.eqb_spec k k'); case_decide; try done; lia.
  - destruct (String.eqb_spec k0 k) as [->|Hne]; simpl.
    + destruct (String.eqb_spec k k'); case_decide; try done; lia.
    + destruct (String.eqb_spec k0 k') as [->|Hne']; [|exact IH].
      case_decide; [congruence|lia].
Qed.

Lemma bump_keys (k : string) (d : list (string * Z)) :
  (bump k d).*1 = if decide (k ∈ d.*1) then d.*1 else (d.*1 ++ [k])%list.
Proof.
  induction d as [|[k0 n] d IH]; csimpl; [done|].
  destruct (String.eqb_spec k0 k) as [->|Hne]; csimpl.
  - rewrite decide_True; [done | set_solver].
  - rewrite IH. repeat case_decide; set_solver.
Qed.

Lemma bump_NoDup (k : string) (d : list (string * Z)) :
  NoDup d.*1 -> NoDup (bump k d).*1.
Proof.
  intros Hd. rewrite bump_keys. case_decide; [done|].
  apply NoDup_app. split_and!; [done | set_solver | apply NoDup_singleton].
Qed.

Lemma bump_positive (k : string) (d : list (string * Z)) :
  Forall (fun p => 0 < p.2) d -> Forall (fun p => 0 < p.2) (bump k d).
Proof.
  induction 1 as [|[k0 n] d Hn Hd IH]; simpl in *.
  - repeat constructor.
  - destruct (String.eqb k0 k); constructor; simpl; try done; lia.
Qed.

Lemma dict_get_absent (k : string) (d : list (string * Z)) :
  k ∉ d.*1 -> dict_get k d = 0.
Proof.
  induction d as [|[k0 n] d IH]; simpl; [done|].
  intros Hk. destruct (String.eqb_spec k0 k) as [->|Hne]; set_solver.
Qed.

Lemma dict_get_elem_of (k : string) (n : Z) (d : list (string * Z)) :
  NoDup d.*1 -> (k, n) ∈ d <-> k ∈ d.*1 /\ dict_get k d = n.
Proof.
  induction d as [|[k0 m] d IH]; simpl.
  - set_solver.
  - rewrite NoDup_cons. intros [Hk0 Hd]. specialize (IH Hd).
    rewrite !elem_of_cons, IH.
    destruct (String.eqb_spec k0 k) as [->|Hne].
    + split.
      * intros [[= ->]|[Hk _]]; [auto | done].
      * intros [_ ->]. by left.
    + split.
      * intros [[= -> ->]|[Hk Hn]]; [done | auto].
      * intros [[->|Hk] Hn]; [done | auto].
Qed.

(** The dictionary after the counting loop, for the bucket names seen. *)
Lemma counted_spec (types : list string) (d : list (string * Z)) :
  NoDup d.*1 -> Forall (fun p => 0 < p.2) d ->
  let d' := foldl (fun d t => bump t d) d types in
  NoDup d'.*1 /\ Forall (fun p => 0 < p.2) d' /\
  forall k, dict_get k d' = dict_get k d + Z.of_nat (length (filter (fun t => t = k) types)).
Proof.
  revert d. induction types as [|t types IH]; intros d Hnd Hpos; simpl.
  - split_and!; [done..|]. intros k. lia.
  - destruct (IH (bump t d)) as (H1 & H2 & H3);
      [by apply bump_NoDup | by apply bump_positive |].
    split_and!; [done..|]. intros k. rewrite H3, dict_get_bump.
    rewrite filter_cons. repeat case_decide; simpl; try done; lia.
Qed.

Lemma count_errors_foldl (failures : list Attempt) (d : list (string * Z)) :
  Forall (fun f => error f <> ErrNone) failures ->
  count_errors failures d
  = Some (foldl (fun d t => bump t d) d
            (map error_type_of (omap failure_error failures))).
Proof.
  intros Hf. revert d. induction Hf as [|f failures Hf _ IH]; intros d; [done|].
  destruct f as [a s c e q]. simpl in Hf.
  destruct e; [| done |]; csimpl; apply IH.
Qed.

Lemma occurrences_types (bucket : string) (errors : list string) :
  Z.of_nat (length (filter (fun t => t = bucket) (map error_type_of errors)))
  = Spec.occurrences bucket errors.
Proof.
  unfold Spec.occurrences. f_equal.
  induction errors as [|e errors IH]; simpl; [done|].
  rewrite !filter_cons, <- error_type_of_bucket.
  case_decide; simpl; by rewrite IH.
Qed.

(** What [_analyze_failure_patterns] returns when every failure carries an
    error string (or no ["error"] key at all). *)
Lemma analyze_failure_patterns_spec (failures : list Attempt) :
  Forall (fun f => error f <> ErrNone) failures ->
  exists items : list (string * Z),
    _analyze_failure_patterns failures = Some (map pattern_line items)
    /\ NoDup items.*1
    /\ (forall bucket n,
          (bucket, n) ∈ items
          <-> n = Spec.occurrences bucket (omap failure_error failures) /\ 0 < n)
    /\ StronglySorted (fun a b => b.2 <= a.2) items.
Proof.
  intros Hf.
  set (types := map error_type_of (omap failure_error failures)).
  set (d := foldl (fun d t => bump t d) [] types).
  destruct (counted_spec types []) as (Hnd & Hpos & Hget);
    [constructor | constructor |]. fold d in Hnd, Hpos, Hget.
  set (items := filter (fun item : string * Z => 0 < item.2)
                  (PyStr.sorted (fun x : string * Z => - x.2) d)).
  assert (Hperm : PyStr.sorted (fun x : string * Z => - x.2) d ≡ₚ d)
    by apply sorted_perm.
  assert (Hitems : forall p, p ∈ items <-> p ∈ d).
  { intros p. unfold items. rewrite list_elem_of_filter, Hperm.
    rewrite Forall_forall in Hpos. naive_solver. }
  exists items. split_and!.
  - unfold _analyze_failure_patterns.
    rewrite count_errors_foldl by done. fold types d items.
    destruct failures; [|done]. reflexivity.
  - unfold items. eapply sublist_NoDup; [|apply fmap_sublist, sublist_filter].
    by rewrite Hperm.
  - intros bucket n. rewrite Hitems, (dict_get_elem_of _ _ _ Hnd).
    rewrite <- occurrences_types. fold types.
    specialize (Hget bucket). simpl in Hget. split.
    + intros [Hk <-]. split; [lia|].
      apply list_elem_of_fmap in Hk as ([k m] & -> & Hkm). simpl.
      rewrite Forall_forall in Hpos. specialize (Hpos _ Hkm). simpl in Hpos.
      assert ((k, m) ∈ d) as Hkm' by done.
      apply (dict_get_elem_of _ _ _ Hnd) in Hkm' as [_ ->]. done.
    + intros [-> Hn]. split; [|lia].
      destruct (decide (bucket ∈ d.*1)) as [|Hout]; [done|].
      apply dict_get_absent in Hout. lia.
  - unfold items. apply StronglySorted_filter_keep.
    eapply StronglySorted_weaken;
      [|apply (sorted_ascending (fun x : string * Z => - x.2))].
    simpl. intros a b. lia.
Qed.

End FailurePatterns.

Section ReflectProperties.
Import MemoryLearning.

Example reflect_c6_attempts :
  failure_patterns <$> reflect (fun _ _ => "2.0") c6_attempts
  = Some [ "Test failures occurred in 2 attempt(s)";
           "Syntax errors occurred in 1 attempt(s)" ].
Proof. reflexivity. Qed.

(** C6.  When every failed attempt carries an error string (or no error
    key), [reflect] succeeds and its failure patterns are the lines
    "{bucket} occurred in {n} attempt(s)" of a list of pairs [(bucket, n)]
    that holds each bucket at most once, holds [(bucket, n)] exactly when
    [n > 0] failed attempts fall in [bucket] under the case-insensitive
    first-match classification in the order test/pytest, syntax, import,
    type, quality, otherwise Implementation errors, and is sorted by [n]
    descending. *)
Theorem reflect_failure_patterns (format_avg : Z -> nat -> string)
    (all_attempts : list Attempt) :
  let failures := filter (fun a => success a = false) all_attempts in
  Forall (fun f => error f <> ErrNone) failures ->
  exists (derived : Derived) (items : list (string * Z)),
    reflect format_avg all_attempts = Some derived
    /\ failure_patterns derived
       = map (fun item => item.1 ++ " occurred in " ++ PyStr.str_int item.2 ++ " attempt(s)")
           items
    /\ NoDup items.*1
    /\ (forall bucket n,
          (bucket, n) ∈ items
          <-> n = Spec.occurrences bucket (omap failure_error failures) /\ 0 < n)
    /\ StronglySorted (fun a b => b.2 <= a.2) items.
Proof.
  intros failures Hf.
  destruct (analyze_failure_patterns_spec failures Hf) as (items & Heq & Hnd & Hin & Hs).
  eexists _, items. split.
  { unfold reflect. fold failures. rewrite Heq. reflexivity. }
  by split_and!.
Qed.

Lemma reflect_failure_patterns_witness :
  exists (derived : Derived) (items : list (string * Z)),
    reflect (fun _ _ => "2.0") c6_attempts = Some derived
    /\ failure_patterns derived
       = map (fun item => item.1 ++ " occurred in " ++ PyStr.str_int item.2 ++ " attempt(s)")
           items
    /\ NoDup items.*1
    /\ (forall bucket n,
          (bucket, n) ∈ items
          <-> n = Spec.occurrences bucket
                    (omap failure_error (filter (fun a => success a = false) c6_attempts))
              /\ 0 < n)
    /\ StronglySorted (fun a b => b.2 <= a.2) items.
Proof.
  apply (reflect_failure_patterns (fun _ _ => "2.0") c6_attempts).
  repeat constructor; simpl; discriminate.
Defined.

(** ** Recommendations *)

Lemma recommendation_for_none (pattern : string) :
  Spec.matches_table pattern = false -> recommendation_for pattern = [].
Proof.
  unfold Spec.matches_table, recommendation_for. simpl.
  rewrite orb_false_r.
  intros H. repeat (apply orb_false_iff in H as [? H]).
  by repeat match goal with Hc : PyStr.contains _ _ = false |- _ => rewrite Hc; clear Hc end.
Qed.

Lemma no_table_recommendation (patterns : list string) :
  Forall (fun p => Spec.matches_table p = false) patterns ->
  concat (map recommendation_for patterns) = [].
Proof.
  induction 1 as [|p patterns Hp _ IH]; simpl; [done|].
  by rewrite recommendation_for_none, IH.
Qed.

Lemma generate_recommendations_length (patterns factors : list string) :
  (length (_generate_recommendations patterns factors) <= 5)%nat.
Proof. unfold _generate_recommendations. rewrite length_take. lia. Qed.

Lemma generate_recommendations_no_match (patterns factors : list string) :
  Forall (fun p => Spec.matches_table p = false) patterns ->
  _generate_recommendations patterns factors
  = if mentions_persistence factors
    then ["Retry with refined approach when initial attempt fails"]
    else Spec.default_recommendations.
Proof.
  intros H. unfold _generate_recommendations.
  rewrite (no_table_recommendation _ H).
  by destruct (mentions_persistence factors).
Qed.

Lemma persistence_mentioned (format_avg : Z -> nat -> string)
    (successes failures : list Attempt) :
  successes <> [] -> failures <> [] ->
  mentions_persistence (_analyze_success_factors format_avg successes failures) = true.
Proof.
  intros Hs Hf. destruct successes as [|s successes]; [done|].
  destruct failures as [|f failures]; [done|].
  unfold mentions_persistence, _analyze_success_factors.
  rewrite !existsb_app. simpl.
  by rewrite orb_true_r.
Qed.

(** C7 as stated fails: the only failure pattern of [c7_attempts] is
    "Implementation errors ...", which matches no table entry, and the one
    recommendation is the retry advice, not the two defaults.  (The mean
    [1 / 1] prints as [1.0].) *)
Lemma recommendations_not_default :
  let derived := reflect (fun _ _ => "1.0") c7_attempts in
  failure_patterns <$> derived = Some ["Implementation errors occurred in 1 attempt(s)"]
  /\ forallb (fun p => negb (Spec.matches_table p))
       (default [] (failure_patterns <$> derived)) = true
  /\ recommendations <$> derived
     = Some ["Retry with refined approach when initial attempt fails"].
Proof. split_and!; reflexivity. Qed.

(** C7, amended.  The recommendations of [reflect] never exceed 5
    entries.  When no failure pattern matches one of the four table
    entries, they are exactly the two defaults, unless the success factors
    mention "Persistence": then they are exactly the retry advice.  The
    success factors mention it whenever the attempts hold both a failure
    and a success, and never when there is no success. *)
Theorem reflect_recommendations (format_avg : Z -> nat -> string)
    (all_attempts : list Attempt) (derived : Derived) :
  reflect format_avg all_attempts = Some derived ->
  let failures := filter (fun a => success a = false) all_attempts in
  let successes := filter (fun a => success a = true) all_attempts in
  (length (recommendations derived) <= 5)%nat
  /\ (Forall (fun p => Spec.matches_table p = false) (failure_patterns derived) ->
      recommendations derived
      = if mentions_persistence (success_factors derived)
        then ["Retry with refined approach when initial attempt fails"]
        else Spec.default_recommendations)
  /\ (successes <> [] -> failures <> [] ->
      mentions_persistence (success_factors derived) = true)
  /\ (successes = [] -> mentions_persistence (success_factors derived) = false).
Proof.
  intros Hr failures successes. unfold reflect in Hr. fold failures successes in Hr.
  destruct (_analyze_failure_patterns failures) as [patterns|]; [|done].
  injection Hr as <-. simpl. split_and!.
  - apply generate_recommendations_length.
  - apply generate_recommendations_no_match.
  - apply persistence_mentioned.
  - by intros ->.
Qed.

Lemma reflect_recommendations_witness :
  (length ["Retry with refined approach when initial attempt fails"] <= 5)%nat
  /\ (Forall (fun p => Spec.matches_table p = false)
        ["Implementation errors occurred in 1 attempt(s)"] ->
      ["Retry with refined approach when initial attempt fails"]
      = if mentions_persistence
             ["Successful attempts averaged 1.0 file changes";
              "Persistence through failures led to success"]
        then ["Retry with refined approach when initial attempt fails"]
        else Spec.default_recommendations)
  /\ (filter (fun a => success a = true) c7_attempts <> [] ->
      filter (fun a => success a = false) c7_attempts <> [] ->
      mentions_persistence
        ["Successful attempts averaged 1.0 file changes";
         "Persistence through failures led to success"] = true)
  /\ (filter (fun a => success a = true) c7_attempts = [] ->
      mentions_persistence
        ["Successful attempts averaged 1.0 file changes";
         "Persistence through failures led to success"] = false).
Proof.
  exact (reflect_recommendations (fun _ _ => "1.0") c7_attempts _ eq_refl).
Defined.

End ReflectProperties.

(** ** Past learnings *)

Section PastLearnings.
Import MemoryLearning.

Lemma collect_length (results : list QueryResult) :
  (length (collect results) <= length results)%nat.
Proof.
  induction results as [|r results IH]; simpl; [done|].
  destruct (r_artifact r); simpl; lia.
Qed.

(** C8 as stated fails: with the memory service unreachable and the file
    [COPILOT.md] as the client itself initialises it, the answer is not
    empty; it holds the local fallback entry. *)
Lemma unreachable_not_empty :
  query_past_learnings 5 RequestRaises (MdContent copilot_md_initial)
  = [local_learning copilot_md_initial].
Proof. reflexivity. Qed.

(** C8, amended.  When the memory service answers with at most [limit]
    results (it is asked for [top_k = limit]), [query_past_learnings]
    returns at most [limit] results.  When the service is unreachable the
    answer holds no remote result, whatever [limit] is: it is the single
    local fallback entry (type local_memory, score 0.5, the last 2000
    characters of the file) when [COPILOT.md] is readable and not empty
    and [limit > 0], and the empty list otherwise. *)
Theorem query_past_learnings_bounded (limit : Z) (reply : ServiceReply) (md : CopilotMd) :
  (Z.of_nat (length (reply_results reply)) <= limit ->
   Z.of_nat (length (query_past_learnings limit reply md)) <= limit)
  /\ query_past_learnings limit RequestRaises md
     = match md with
       | MdContent local_content =>
           if negb (String.eqb local_content "") && (0 <? limit)
           then [ {| l_content := PyStr.str_last 2000 local_content;
                     l_type := "local_memory";
                     l_score := (1 # 2)%Q;
                     l_story_id := None;
                     l_story_title := None;
                     l_insights := [];
                     l_recommendations := [];
                     l_timestamp := None;
                     l_source := Some "COPILOT.md" |} ]
           else []
       | _ => []
       end.
Proof.
  split; [intros Hlimit|by destruct md].
  unfold query_past_learnings.
  set (learnings := match reply with
                    | RequestRaises => []
                    | Replied status_code results =>
                        if status_code =? 200 then collect results else []
                    end).
  assert (Hl : Z.of_nat (length learnings) <= Z.of_nat (length (reply_results reply))).
  { unfold learnings. destruct reply as [|code results]; simpl; [done|].
    destruct (code =? 200); simpl; [|lia].
    pose proof (collect_length results). lia. }
  destruct md as [| |local_content]; [lia..|].
  destruct (negb (String.eqb local_content "")); simpl; [|lia].
  destruct (Z.of_nat (length learnings) <? limit) eqn:Hlt; [|lia].
  apply Z.ltb_lt in Hlt. rewrite length_app. simpl. lia.
Qed.

Lemma query_past_learnings_bounded_witness :
  Z.of_nat (length (query_past_learnings 2 (Replied 200 [c8_result; c8_result])
                      (MdContent copilot_md_initial))) <= 2
  /\ (l_content <$> query_past_learnings 2 RequestRaises (MdContent accented_md))
     = [accented_md_tail].
Proof.
  destruct (query_past_learnings_bounded 2 (Replied 200 [c8_result; c8_result])
              (MdContent copilot_md_initial)) as [Hbound _].
  destruct (query_past_learnings_bounded 2 RequestRaises (MdContent accented_md))
    as [_ Hlocal].
  split; [apply Hbound; simpl; lia|].
  rewrite Hlocal. by vm_compute.
Defined.

End PastLearnings.

(** ** Session store *)

Section MessageCount.

(** C5 on the Redis-backed store: after three appends to a session capped
    at two messages, the list holds two messages while [message_count]
    says three.  [add_message] trims the list (LTRIM) but increments the
    counter (HINCRBY) on every call. *)
Theorem redis_message_count_drifts :
  exists st,
    redis_add_all "s" ["a"; "b"; "c"] c5_store = Some st
    /\ m_content <$> SessionStorage.get_all_messages "s" st = ["b"; "c"]
    /\ SessionStorage.message_count "s" st = Some 3.
Proof. eexists. split_and!; vm_compute; reflexivity. Qed.

Import InMemorySessionStorage.

Lemma counts_agree_init (n : Z) : counts_agree (init n).
Proof. intros sid s. unfold init. simpl. by rewrite lookup_empty. Qed.

Lemma counts_agree_create_session (session_id : option string) (uuid now : string) (st : t) :
  counts_agree st -> counts_agree (create_session session_id uuid now st).2.
Proof.
  intros Hst sid s. unfold create_session, get_all_messages. simpl.
  destruct (decide (session_id_or session_id uuid = sid)) as [->|Hne].
  - rewrite !lookup_insert_eq. by intros [= <-].
  - rewrite !lookup_insert_ne by done. apply Hst.
Qed.

Lemma counts_agree_add_message (session_id role content : string)
    (metadata : option string) (uuid now : string) (st : t) :
  counts_agree st ->
  counts_agree (add_message session_id role content metadata uuid now st).2.
Proof.
  intros Hst sid s. unfold add_message, get_all_messages. simpl.
  destruct (decide (session_id = sid)) as [->|Hne].
  - rewrite lookup_alter_eq, lookup_insert_eq. simpl.
    destruct (sessions st !! sid); simpl; [|done]. by intros [= <-].
  - rewrite lookup_alter_ne, lookup_insert_ne by done. apply Hst.
Qed.

Lemma counts_agree_call (st : t) (c : StoreCall) :
  counts_agree st -> counts_agree (call st c).
Proof.
  intros Hst. destruct c; simpl.
  - by apply counts_agree_create_session.
  - by apply counts_agree_add_message.
  - exact Hst.
  - intros sid s. unfold save_workflow, get_all_messages. simpl.
    intros [(_ & s0 & Hs0 & ->)|[_ Hs]]%lookup_alter_Some; [|by apply Hst].
    simpl. by apply Hst.
Qed.

(** X1.  In the in-memory store, after any sequence of [create_session],
    [add_message], [set_context] and [save_workflow] calls on a new store,
    every session's [message_count] is the length of its message list,
    whatever the cap (appends past the cap included). *)
Theorem in_memory_message_count (max_messages_per_session : Z) (calls : list StoreCall) :
  counts_agree (foldl call (init max_messages_per_session) calls).
Proof.
  apply (foldl_preserves counts_agree).
  - apply counts_agree_init.
  - intros st c. apply counts_agree_call.
Qed.

End MessageCount.

Section CreateSession.







End CreateSession.

(** ** Realtime bus *)

Section Replay.
Import WebSocketManager.

Variable broken : nat -> bool.

Lemma broadcast_buffer (data : Event) (st : t) :
  message_buffer (broadcast broken data st) = message_buffer st
  /\ buffer_size (broadcast broken data st) = buffer_size st.
Proof.
  unfold broadcast.
  apply (foldl_preserves
           (fun s => message_buffer s = message_buffer st /\ buffer_size s = buffer_size st)).
  - apply (foldl_preserves
             (fun s => message_buffer s = message_buffer st /\ buffer_size s = buffer_size st)).
    + done.
    + intros s c Hs. by destruct (broken c).
  - intros s c Hs. by destruct (broken c).
Qed.

Lemma connect_buffer (websocket : nat) (client_id : string) (st : t) :
  message_buffer (connect broken websocket client_id st) = message_buffer st.
Proof. unfold connect, send_to_client. by destruct (broken websocket). Qed.

Lemma last_n_all {A : Type} (n : nat) (l : list A) :
  (length l <= n)%nat -> Spec.last_n n l = l.
Proof. intros H. unfold Spec.last_n. by replace (length l - n)%nat with 0%nat by lia. Qed.

Lemma last_n_snoc {A : Type} (n : nat) (l : list A) (x : A) :
  (1 <= n)%nat -> Spec.last_n n (Spec.last_n n l ++ [x]) = Spec.last_n n (l ++ [x]).
Proof.
  intros Hn. destruct (decide (length l <= n)%nat) as [Hle|Hgt].
  - by rewrite (last_n_all n l).
  - unfold Spec.last_n. rewrite !length_app, length_drop. simpl.
    replace (length l - (length l - n) + 1 - n)%nat with 1%nat by lia.
    replace (length l + 1 - n)%nat with (S (length l - n)) by lia.
    rewrite <- (drop_app_le l [x]) by lia.
    by rewrite drop_drop, Nat.add_1_r.
Qed.

(** With the buffer size of [__init__], the channel holds the last 50 of
    what it held followed by the new message. *)
Lemma buffer_message_last (channel : string) (message : ChatMessage) (st : t) :
  buffer_size st = 50 ->
  default [] (message_buffer (_buffer_message channel message st) !! channel)
  = Spec.last_n 50 (default [] (message_buffer st !! channel) ++ [message]).
Proof.
  intros Hsize. unfold _buffer_message. simpl. rewrite lookup_insert_eq, Hsize. simpl.
  set (appended := (default [] (message_buffer st !! channel) ++ [message])%list).
  destruct (50 <? Z.of_nat (length appended)) eqn:Hlen.
  - apply Z.ltb_lt in Hlen. unfold PyStr.slice_from, Spec.last_n. simpl.
    f_equal. lia.
  - apply Z.ltb_ge in Hlen. rewrite last_n_all; [done|lia].
Qed.

Lemma broadcast_all_buffer (msgs all : list ChatMessage) (st : t) :
  buffer_size st = 50 ->
  default [] (message_buffer st !! "chat") = Spec.last_n 50 all ->
  buffer_size (broadcast_all broken msgs st) = 50
  /\ default [] (message_buffer (broadcast_all broken msgs st) !! "chat")
     = Spec.last_n 50 (all ++ msgs).
Proof.
  revert all st. induction msgs as [|m msgs IH]; intros all st Hsize Hbuf; simpl.
  - by rewrite app_nil_r.
  - replace (all ++ m :: msgs)%list with ((all ++ [m]) ++ msgs)%list
      by (by rewrite <- app_assoc).
    destruct (broadcast_buffer (ChatMessageEvent m) st) as [Hb Hs].
    apply IH.
    + unfold broadcast_chat_message, _buffer_message. simpl. congruence.
    + unfold broadcast_chat_message. rewrite buffer_message_last by congruence.
      rewrite Hb, Hbuf. apply last_n_snoc. lia.
Qed.

Lemma send_each_received (websocket : nat) (channel : string)
    (msgs : list ChatMessage) (st : t) :
  broken websocket = false ->
  received websocket (send_each broken websocket channel msgs st)
  = (received websocket st ++ map (BufferedMessage channel) msgs)%list.
Proof.
  intros Hok. revert st. induction msgs as [|m msgs IH]; intros st; simpl.
  - by rewrite app_nil_r.
  - rewrite Hok, IH. unfold received, log_sent. simpl.
    rewrite filter_app, map_app, filter_cons. simpl.
    rewrite decide_True by done. by rewrite <- app_assoc.
Qed.

End Replay.

(** C9 as stated fails: the early subscriber received the three chunks,
    nothing was buffered, and the late subscriber's request for the
    buffered events of the channel brings it nothing. *)
Lemma chat_stream_not_replayed :
  WebSocketManager.received 0 c9_state
  = [ WebSocketManager.ConnectionEstablished "early";
      WebSocketManager.ChatStream "S6" "a" false;
      WebSocketManager.ChatStream "S6" "b" false;
      WebSocketManager.ChatStream "S6" "c" true ]
  /\ WebSocketManager.message_buffer c9_state = ∅
  /\ WebSocketManager.received 1
       (WebSocketManager.send_buffered_messages (fun _ => false) 1 "chat:S6" c9_state)
     = [ WebSocketManager.ConnectionEstablished "late" ]
  /\ WebSocketManager.received 1
       (WebSocketManager.send_buffered_messages (fun _ => false) 1 "chat" c9_state)
     = [ WebSocketManager.ConnectionEstablished "late" ].
Proof. split_and!; by vm_compute. Qed.

(** C9, amended.  [broadcast_chat_stream] buffers nothing.  What is
    buffered is what [broadcast_chat_message] broadcasts, on the channel
    "chat": a subscriber whose socket works, connecting after the chat
    messages [msgs] were broadcast and asking for the buffered events of
    "chat", receives exactly the last 50 of them, in broadcast order. *)
Theorem chat_messages_replayed (broken : nat -> bool) (msgs : list WebSocketManager.ChatMessage)
    (websocket : nat) (client_id : string) (st0 : WebSocketManager.t) :
  WebSocketManager.buffer_size st0 = 50 ->
  WebSocketManager.message_buffer st0 !! "chat" = None ->
  broken websocket = false ->
  let st := WebSocketManager.connect broken websocket client_id (WebSocketManager.broadcast_all broken msgs st0) in
  WebSocketManager.received websocket
    (WebSocketManager.send_buffered_messages broken websocket "chat" st)
  = (WebSocketManager.received websocket st
     ++ map (WebSocketManager.BufferedMessage "chat") (Spec.last_n 50 msgs))%list
  /\ forall session_id chunk is_complete s,
       WebSocketManager.message_buffer
         (WebSocketManager.broadcast_chat_stream broken session_id chunk is_complete s)
       = WebSocketManager.message_buffer s.
Proof.
  intros Hsize Hnone Hok st. split.
  - destruct (broadcast_all_buffer broken msgs [] st0 Hsize) as [_ Hbuf].
    { by rewrite Hnone. }
    rewrite app_nil_l in Hbuf.
    unfold WebSocketManager.send_buffered_messages.
    unfold st at 1. rewrite connect_buffer.
    destruct (WebSocketManager.message_buffer (WebSocketManager.broadcast_all broken msgs st0) !! "chat")
      as [buffered|]; simpl in Hbuf.
    + rewrite send_each_received by done. by rewrite Hbuf.
    + by rewrite <- Hbuf, app_nil_r.
  - intros session_id chunk is_complete s.
    apply broadcast_buffer.
Qed.

Lemma chat_messages_replayed_witness :
  let st := WebSocketManager.connect (fun _ => false) 1 "late"
              (WebSocketManager.broadcast_all (fun _ => false) c9_messages WebSocketManager.init) in
  WebSocketManager.received 1
    (WebSocketManager.send_buffered_messages (fun _ => false) 1 "chat" st)
  = (WebSocketManager.received 1 st
     ++ map (WebSocketManager.BufferedMessage "chat") (Spec.last_n 50 c9_messages))%list
  /\ forall session_id chunk is_complete s,
       WebSocketManager.message_buffer
         (WebSocketManager.broadcast_chat_stream (fun _ => false) session_id chunk is_complete s)
       = WebSocketManager.message_buffer s.
Proof.
  apply (chat_messages_replayed (fun _ => false) c9_messages 1 "late" WebSocketManager.init);
    reflexivity.
Defined.

(** ** Agent roles *)

Section CreateAgent.
Import AgentManager.

Lemma unknown_role_value (value : string) :
  value ∉ Spec.role_values -> AgentRole_of_value value = None.
Proof.
  unfold Spec.role_values, AgentRole_of_value. intros Hv.
  repeat match goal with
         | |- context [String.eqb value ?k] =>
             destruct (String.eqb_spec value k) as [->|_]; [set_solver|]
         end.
  reflexivity.
Qed.

Lemma unknown_role_template (value : string) :
  value ∉ Spec.role_values -> templates !! value = None.
Proof.
  unfold Spec.role_values, templates. intros Hv.
  rewrite !lookup_insert_ne by set_solver. apply lookup_empty.
Qed.

(** C10 as stated fails: "Code" is a string outside the set of role
    values, yet the agent gets the code role and the code template's
    prompt, because the role is lower-cased before it is looked up. *)
Lemma capitalised_role_kept :
  ("Code" ∉ Spec.role_values)
  /\ (agent_role
        <$> created (create_agent "a1" "Code" None None None None true "id-1" None
                       (init "deepseek-r1:14b")))
     = Some CODE
  /\ (agent_system_prompt
        <$> created (create_agent "a1" "Code" None None None None true "id-1" None
                       (init "deepseek-r1:14b")))
     = (t_system_prompt <$> templates !! "code").
Proof. split_and!; [|by vm_compute..]. unfold Spec.role_values. set_solver. Qed.

(** C10, amended.  For a free name and every role string whose lower-cased
    form is outside the closed set of role values, [create_agent] creates
    and registers the agent with the research role; its prompt is the
    explicit [system_prompt] when one is given (and not empty), otherwise
    "You are a {role} agent."; no template applies. *)
Theorem create_agent_unknown_role (name role : string)
    (system_prompt model_arg : option string) (capabilities : option (list string))
    (parent_id : option string) (use_template : bool) (uuid : string)
    (openclaw_session : option string) (st : t) :
  agent_by_name st !! name = None ->
  PyStr.lower role ∉ Spec.role_values ->
  exists agent st',
    create_agent name role system_prompt model_arg capabilities parent_id use_template
      uuid openclaw_session st = Ok (agent, st')
    /\ agent_role agent = RESEARCH
    /\ agent_system_prompt agent = str_or system_prompt ("You are a " ++ role ++ " agent.")
    /\ agent_capabilities agent = list_or capabilities []
    /\ agents st' !! uuid = Some agent
    /\ agent_by_name st' !! name = Some uuid.
Proof.
  intros Hname Hrole. unfold create_agent.
  rewrite Hname, bool_decide_false by (by intros [? ?]).
  rewrite (unknown_role_value _ Hrole).
  assert ((if use_template then templates !! PyStr.lower role else None) = None) as ->.
  { destruct use_template; [by apply unknown_role_template|done]. }
  eexists _, _. split; [reflexivity|]. simpl.
  by rewrite !lookup_insert_eq.
Qed.

Lemma create_agent_unknown_role_witness :
  exists agent st',
    create_agent "planner-1" "Planner" None None None (Some "ralph-loop") true
      "id-1" None (init "deepseek-r1:14b") = Ok (agent, st')
    /\ agent_role agent = RESEARCH
    /\ agent_system_prompt agent = str_or None ("You are a " ++ "Planner" ++ " agent.")
    /\ agent_capabilities agent = list_or None []
    /\ agents st' !! "id-1" = Some agent
    /\ agent_by_name st' !! "planner-1" = Some "id-1".
Proof.
  apply (create_agent_unknown_role "planner-1" "Planner" None None None (Some "ralph-loop")
           true "id-1" None (init "deepseek-r1:14b")).
  - reflexivity.
  - unfold Spec.role_values. simpl. set_solver.
Defined.

End CreateAgent.

(** ** Ralph loop: the quality gate *)

Section QualityGate.
Import MemoryLearning RalphLoop.

Lemma run_quality_checks_passed (pytest ruff mypy : ProcOutcome) :
  qr_passed (_run_quality_checks pytest ruff mypy) = true
  /\ qr_errors (_run_quality_checks pytest ruff mypy) = [].
Proof.
  unfold _run_quality_checks.
  destruct pytest, ruff, mypy; simpl; done.
Qed.

Lemma failed_check_recorded (pytest ruff mypy : ProcOutcome) (name : string)
    (tool : ProcOutcome) (returncode : Z) (stdout stderr : string) :
  (name, tool) ∈ [("pytest", pytest); ("ruff", ruff); ("mypy", mypy)] ->
  tool = ProcExited returncode stdout stderr ->
  returncode <> 0 ->
  exists check,
    check ∈ qr_checks (_run_quality_checks pytest ruff mypy)
    /\ qc_name check = name /\ qc_passed check = false.
Proof.
  intros Hin Htool Hrc. subst tool. apply Z.eqb_neq in Hrc.
  unfold _run_quality_checks.
  rewrite !elem_of_cons in Hin.
  destruct Hin as [[= -> <-]|[[= -> <-]|[[= -> <-]|Hin]]]; [| | |by apply elem_of_nil in Hin].
  - eexists {| qc_name := "pytest"; qc_passed := false |}.
    destruct ruff, mypy; simpl; rewrite Hrc; split_and!; try done;
      rewrite ?elem_of_app, ?elem_of_cons; eauto.
  - eexists {| qc_name := "ruff"; qc_passed := false |}.
    destruct pytest, mypy; simpl; rewrite Hrc; split_and!; try done;
      rewrite ?elem_of_app, ?elem_of_cons; eauto 6.
  - eexists {| qc_name := "mypy"; qc_passed := false |}.
    destruct pytest, ruff; simpl; rewrite Hrc; split_and!; try done;
      rewrite ?elem_of_app, ?elem_of_cons; eauto 6.
Qed.

(** C2.  In an attempt whose code generation succeeded and applied at
    least one change, the attempt succeeds whatever pytest, the linter
    and the type checker do; the gate itself always passes, with no hard
    error recorded; and each of the three tools that exits non-zero is in
    the attempt's [quality_checks] with [passed = false]. *)
Theorem quality_gate_non_blocking (e : IterEnv) :
  impl_raises e = None ->
  g_success (generation e) = true ->
  changes e <> 0 ->
  let gate := _run_quality_checks (pytest e) (ruff e) (mypy e) in
  (_implement_story e).1 = true
  /\ ad_error (_implement_story e).2 = None
  /\ ad_quality_checks (_implement_story e).2 = qr_checks gate
  /\ qr_passed gate = true
  /\ qr_errors gate = []
  /\ forall name tool returncode stdout stderr,
       (name, tool) ∈ [("pytest", pytest e); ("ruff", ruff e); ("mypy", mypy e)] ->
       tool = ProcExited returncode stdout stderr ->
       returncode <> 0 ->
       exists check,
         check ∈ ad_quality_checks (_implement_story e).2
         /\ qc_name check = name /\ qc_passed check = false.
Proof.
  intros Hraise Hgen Hchanges gate.
  destruct (run_quality_checks_passed (pytest e) (ruff e) (mypy e)) as [Hp He].
  assert (Hstory : _implement_story e
                   = (true, {| ad_changes_made := changes e; ad_error := None;
                               ad_quality_checks := qr_checks gate;
                               ad_code_generated := g_code (generation e);
                               ad_files_modified := g_files (generation e) |})).
  { unfold _implement_story. apply Z.eqb_neq in Hchanges.
    rewrite Hraise, Hgen, Hchanges, Hp. reflexivity. }
  rewrite Hstory. simpl. split_and!; try done.
  intros name tool rc out err Hin Htool Hrc.
  by eapply failed_check_recorded.
Qed.

Example implement_story_c2 :
  _implement_story c2_env
  = (true,
     {| ad_changes_made := 1; ad_error := None;
        ad_quality_checks :=
          [ {| qc_name := "pytest"; qc_passed := false; qc_output := "1 failed" |};
            {| qc_name := "ruff"; qc_passed := false; qc_output := "E501 line too long" |} ];
        ad_code_generated := Some "code"; ad_files_modified := [] |}).
Proof. reflexivity. Qed.

Lemma quality_gate_non_blocking_witness :
  let gate := _run_quality_checks (pytest c2_env) (ruff c2_env) (mypy c2_env) in
  (_implement_story c2_env).1 = true
  /\ ad_error (_implement_story c2_env).2 = None
  /\ ad_quality_checks (_implement_story c2_env).2 = qr_checks gate
  /\ qr_passed gate = true
  /\ qr_errors gate = []
  /\ forall name tool returncode stdout stderr,
       (name, tool) ∈ [("pytest", pytest c2_env); ("ruff", ruff c2_env);
                        ("mypy", mypy c2_env)] ->
       tool = ProcExited returncode stdout stderr ->
       returncode <> 0 ->
       exists check,
         check ∈ ad_quality_checks (_implement_story c2_env).2
         /\ qc_name check = name /\ qc_passed check = false.
Proof.
  apply (quality_gate_non_blocking c2_env); [reflexivity | reflexivity | discriminate].
Defined.

End QualityGate.

(** ** Ralph loop: retries, statuses, reflections *)

Section PickStory.
Import RalphLoop.

Lemma sorted_nil_inv {A : Type} (key : A -> Z) (l : list A) :
  PyStr.sorted key l = [] -> l = [].
Proof.
  intros H. apply Permutation_nil_r. rewrite <- H. symmetry. apply sorted_perm.
Qed.

(** The story picked is an open story of the PRD, at the position given. *)
Lemma get_next_story_Some (stories : list UserStory) (i : nat) (story : UserStory) :
  get_next_story stories = Some (i, story) ->
  stories !! i = Some story /\ is_terminal (us_status story) = false.
Proof.
  unfold get_next_story. intros Hhead.
  apply head_Some_elem_of in Hhead. rewrite sorted_perm in Hhead.
  apply list_elem_of_filter in Hhead as [Hopen Hin]. simpl in Hopen.
  apply elem_of_lookup_imap in Hin as (j & y & [= -> ->] & Hj). done.
Qed.

(** No story is picked only when every story is closed. *)
Lemma get_next_story_None (stories : list UserStory) :
  get_next_story stories = None ->
  Forall (fun s => is_terminal (us_status s) = true) stories.
Proof.
  unfold get_next_story. intros Hhead.
  apply head_None in Hhead. apply sorted_nil_inv in Hhead.
  apply Forall_lookup. intros i s Hi.
  destruct (is_terminal (us_status s)) eqn:Hs; [done|].
  assert ((i, s) ∈ filter (fun p : nat * UserStory => is_terminal (us_status p.2) = false)
                     (imap pair stories)) as Hin.
  { apply list_elem_of_filter. split; [done|].
    apply elem_of_lookup_imap. eauto. }
  rewrite Hhead in Hin. by apply elem_of_nil in Hin.
Qed.

Lemma filter_length_insert {A : Type} (P : A -> Prop) `{forall x, Decision (P x)}
    (l : list A) (i : nat) (old new : A) :
  l !! i = Some old ->
  (length (filter P (<[i := new]> l)) + (if decide (P old) then 1 else 0)
   = length (filter P l) + (if decide (P new) then 1 else 0))%nat.
Proof.
  revert i. induction l as [|x l IH]; intros [|i] Hi; simpl in *; try done.
  - injection Hi as ->. rewrite !filter_cons.
    destruct (decide (P old)), (decide (P new)); simpl; lia.
  - rewrite !filter_cons. specialize (IH i Hi).
    destruct (decide (P x)); simpl; lia.
Qed.

Lemma open_stories_insert (stories : list UserStory) (i : nat) (old new : UserStory) :
  stories !! i = Some old ->
  (open_stories (<[i := new]> stories) + (if is_terminal (us_status old) then 0 else 1)
   = open_stories stories + (if is_terminal (us_status new) then 0 else 1))%nat.
Proof.
  intros Hi. unfold open_stories.
  pose proof (filter_length_insert
                (fun s => is_terminal (us_status s) = false) stories i old new Hi) as Hcount.
  simpl in Hcount. revert Hcount.
  destruct (is_terminal (us_status old)), (is_terminal (us_status new));
    repeat case_decide; try done; lia.
Qed.

End PickStory.

Section LoopProperties.
Import MemoryLearning RalphLoop.

Variable cfg : Config.
Variable env : Z -> IterEnv.

(** What an attempt does to the loop object, as far as retries and
    statuses go. *)
Lemma attempt_story_effect (i : nat) (story : UserStory) (st : State) :
  exists story',
    stories (attempt_story cfg env i story st) = <[i := story']> (stories st)
    /\ us_attempts story' = us_attempts story + 1
    /\ (us_status story' = IN_PROGRESS \/ us_status story' = COMPLETED)
    /\ iteration (attempt_story cfg env i story st) = iteration st + 1
    /\ running (attempt_story cfg env i story st)
       = running st && negb (stop_called (env (iteration st + 1))).
Proof.
  unfold attempt_story.
  destruct (_implement_story (env (iteration st + 1))) as [[|] data];
    destruct (save_raises (env (iteration st + 1)));
    eexists; simpl; split_and!; try reflexivity; auto.
Qed.

Lemma loop_within_budget (fuel : nat) (st st' : State) :
  loop cfg env fuel st = Some st' ->
  Forall (within_budget cfg) (stories st) ->
  Forall (within_budget cfg) (stories st').
Proof.
  revert st. induction fuel as [|fuel IH]; intros st Hloop Hst; simpl in Hloop; [done|].
  destruct (running st && (iteration st <? max_iterations cfg)); [|by injection Hloop as <-].
  destruct (get_next_story (stories st)) as [[i story]|] eqn:Hnext;
    [|by injection Hloop as <-].
  destruct (get_next_story_Some _ _ _ Hnext) as [Hi _].
  destruct (max_retries_per_story cfg <=? us_attempts story) eqn:Hretries.
  - apply (IH _ Hloop). simpl. apply Forall_insert; [done|].
    exact (proj1 (Forall_lookup _ _) Hst i story Hi).
  - apply (IH _ Hloop).
    destruct (attempt_story_effect i story st) as (story' & -> & Hatt & _).
    apply Forall_insert; [done|].
    apply Z.leb_gt in Hretries. unfold within_budget. lia.
Qed.

Lemma loop_closes_stories (fuel : nat) (st st' : State) :
  loop cfg env fuel st = Some st' ->
  running st = true ->
  (forall i, stop_called (env i) = false) ->
  iteration st' < max_iterations cfg ->
  Forall (fun s => is_terminal (us_status s) = true) (stories st').
Proof.
  intros Hloop Hrun Hstop. revert st Hloop Hrun.
  induction fuel as [|fuel IH]; intros st Hloop Hrun Hit; simpl in Hloop; [done|].
  rewrite Hrun in Hloop. simpl in Hloop.
  destruct (iteration st <? max_iterations cfg) eqn:Hlt.
  - destruct (get_next_story (stories st)) as [[i story]|] eqn:Hnext.
    + destruct (max_retries_per_story cfg <=? us_attempts story).
      * by apply (IH _ Hloop).
      * apply (IH _ Hloop); [|done].
        destruct (attempt_story_effect i story st) as (_ & _ & _ & _ & _ & ->).
        by rewrite Hrun, Hstop.
    + injection Hloop as <-. by apply get_next_story_None.
  - injection Hloop as <-. apply Z.ltb_ge in Hlt. lia.
Qed.

(** The loop ends: every pass uses up one of the passes left. *)
Lemma loop_returns (fuel : nat) (st : State) :
  (passes_left cfg st < fuel)%nat -> exists st', loop cfg env fuel st = Some st'.
Proof.
  revert st. induction fuel as [|fuel IH]; intros st Hfuel; [lia|]. simpl.
  destruct (running st && (iteration st <? max_iterations cfg)) eqn:Hcond; [|eauto].
  apply andb_true_iff in Hcond as [_ Hlt]. apply Z.ltb_lt in Hlt.
  destruct (get_next_story (stories st)) as [[i story]|] eqn:Hnext; [|eauto].
  destruct (get_next_story_Some _ _ _ Hnext) as [Hi Hopen].
  unfold passes_left in Hfuel.
  destruct (max_retries_per_story cfg <=? us_attempts story).
  - apply IH. unfold passes_left. simpl.
    pose proof (open_stories_insert _ i story (set_status FAILED story) Hi) as Hcount.
    rewrite Hopen in Hcount. simpl in Hcount. lia.
  - apply IH. unfold passes_left.
    destruct (attempt_story_effect i story st) as (story' & -> & _ & Hstatus & -> & _).
    pose proof (open_stories_insert _ i story story' Hi) as Hcount.
    rewrite Hopen in Hcount.
    destruct (is_terminal (us_status story')); lia.
Qed.

(** C3, amended.  [run] returns.  When it has returned, every story is
    within the retry budget provided every story of the PRD was when the
    run started; and every story is completed, failed or skipped provided
    [stop()] was not called and the run ended below its iteration budget,
    that is, because no open story was left. *)
Theorem run_finished_stories (prd : list UserStory) :
  exists st summary,
    run cfg env prd = Some (st, summary)
    /\ (Forall (fun s => us_attempts s <= max_retries_per_story cfg) prd ->
        Forall (fun s => us_attempts s <= max_retries_per_story cfg) (stories st))
    /\ ((forall i, stop_called (env i) = false) ->
        iteration st < max_iterations cfg ->
        Forall (fun s => us_status s = COMPLETED \/ us_status s = FAILED
                         \/ us_status s = SKIPPED) (stories st)).
Proof.
  unfold run.
  destruct (loop_returns (S (passes_left cfg (start (init prd)))) (start (init prd)))
    as [st Hloop]; [lia|].
  rewrite Hloop. eexists _, _. split; [reflexivity|]. simpl. split.
  - intros Hprd. by apply (loop_within_budget _ _ _ Hloop).
  - intros Hstop Hit.
    eapply Forall_impl; [by apply (loop_closes_stories _ _ _ Hloop)|].
    simpl. intros s Hs. destruct (us_status s); auto; discriminate.
Qed.

End LoopProperties.

Section Scenarios.
Import MemoryLearning RalphLoop.

(** C1 on scenario S3: the story exhausts its three retries and ends
    failed, three diary entries were written, the summary says partial,
    and no reflection was produced: the branch that marks the story failed
    never calls [_reflect_on_story], which itself always passes
    [final_success = True]. *)
Theorem exhausted_story_not_reflected :
  exists st summary,
    run s3_cfg no_artifact_env one_story_prd = Some (st, summary)
    /\ map us_status (stories st) = [FAILED]
    /\ map us_attempts (stories st) = [3]
    /\ map d_attempt_number (diary st) = [1; 2; 3]
    /\ sum_status summary = "partial"
    /\ reflections st = [].
Proof. eexists _, _. split_and!; by vm_compute. Qed.

(** C3 as stated fails: with an iteration budget of one, the run returns
    after the first failed attempt and leaves the story in progress; with
    a budget of zero the story is not even started. *)
Lemma budget_leaves_story_open :
  (map us_status ∘ stories ∘ fst
     <$> run {| max_iterations := 1; max_retries_per_story := 3; memory_client := true |}
           no_artifact_env one_story_prd)
  = Some [IN_PROGRESS]
  /\ (map us_status ∘ stories ∘ fst
        <$> run {| max_iterations := 0; max_retries_per_story := 3; memory_client := true |}
              no_artifact_env one_story_prd)
     = Some [NOT_STARTED].
Proof. split; by vm_compute. Qed.

End Scenarios.

Section Reflections.
Import MemoryLearning RalphLoop.

Variable cfg : Config.
Variable env : Z -> IterEnv.

(** What an attempt does to the reflections: a successful attempt closes
    the story as completed and, when the memory client is there and
    [reflect] returns, logs one reflection with [final_success = true];
    a failed attempt logs none. *)
Lemma attempt_story_reflections (i : nat) (story : UserStory) (st : State) :
  let e := env (iteration st + 1) in
  let st' := attempt_story cfg env i story st in
  exists story',
    stories st' = <[i := story']> (stories st)
    /\ ((us_status story' = COMPLETED
         /\ exists r, rf_final_success r = true
                      /\ reflections st'
                         = if memory_client cfg && reflect_ok e
                           then (reflections st ++ [r])%list
                           else reflections st)
        \/ (us_status story' = IN_PROGRESS /\ reflections st' = reflections st)).
Proof.
  intros e st'. unfold st', attempt_story. fold e.
  destruct (_implement_story e) as [[|] data];
    destruct (save_raises e); eexists; simpl; (split; [reflexivity|]).
  1,2: left; split; [done|]; eexists; split; [|reflexivity]; done.
  1,2: right; done.
Qed.

Lemma completed_count_insert (stories : list UserStory) (i : nat) (old new : UserStory) :
  stories !! i = Some old ->
  us_status old <> COMPLETED ->
  completed_count (<[i := new]> stories)
  = (completed_count stories + (if decide (us_status new = COMPLETED) then 1 else 0))%nat.
Proof.
  intros Hi Hold. unfold completed_count, get_completed_stories.
  pose proof (filter_length_insert (fun s => us_status s = COMPLETED)
                stories i old new Hi) as Hins.
  cbv beta in Hins. destruct (decide (us_status old = COMPLETED)); [done|]. lia.
Qed.

Lemma loop_reflections (fuel : nat) (st st' : State) :
  loop cfg env fuel st = Some st' ->
  memory_client cfg = true ->
  (forall i, reflect_ok (env i) = true) ->
  Forall (fun r => rf_final_success r = true) (reflections st) ->
  length (reflections st) = completed_count (stories st) ->
  Forall (fun r => rf_final_success r = true) (reflections st')
  /\ length (reflections st') = completed_count (stories st').
Proof.
  intros Hloop Hclient Hok. revert st Hloop.
  induction fuel as [|fuel IH]; intros st Hloop Hall Hcount; simpl in Hloop; [done|].
  destruct (running st && (iteration st <? max_iterations cfg));
    [|by injection Hloop as <-].
  destruct (get_next_story (stories st)) as [[i story]|] eqn:Hnext;
    [|by injection Hloop as <-].
  destruct (get_next_story_Some _ _ _ Hnext) as [Hi Hopen].
  assert (Hnot : us_status story <> COMPLETED) by (by intros Hc; rewrite Hc in Hopen).
  destruct (max_retries_per_story cfg <=? us_attempts story).
  - apply (IH _ Hloop); [done|]. simpl.
    rewrite (completed_count_insert _ _ _ _ Hi Hnot). simpl. lia.
  - destruct (attempt_story_reflections i story st)
      as (story' & Hstories & [(Hdone & r & Hr & Hrefl)|(Hprog & Hrefl)]).
    + rewrite Hclient, Hok in Hrefl. simpl in Hrefl.
      apply (IH _ Hloop).
      * rewrite Hrefl. apply Forall_app. split; [done|]. by constructor.
      * rewrite Hrefl, Hstories, length_app. simpl.
        rewrite (completed_count_insert _ _ _ _ Hi Hnot), decide_True by done. lia.
    + apply (IH _ Hloop); [by rewrite Hrefl|].
      rewrite Hrefl, Hstories.
      rewrite (completed_count_insert _ _ _ _ Hi Hnot), decide_False; [lia|].
      by rewrite Hprog.
Qed.

(** X2.  With a working memory client, a run on a PRD with no completed story
    produces as many reflections as it completes stories, each with
    [final_success = true]. *)
Theorem run_reflects_completed (prd : list UserStory) (st : State) (summary : Summary) :
  run cfg env prd = Some (st, summary) ->
  memory_client cfg = true ->
  (forall i, reflect_ok (env i) = true) ->
  Forall (fun s => us_status s <> COMPLETED) prd ->
  length (reflections st) = length (get_completed_stories (stories st))
  /\ Forall (fun r => rf_final_success r = true) (reflections st).
Proof.
  unfold run. intros Hrun Hclient Hok Hprd.
  destruct (loop cfg env (S (passes_left cfg (start (init prd)))) (start (init prd)))
    as [st1|] eqn:Hloop; [|done].
  injection Hrun as <- _. simpl.
  destruct (loop_reflections _ _ _ Hloop Hclient Hok) as [Hall Hcount].
  - constructor.
  - simpl. unfold completed_count, get_completed_stories.
    symmetry. apply length_zero_iff_nil. clear Hloop.
    induction Hprd as [|s prd Hs _ IH]; [done|].
    rewrite filter_cons, decide_False by done. exact IH.
  - done.
Qed.

(** X3.  With an empty PRD the run ends at once: no iteration, status
    "completed". *)
Theorem run_empty_prd :
  exists st summary,
    run cfg env [] = Some (st, summary)
    /\ sum_status summary = "completed"
    /\ sum_iterations summary = 0
    /\ sum_total summary = 0%nat
    /\ diary st = [] /\ reflections st = [].
Proof.
  unfold run. simpl.
  destruct (0 <? max_iterations cfg); eexists _, _; (split; [reflexivity|]);
    by vm_compute.
Qed.

End Reflections.

Lemma run_reflects_completed_witness :
  exists st summary,
    RalphLoop.run s3_cfg one_file_env one_story_prd = Some (st, summary)
    /\ map RalphLoop.us_status (RalphLoop.stories st) = [RalphLoop.COMPLETED]
    /\ length (RalphLoop.reflections st)
       = length (RalphLoop.get_completed_stories (RalphLoop.stories st))
    /\ Forall (fun r => RalphLoop.rf_final_success r = true) (RalphLoop.reflections st).
Proof.
  pose proof (run_reflects_completed s3_cfg one_file_env one_story_prd) as H.
  destruct (RalphLoop.run s3_cfg one_file_env one_story_prd) as [[st summary]|] eqn:Hrun;
    [|vm_compute in Hrun; discriminate].
  exists st, summary. split; [reflexivity|]. split.
  - vm_compute in Hrun. by injection Hrun as <- _.
  - apply (H st summary); [reflexivity | reflexivity | reflexivity |].
    repeat constructor. discriminate.
Defined.

(** ** Ralph loop: which story is picked *)

Section NextStory.
Import RalphLoop.

Lemma head_insert_sorted {A : Type} (key : A -> Z) (x : A) (l : list A) :
  head (PyStr.insert_sorted key x l)
  = Some (match head l with
          | Some y => if key x <=? key y then x else y
          | None => x
          end).
Proof. destruct l as [|y l]; simpl; [done|]. by destruct (key x <=? key y). Qed.

(** The head of a stable sort is the first of the elements with the least
    key. *)
Lemma head_sorted_first_least {A : Type} (key : A -> Z) (l : list A) (m : A) :
  head (PyStr.sorted key l) = Some m ->
  exists l1 l2,
    l = (l1 ++ m :: l2)%list
    /\ Forall (fun y => key m < key y) l1
    /\ Forall (fun y => key m <= key y) l2.
Proof.
  revert m. induction l as [|x l IH]; intros m; simpl; [done|].
  rewrite head_insert_sorted.
  destruct (head (PyStr.sorted key l)) as [y|] eqn:Hhead.
  - destruct (IH y eq_refl) as (l1 & l2 & -> & H1 & H2).
    destruct (key x <=? key y) eqn:Hxy; intros [= <-].
    + apply Z.leb_le in Hxy. exists [], (l1 ++ y :: l2)%list.
      split_and!; [done | constructor |].
      apply Forall_app. split.
      * eapply Forall_impl; [exact H1|]. simpl. lia.
      * constructor; [lia|]. eapply Forall_impl; [exact H2|]. simpl. lia.
    + apply Z.leb_gt in Hxy. exists (x :: l1), l2.
      split_and!; [done | by constructor | done].
  - apply head_None, sorted_nil_inv in Hhead as ->. intros [= <-].
    exists [], []. split_and!; [done | constructor | constructor].
Qed.

Lemma StronglySorted_app_tail {A : Type} (R : relation A) (l1 l2 : list A) :
  StronglySorted R (l1 ++ l2) -> StronglySorted R l2.
Proof. induction l1 as [|x l1 IH]; simpl; [done|]. inversion 1; auto. Qed.

Lemma imap_pair_sorted {A : Type} (k : nat) (l : list A) :
  StronglySorted (fun p q : nat * A => (p.1 < q.1)%nat)
    (imap (fun i x => ((k + i)%nat, x)) l).
Proof.
  revert k. induction l as [|x l IH]; intros k; simpl; [constructor|].
  constructor.
  - erewrite imap_ext; [apply (IH (S k))|]. intros i y _. simpl. f_equal. lia.
  - apply Forall_forall. intros [j y] (i & z & [= -> ->] & _)%elem_of_lookup_imap.
    simpl. lia.
Qed.

(** X4.  [get_next_story] picks an open story of least priority number, and
    among those the one that comes first in the PRD: every open story has a
    priority number at least as large, and every open story before the one
    picked has a strictly larger one. *)
Theorem get_next_story_least_priority (stories : list UserStory) (i : nat)
    (story : UserStory) :
  get_next_story stories = Some (i, story) ->
  stories !! i = Some story
  /\ is_terminal (us_status story) = false
  /\ forall j other,
       stories !! j = Some other ->
       is_terminal (us_status other) = false ->
       us_priority story <= us_priority other
       /\ ((j < i)%nat -> us_priority story < us_priority other).
Proof.
  intros Hnext. destruct (get_next_story_Some _ _ _ Hnext) as [Hi Hopen].
  split_and!; [done..|]. intros j other Hj Hother.
  unfold get_next_story in Hnext.
  apply head_sorted_first_least in Hnext as (l1 & l2 & Hsplit & H1 & H2).
  assert (Hsorted : StronglySorted (fun p q : nat * UserStory => (p.1 < q.1)%nat)
                      (l1 ++ (i, story) :: l2)).
  { rewrite <- Hsplit. apply StronglySorted_filter_keep. apply (imap_pair_sorted 0). }
  assert (Hin : (j, other) ∈ (l1 ++ (i, story) :: l2)%list).
  { rewrite <- Hsplit. apply list_elem_of_filter. split; [done|].
    apply elem_of_lookup_imap. eauto. }
  apply StronglySorted_app_tail in Hsorted. inversion_clear Hsorted as [|? ? _ Hafter].
  rewrite Forall_forall in H1, H2, Hafter.
  apply elem_of_app in Hin as [Hin|Hin].
  - specialize (H1 _ Hin). simpl in H1. lia.
  - apply elem_of_cons in Hin as [[= -> ->]|Hin]; [lia|].
    specialize (H2 _ Hin). specialize (Hafter _ Hin). simpl in *. lia.
Qed.

End NextStory.

Lemma get_next_story_least_priority_witness :
  RalphLoop.get_next_story tie_prd
  = Some (2%nat, RalphLoop.new_story "US-003" "First of two" "d" [] 2)
  /\ forall j other,
       tie_prd !! j = Some other ->
       RalphLoop.is_terminal (RalphLoop.us_status other) = false ->
       2 <= RalphLoop.us_priority other
       /\ ((j < 2)%nat -> 2 < RalphLoop.us_priority other).
Proof.
  split; [reflexivity|].
  apply (get_next_story_least_priority tie_prd 2
           (RalphLoop.new_story "US-003" "First of two" "d" [] 2)).
  reflexivity.
Defined.

(** ** Ralph loop: what a run adds up to *)

Section Accounting.
Import MemoryLearning RalphLoop.

Variable cfg : Config.
Variable env : Z -> IterEnv.

Lemma total_attempts_insert (m : gmap string (list Attempt)) (k : string) (a : Attempt) :
  map_fold (fun _ l n => (length l + n)%nat) 0%nat
    (<[k := (default [] (m !! k) ++ [a])%list]> m)
  = S (map_fold (fun (_ : string) (l : list Attempt) n => (length l + n)%nat) 0%nat m).
Proof.
  destruct (m !! k) as [l|] eqn:Hk; simpl.
  - rewrite <- insert_delete_eq.
    rewrite map_fold_insert_L; [|intros; lia|apply lookup_delete_eq].
    rewrite (map_fold_delete_L _ _ k l m); [|intros; lia|done].
    rewrite length_app. simpl. lia.
  - rewrite map_fold_insert_L; [|intros; lia|done]. simpl. lia.
Qed.


(** What one attempt adds to the counters of the loop object. *)
Lemma attempt_story_accounting (i : nat) (story : UserStory) (st : State) :
  let e := env (iteration st + 1) in
  let st' := attempt_story cfg env i story st in
  iteration st' = iteration st + 1
  /\ sum_total_attempts (_generate_summary st')
     = S (sum_total_attempts (_generate_summary st))
  /\ length (diary st')
     = (length (diary st) + (if memory_client cfg && diary_ok e then 1 else 0))%nat
  /\ (memory_client cfg = false -> reflections st' = reflections st)
  /\ exists story',
       stories st' = <[i := story']> (stories st)
       /\ us_attempts story' = us_attempts story + 1
       /\ ((us_status story' = COMPLETED /\ is_Some (us_completed_at story'))
           \/ us_status story' = IN_PROGRESS).
Proof.
  intros e st'. unfold st', attempt_story. fold e.
  destruct (_implement_story e) as [ok data]. simpl.
  split_and!.
  - done.
  - apply total_attempts_insert.
  - destruct (memory_client cfg && diary_ok e); [|simpl; lia].
    rewrite length_app. simpl. lia.
  - intros ->. by rewrite andb_false_r.
  - destruct ok, (save_raises e); eexists; (split; [reflexivity|]); simpl; eauto.
Qed.



(** The loop does not go past an iteration during which [stop()] was
    called. *)
Lemma loop_stops (fuel : nat) (k : Z) (st st' : State) :
  loop cfg env fuel st = Some st' ->
  stop_called (env k) = true ->
  iteration st < k \/ (iteration st = k /\ running st = false) ->
  iteration st' <= k.
Proof.
  intros Hloop Hstop. revert st Hloop.
  induction fuel as [|fuel IH]; intros st Hloop Hinv; simpl in Hloop; [done|].
  destruct (running st) eqn:Hrun; simpl in Hloop;
    [|injection Hloop as <-; lia].
  destruct Hinv as [Hlt|[_ ?]]; [|done].
  destruct (iteration st <? max_iterations cfg); [|injection Hloop as <-; lia].
  destruct (get_next_story (stories st)) as [[i story]|] eqn:Hnext;
    [|injection Hloop as <-; lia].
  destruct (max_retries_per_story cfg <=? us_attempts story).
  - apply (IH _ Hloop). simpl. by left.
  - apply (IH _ Hloop).
    destruct (attempt_story_effect cfg env i story st) as (_ & _ & _ & _ & -> & ->).
    destruct (decide (iteration st + 1 = k)) as [Heq|Hne].
    + right. split; [done|]. by rewrite Heq, Hstop, andb_false_r.
    + left. lia.
Qed.

(** X6.  [stop()] ends the run: when [stop()] is called while iteration [k]
    runs, the run makes no iteration after it. *)
Theorem stop_ends_run (prd : list UserStory) (k : Z) (st : State) (summary : Summary) :
  run cfg env prd = Some (st, summary) ->
  1 <= k ->
  stop_called (env k) = true ->
  sum_iterations summary <= k /\ iteration st <= k /\ running st = false.
Proof.
  unfold run. intros Hrun Hk Hstop.
  destruct (loop cfg env _ _) as [st'|] eqn:Hloop; [|done].
  injection Hrun as <- <-. simpl.
  pose proof (loop_stops _ k _ _ Hloop Hstop) as Hle. simpl in Hle.
  split_and!; [apply Hle; lia | apply Hle; lia | done].
Qed.

Lemma loop_settles (fuel : nat) (st st' : State) :
  loop cfg env fuel st = Some st' ->
  Forall (story_settled cfg) (stories st) ->
  Forall (story_settled cfg) (stories st').
Proof.
  revert st. induction fuel as [|fuel IH]; intros st Hloop Hst; simpl in Hloop; [done|].
  destruct (running st && (iteration st <? max_iterations cfg)); [|by injection Hloop as <-].
  destruct (get_next_story (stories st)) as [[i story]|] eqn:Hnext;
    [|by injection Hloop as <-].
  destruct (get_next_story_Some _ _ _ Hnext) as [Hi Hopen].
  destruct (proj1 (Forall_lookup _ _) Hst i story Hi) as (Hle & _ & _).
  destruct (max_retries_per_story cfg <=? us_attempts story) eqn:Hretries.
  - apply (IH _ Hloop). simpl. apply Forall_insert; [done|].
    apply Z.leb_le in Hretries. split_and!; simpl; [done | lia | done].
  - apply (IH _ Hloop).
    destruct (attempt_story_accounting i story st)
      as (_ & _ & _ & _ & story' & -> & Hatt & Hstatus).
    apply Forall_insert; [done|].
    apply Z.leb_gt in Hretries. split_and!; [lia | |].
    + intros Hf. destruct Hstatus as [[Hs _]|Hs]; by rewrite Hs in Hf.
    + intros Hc. destruct Hstatus as [[_ ?]|Hs]; [done|]. by rewrite Hs in Hc.
Qed.

(** X7.  The loop marks a story failed only with its retry budget used
    up, and completed only with a completion time: when every story of the
    PRD is within the retry budget, failed only with exactly
    [max_retries_per_story] attempts and completed only with [completed_at]
    set (as every new story is, for a budget that is not negative), the
    same holds of every story when the run has returned. *)
Theorem run_settles_stories (prd : list UserStory) (st : State) (summary : Summary) :
  run cfg env prd = Some (st, summary) ->
  Forall (story_settled cfg) prd ->
  Forall (fun s =>
            us_attempts s <= max_retries_per_story cfg
            /\ (us_status s = FAILED -> us_attempts s = max_retries_per_story cfg)
            /\ (us_status s = COMPLETED -> is_Some (us_completed_at s)))
         (stories st).
Proof.
  unfold run. intros Hrun Hprd.
  destruct (loop cfg env _ _) as [st'|] eqn:Hloop; [|done].
  injection Hrun as <- _. simpl.
  apply (loop_settles _ _ _ Hloop Hprd).
Qed.

End Accounting.

Lemma stop_ends_run_witness :
  exists st summary,
    RalphLoop.run s3_cfg (stop_at_env 2) one_story_prd = Some (st, summary)
    /\ RalphLoop.stop_called (stop_at_env 2 2) = true
    /\ RalphLoop.sum_iterations summary = 2
    /\ (RalphLoop.sum_iterations summary <= 2 /\ RalphLoop.iteration st <= 2
        /\ RalphLoop.running st = false).
Proof.
  destruct (RalphLoop.run s3_cfg (stop_at_env 2) one_story_prd) as [[st summary]|] eqn:Hrun;
    [|vm_compute in Hrun; discriminate].
  exists st, summary. split; [reflexivity|]. split; [reflexivity|]. split.
  - vm_compute in Hrun. by injection Hrun as _ <-.
  - apply (stop_ends_run s3_cfg (stop_at_env 2) one_story_prd 2 st summary);
      [exact Hrun | lia | reflexivity].
Defined.

Lemma run_settles_stories_witness :
  exists st summary,
    RalphLoop.run s3_cfg no_artifact_env one_story_prd = Some (st, summary)
    /\ map RalphLoop.us_status (RalphLoop.stories st) = [RalphLoop.FAILED]
    /\ Forall (fun s =>
                 RalphLoop.us_attempts s <= 3
                 /\ (RalphLoop.us_status s = RalphLoop.FAILED -> RalphLoop.us_attempts s = 3)
                 /\ (RalphLoop.us_status s = RalphLoop.COMPLETED ->
                     is_Some (RalphLoop.us_completed_at s)))
              (RalphLoop.stories st).
Proof.
  destruct (RalphLoop.run s3_cfg no_artifact_env one_story_prd) as [[st summary]|] eqn:Hrun;
    [|vm_compute in Hrun; discriminate].
  exists st, summary. split; [reflexivity|]. split.
  - vm_compute in Hrun. by injection Hrun as <- _.
  - apply (run_settles_stories s3_cfg no_artifact_env one_story_prd st summary Hrun).
    repeat constructor; simpl; try lia; discriminate.
Defined.

(** ** Ralph loop: what fails an attempt *)

Section AttemptOutcome.
Import MemoryLearning RalphLoop.

(** X25.  What fails an attempt.  [_implement_story] succeeds exactly when
    nothing raised, the code generation reported success and the number of
    applied changes is not zero; pytest, the linter and the type checker
    have no say.  A successful attempt carries no error; a failed one
    carries no quality checks, and its error is the exception's message,
    the generator's error, or "No code changes applied". *)
Theorem attempt_succeeds_iff (e : IterEnv) :
  ((_implement_story e).1 = true
   <-> impl_raises e = None /\ g_success (generation e) = true /\ changes e <> 0)
  /\ ((_implement_story e).1 = true -> ad_error (_implement_story e).2 = None)
  /\ ((_implement_story e).1 = false ->
      ad_quality_checks (_implement_story e).2 = []
      /\ ad_error (_implement_story e).2
         = match impl_raises e with
           | Some msg => Some msg
           | None =>
               if g_success (generation e) then Some "No code changes applied"
               else g_error (generation e)
           end).
Proof.
  unfold _implement_story.
  destruct (run_quality_checks_passed (pytest e) (ruff e) (mypy e)) as [Hp _].
  rewrite Hp.
  destruct (impl_raises e) as [msg|]; simpl; [naive_solver|].
  destruct (g_success (generation e)); simpl; [|naive_solver].
  destruct (Z.eqb_spec (changes e) 0); simpl; naive_solver.
Qed.

End AttemptOutcome.

(** ** Session store: what is kept, and what is read back *)

Section StoredMessages.

Lemma slice_between {A : Type} (a b : nat) (l : list A) :
  (a <= b <= length l)%nat ->
  PyStr.slice (Z.of_nat a) (Z.of_nat b) l = take (b - a) (drop a l).
Proof.
  intros Hab. unfold PyStr.slice.
  destruct (Z.ltb_spec (Z.of_nat a) 0); [exfalso; lia|].
  destruct (Z.ltb_spec (Z.of_nat b) 0); [exfalso; lia|].
  rewrite !Z.min_l by lia. f_equal; [lia|]. f_equal. lia.
Qed.

Lemma range_all {A : Type} (l : list A) : Redis.range 0 (-1) l = l.
Proof.
  unfold Redis.range. simpl.
  destruct (Z.ltb_spec (Z.of_nat (length l) + -1) 0) as [Hlt|Hge]; simpl.
  - destruct l as [|x l]; [done|]. simpl length in Hlt. lia.
  - destruct (Z.leb_spec (Z.of_nat (length l)) 0); [exfalso; lia|].
    change (Z.to_nat 0) with 0%nat. rewrite drop_0. apply take_ge. lia.
Qed.

(** The window [get_messages] asks for: the [limit] messages that come
    before the last [offset] ones. *)
Lemma memory_get_messages_window (session_id : string) (limit offset : Z)
    (st : InMemorySessionStorage.t) :
  let msgs := InMemorySessionStorage.get_all_messages session_id st in
  0 <= limit ->
  0 <= offset <= Z.of_nat (length msgs) ->
  InMemorySessionStorage.get_messages session_id limit offset st
  = Spec.last_n (Z.to_nat limit) (take (length msgs - Z.to_nat offset) msgs).
Proof.
  intros msgs Hlimit Hoffset.
  unfold InMemorySessionStorage.get_messages.
  fold (InMemorySessionStorage.get_all_messages session_id st). fold msgs.
  set (b := (length msgs - Z.to_nat offset)%nat).
  set (a := (b - Z.to_nat limit)%nat).
  replace (Z.max 0 (Z.of_nat (length msgs) - limit - offset)) with (Z.of_nat a) by lia.
  replace (if offset =? 0 then Z.of_nat (length msgs) else Z.of_nat (length msgs) - offset)
    with (Z.of_nat b) by (destruct (Z.eqb_spec offset 0); lia).
  rewrite slice_between by lia.
  unfold Spec.last_n. rewrite length_take_le by lia. fold a.
  rewrite take_drop_commute. do 2 f_equal. lia.
Qed.

Lemma redis_range_window {A : Type} (limit offset : Z) (l : list A) :
  1 <= limit ->
  0 <= offset <= Z.of_nat (length l) ->
  Redis.range (if offset =? 0 then - limit else - limit - offset)
              (if offset =? 0 then -1 else -1 - offset) l
  = Spec.last_n (Z.to_nat limit) (take (length l - Z.to_nat offset) l).
Proof.
  intros Hlimit Hoffset.
  set (b := (length l - Z.to_nat offset)%nat).
  set (a := (b - Z.to_nat limit)%nat).
  unfold Redis.range.
  replace (if offset =? 0 then - limit else - limit - offset) with (- limit - offset)
    by (destruct (Z.eqb_spec offset 0); lia).
  replace (if offset =? 0 then -1 else -1 - offset) with (-1 - offset)
    by (destruct (Z.eqb_spec offset 0); lia).
  destruct (Z.ltb_spec (- limit - offset) 0); [|exfalso; lia].
  destruct (Z.ltb_spec (-1 - offset) 0); [|exfalso; lia].
  replace (Z.max 0 (Z.of_nat (length l) + (- limit - offset))) with (Z.of_nat a) by lia.
  replace (Z.of_nat (length l) + (-1 - offset)) with (Z.of_nat b - 1) by lia.
  unfold Spec.last_n. rewrite length_take_le by lia. fold a.
  destruct (Z.ltb_spec (Z.of_nat b - 1) (Z.of_nat a)) as [Hlt|Hge]; simpl.
  - assert (b = 0%nat) as -> by lia. by rewrite take_0, drop_nil.
  - destruct (Z.leb_spec (Z.of_nat (length l)) (Z.of_nat a)); [exfalso; lia|].
    rewrite take_drop_commute. do 2 f_equal; lia.
Qed.

(** X8.  Reading a window of the history.  For [limit >= 1] and an
    [offset] between 0 and the number of stored messages, [get_messages]
    of the Redis-backed store and of the in-memory store return the same
    messages whenever the two hold the same history: the [limit] messages
    that come before the last [offset] ones (fewer when there are not that
    many), oldest first. *)
Theorem get_messages_window (session_id : string) (limit offset : Z)
    (redis : SessionStorage.t) (memory : InMemorySessionStorage.t) (d : Redis.db) :
  SessionStorage.redis redis = Some d ->
  SessionStorage.get_all_messages session_id redis
  = InMemorySessionStorage.get_all_messages session_id memory ->
  1 <= limit ->
  0 <= offset <= Z.of_nat (length (InMemorySessionStorage.get_all_messages session_id memory)) ->
  let history := InMemorySessionStorage.get_all_messages session_id memory in
  SessionStorage.get_messages session_id limit offset redis
  = Spec.last_n (Z.to_nat limit) (take (length history - Z.to_nat offset) history)
  /\ InMemorySessionStorage.get_messages session_id limit offset memory
     = Spec.last_n (Z.to_nat limit) (take (length history - Z.to_nat offset) history).
Proof.
  intros Hd Hsame Hlimit Hoffset history. split.
  - unfold SessionStorage.get_messages, SessionStorage.get_all_messages in *.
    rewrite Hd in *. unfold Redis.lrange in *. rewrite range_all in Hsame.
    rewrite Hsame. by apply redis_range_window.
  - apply memory_get_messages_window; [lia|done].
Qed.

(** X9.  With [limit = 0] (and no offset) the two stores part: the
    Redis-backed [get_messages] asks LRANGE for the range [0..-1] and
    returns the whole history, the in-memory one returns nothing; so does
    [get_recent_context] with [num_messages = 0]. *)
Theorem get_messages_limit_zero (session_id : string)
    (redis : SessionStorage.t) (memory : InMemorySessionStorage.t) :
  SessionStorage.get_messages session_id 0 0 redis
  = SessionStorage.get_all_messages session_id redis
  /\ InMemorySessionStorage.get_messages session_id 0 0 memory = []
  /\ SessionStorage.get_recent_context session_id 0 redis
     = (fun msg => (m_role msg, m_content msg))
         <$> SessionStorage.get_all_messages session_id redis
  /\ InMemorySessionStorage.get_recent_context session_id 0 memory = [].
Proof.
  assert (Hmem : InMemorySessionStorage.get_messages session_id 0 0 memory = []).
  { pose proof (memory_get_messages_window session_id 0 0 memory) as H. simpl in H.
    rewrite H by lia. unfold Spec.last_n. rewrite Nat.sub_0_r, Nat.sub_0_r.
    rewrite take_ge by done. by apply drop_ge. }
  unfold SessionStorage.get_recent_context, InMemorySessionStorage.get_recent_context.
  rewrite Hmem. split_and!; done.
Qed.

End StoredMessages.

Lemma get_messages_window_witness :
  SessionStorage.get_messages "s" 2 1
    (default c5_store (redis_add_all "s" ["a"; "b"; "c"; "d"]
       (SessionStorage.create_session (Some "s") "u" "t0"
          {| SessionStorage.redis := Some Redis.empty;
             SessionStorage.max_messages := 100 |}).2))
  = user_messages ["b"; "c"]
  /\ InMemorySessionStorage.get_messages "s" 2 1
       (memory_add_all "s" ["a"; "b"; "c"; "d"] (InMemorySessionStorage.init 100))
     = user_messages ["b"; "c"].
Proof.
  set (r := default c5_store (redis_add_all "s" ["a"; "b"; "c"; "d"]
       (SessionStorage.create_session (Some "s") "u" "t0"
          {| SessionStorage.redis := Some Redis.empty;
             SessionStorage.max_messages := 100 |}).2)).
  set (m := memory_add_all "s" ["a"; "b"; "c"; "d"] (InMemorySessionStorage.init 100)).
  assert (exists d, SessionStorage.redis r = Some d) as [d Hd] by (vm_compute; eauto).
  assert (Hw := get_messages_window "s" 2 1 r m d Hd).
  destruct Hw as [Hr Hm]; [by vm_compute | lia | vm_compute; split; congruence |].
  split; [rewrite Hr | rewrite Hm]; by vm_compute.
Defined.

Section Ring.

Lemma range_last {A : Type} (cap : Z) (l : list A) :
  1 <= cap -> Redis.range (- cap) (-1) l = Spec.last_n (Z.to_nat cap) l.
Proof.
  intros Hcap. pose proof (redis_range_window cap 0 l Hcap) as H. simpl in H.
  rewrite H by lia. by rewrite Nat.sub_0_r, take_ge.
Qed.

(** One append to the in-memory store: the session holds the last
    [max_messages] of what it held followed by the new message. *)
Lemma memory_add_message_last (session_id role content : string) (metadata : option string)
    (uuid now : string) (st : InMemorySessionStorage.t) :
  1 <= InMemorySessionStorage.max_messages st ->
  let '(message, st') :=
    InMemorySessionStorage.add_message session_id role content metadata uuid now st in
  InMemorySessionStorage.max_messages st' = InMemorySessionStorage.max_messages st
  /\ InMemorySessionStorage.get_all_messages session_id st'
     = Spec.last_n (Z.to_nat (InMemorySessionStorage.max_messages st))
         (InMemorySessionStorage.get_all_messages session_id st ++ [message])
  /\ forall other, other <> session_id ->
       InMemorySessionStorage.get_all_messages other st'
       = InMemorySessionStorage.get_all_messages other st.
Proof.
  intros Hcap. unfold InMemorySessionStorage.add_message, InMemorySessionStorage.get_all_messages.
  simpl. split; [done|]. split.
  - rewrite lookup_insert_eq. simpl.
    match goal with |- context [length ?l] => set (appended := l) end.
    destruct (Z.ltb_spec (InMemorySessionStorage.max_messages st) (Z.of_nat (length appended))).
    + unfold PyStr.slice_from, Spec.last_n.
      destruct (Z.ltb_spec (- InMemorySessionStorage.max_messages st) 0); [|exfalso; lia].
      f_equal. lia.
    + rewrite last_n_all; [done|lia].
  - intros other Hother. by rewrite lookup_insert_ne.
Qed.

(** X10.  The in-memory store is a ring of the most recent messages: for a
    cap [max_messages_per_session >= 1], after any number of appends to a
    session it holds exactly the last [max_messages] of all that was
    appended (after what it held), oldest first, so never more than the
    cap; the other sessions are untouched. *)
Theorem memory_keeps_last (session_id : string) (contents : list string)
    (st : InMemorySessionStorage.t) :
  1 <= InMemorySessionStorage.max_messages st ->
  Z.of_nat (length (InMemorySessionStorage.get_all_messages session_id st))
  <= InMemorySessionStorage.max_messages st ->
  let st' := memory_add_all session_id contents st in
  InMemorySessionStorage.get_all_messages session_id st'
  = Spec.last_n (Z.to_nat (InMemorySessionStorage.max_messages st))
      (InMemorySessionStorage.get_all_messages session_id st ++ user_messages contents)
  /\ Z.of_nat (length (InMemorySessionStorage.get_all_messages session_id st'))
     <= InMemorySessionStorage.max_messages st
  /\ forall other, other <> session_id ->
       InMemorySessionStorage.get_all_messages other st'
       = InMemorySessionStorage.get_all_messages other st.
Proof.
  intros Hcap Hlen.
  assert (Hmain : forall contents before st,
    1 <= InMemorySessionStorage.max_messages st ->
    InMemorySessionStorage.get_all_messages session_id st
    = Spec.last_n (Z.to_nat (InMemorySessionStorage.max_messages st)) before ->
    let st' := memory_add_all session_id contents st in
    InMemorySessionStorage.max_messages st' = InMemorySessionStorage.max_messages st
    /\ InMemorySessionStorage.get_all_messages session_id st'
       = Spec.last_n (Z.to_nat (InMemorySessionStorage.max_messages st))
           (before ++ user_messages contents)
    /\ forall other, other <> session_id ->
         InMemorySessionStorage.get_all_messages other st'
         = InMemorySessionStorage.get_all_messages other st).
  { clear. intros contents. induction contents as [|c contents IH]; intros before st Hcap Hst.
    - simpl. by rewrite app_nil_r.
    - change (memory_add_all session_id (c :: contents) st)
        with (memory_add_all session_id contents
                (InMemorySessionStorage.add_message session_id "user" c None "id" "t" st).2).
      pose proof (memory_add_message_last session_id "user" c None "id" "t" st Hcap) as Hstep.
      destruct (InMemorySessionStorage.add_message session_id "user" c None "id" "t" st)
        as [message st1] eqn:Hadd.
      assert (message = {| m_id := "id"; m_role := "user"; m_content := c;
                           m_timestamp := "t"; m_metadata := "{}" |}) as Hmsg.
      { unfold InMemorySessionStorage.add_message in Hadd. by injection Hadd as <- _. }
      destruct Hstep as (Hcap1 & Hlast & Hothers). cbn [snd]. cbv zeta.
      destruct (IH (before ++ [message])%list st1) as (Hcap' & Hlast' & Hothers').
      + by rewrite Hcap1.
      + rewrite Hlast, Hst, Hcap1. apply last_n_snoc. lia.
      + split_and!.
        * by rewrite Hcap', Hcap1.
        * rewrite Hlast', Hcap1, <- app_assoc, Hmsg. done.
        * intros other Hother. by rewrite Hothers', Hothers. }
  intros st'.
  destruct (Hmain contents (InMemorySessionStorage.get_all_messages session_id st) st Hcap)
    as (_ & Hlast & Hothers).
  { rewrite last_n_all; [done|lia]. }
  split_and!; [done| |done].
  fold st' in Hlast. rewrite Hlast. unfold Spec.last_n. rewrite length_drop. lia.
Qed.

Lemma str_int_round_trip (n : Z) :
  Z.of_int <$> NilZero.int_of_string (PyStr.str_int n) = Some n.
Proof.
  unfold PyStr.str_int. pose proof (DecimalZ.of_to n) as Hn.
  destruct (Z.to_int n) as [u|u]; destruct u;
    first [rewrite NilZero.isi_posnil | rewrite NilZero.isi_negnil
          | rewrite NilZero.isi by discriminate];
    simpl; by rewrite <- Hn.
Qed.

Lemma int_of_field_str_int (n : Z) :
  Redis.in_int64 n = true -> Redis.int_of_field (Some (PyStr.str_int n)) = Some n.
Proof.
  intros Hn. unfold Redis.int_of_field.
  by rewrite str_int_round_trip, String.eqb_refl, Hn.
Qed.

Lemma in_int64_spec (n : Z) : Redis.in_int64 n = true <-> - 2 ^ 63 <= n <= 2 ^ 63 - 1.
Proof. unfold Redis.in_int64. rewrite andb_true_iff, !Z.leb_le. done. Qed.

(** HINCRBY answers with an error for a field that is not the text of an
    integer as Redis writes it, and for a sum beyond 64 bits. *)
Example hincrby_errors :
  let d := fun count => Redis.hset "session:s" {["message_count" := count]} Redis.empty in
  Redis.hincrby "session:s" "message_count" 1 (d "007") = None
  /\ Redis.hincrby "session:s" "message_count" 1 (d "many") = None
  /\ Redis.hincrby "session:s" "message_count" 1 (d "9223372036854775807") = None
  /\ Redis.hget "session:s" "message_count"
       <$> Redis.hincrby "session:s" "message_count" 1 (d "9223372036854775806")
     = Some (Some "9223372036854775807").
Proof. by vm_compute. Qed.

(** One append to the Redis-backed store. *)
Lemma redis_add_message_last (session_id role content : string) (metadata : option string)
    (uuid now : string) (st : SessionStorage.t) (d : Redis.db) (n : Z) :
  SessionStorage.redis st = Some d ->
  1 <= SessionStorage.max_messages st ->
  Redis.hget (SessionStorage._session_key session_id) "message_count" d
  = Some (PyStr.str_int n) ->
  - 2 ^ 63 <= n ->
  n + 1 <= 2 ^ 63 - 1 ->
  exists message st' d',
    SessionStorage.add_message session_id role content metadata uuid now st = Some (message, st')
    /\ message = {| m_id := uuid; m_role := role; m_content := content; m_timestamp := now;
                    m_metadata := metadata_or_empty metadata |}
    /\ SessionStorage.redis st' = Some d'
    /\ SessionStorage.max_messages st' = SessionStorage.max_messages st
    /\ Redis.hget (SessionStorage._session_key session_id) "message_count" d'
       = Some (PyStr.str_int (n + 1))
    /\ SessionStorage.get_all_messages session_id st'
       = Spec.last_n (Z.to_nat (SessionStorage.max_messages st))
           (SessionStorage.get_all_messages session_id st ++ [message]).
Proof.
  intros Hd Hcap Hcount Hmin Hmax.
  unfold SessionStorage.add_message, SessionStorage.get_all_messages.
  rewrite Hd. unfold Redis.hget in Hcount.
  set (skey := SessionStorage._session_key session_id) in *.
  set (mkey := SessionStorage._messages_key session_id) in *.
  set (message := {| m_id := uuid; m_role := role; m_content := content;
                     m_timestamp := now; m_metadata := metadata_or_empty metadata |}).
  set (h := default ∅ (Redis.hashes d !! skey)) in *.
  set (d1 := Redis.ltrim mkey (- SessionStorage.max_messages st) (-1)
               (Redis.rpush mkey message d)).
  assert (Hhashes : Redis.hashes d1 = Redis.hashes d).
  { unfold d1, Redis.ltrim, Redis.rpush. simpl. rewrite lookup_insert_eq.
    by destruct (Redis.range _ _ _). }
  assert (Hlist : default [] (Redis.lists d1 !! mkey)
                  = Spec.last_n (Z.to_nat (SessionStorage.max_messages st))
                      (default [] (Redis.lists d !! mkey) ++ [message])).
  { unfold d1, Redis.ltrim, Redis.rpush. simpl. rewrite lookup_insert_eq.
    rewrite range_last by done.
    destruct (Spec.last_n _ _) as [|x kept] eqn:Hkept; simpl.
    - by rewrite lookup_delete_eq.
    - by rewrite lookup_insert_eq. }
  unfold Redis.hincrby. rewrite Hhashes. fold h. rewrite Hcount.
  rewrite int_of_field_str_int by (apply in_int64_spec; lia).
  rewrite (proj2 (in_int64_spec (n + 1))) by lia.
  eexists _, _, _. split_and!; [reflexivity | reflexivity | reflexivity | reflexivity | |].
  - unfold Redis.hget. simpl. rewrite lookup_insert_eq. simpl. by rewrite lookup_insert_eq.
  - simpl. unfold Redis.lrange. simpl. rewrite !range_all. exact Hlist.
Qed.

Lemma message_count_of_field (session_id : string) (st : SessionStorage.t) (d : Redis.db)
    (n : Z) :
  SessionStorage.redis st = Some d ->
  Redis.hget (SessionStorage._session_key session_id) "message_count" d
  = Some (PyStr.str_int n) ->
  SessionStorage.message_count session_id st = Some n.
Proof.
  intros Hd Hcount. unfold SessionStorage.message_count, SessionStorage.get_session.
  rewrite Hd. unfold Redis.hgetall, Redis.hget in *.
  case_bool_decide as Hempty; [by rewrite Hempty, lookup_empty in Hcount|].
  simpl. rewrite Hcount. simpl. apply str_int_round_trip.
Qed.

(** X11.  The Redis-backed store keeps the last [max_messages] messages and
    counts them all.  On a connected store with a cap
    [max_messages_per_session >= 1] and a session whose [message_count]
    field holds the decimal text of an integer [n] (as [create_session]
    and HINCRBY write it), as long as [n] plus the number of appends stays
    within the signed 64 bits Redis counts with, the appends succeed, the
    list then holds exactly the last [max_messages] of all that was
    appended, oldest first, and [message_count] reads [n] plus the number
    of appends, whatever the cap. *)
Theorem redis_keeps_last_counts_all (session_id : string) (contents : list string)
    (st : SessionStorage.t) (d : Redis.db) (n : Z) :
  SessionStorage.redis st = Some d ->
  1 <= SessionStorage.max_messages st ->
  Z.of_nat (length (SessionStorage.get_all_messages session_id st))
  <= SessionStorage.max_messages st ->
  Redis.hget (SessionStorage._session_key session_id) "message_count" d
  = Some (PyStr.str_int n) ->
  - 2 ^ 63 <= n ->
  n + Z.of_nat (length contents) <= 2 ^ 63 - 1 ->
  exists st',
    redis_add_all session_id contents st = Some st'
    /\ SessionStorage.get_all_messages session_id st'
       = Spec.last_n (Z.to_nat (SessionStorage.max_messages st))
           (SessionStorage.get_all_messages session_id st ++ user_messages contents)
    /\ SessionStorage.message_count session_id st' = Some (n + Z.of_nat (length contents)).
Proof.
  intros Hd Hcap Hlen Hcount Hmin Hmax.
  assert (Hmain : forall contents before st d n,
    SessionStorage.redis st = Some d ->
    1 <= SessionStorage.max_messages st ->
    Redis.hget (SessionStorage._session_key session_id) "message_count" d
    = Some (PyStr.str_int n) ->
    - 2 ^ 63 <= n ->
    n + Z.of_nat (length contents) <= 2 ^ 63 - 1 ->
    SessionStorage.get_all_messages session_id st
    = Spec.last_n (Z.to_nat (SessionStorage.max_messages st)) before ->
    exists st',
      redis_add_all session_id contents st = Some st'
      /\ SessionStorage.get_all_messages session_id st'
         = Spec.last_n (Z.to_nat (SessionStorage.max_messages st))
             (before ++ user_messages contents)
      /\ SessionStorage.message_count session_id st'
         = Some (n + Z.of_nat (length contents))).
  { clear. intros contents.
    induction contents as [|c contents IH];
      intros before st d n Hd Hcap Hcount Hmin Hmax Hst.
    - exists st. simpl. rewrite app_nil_r, Z.add_0_r.
      split_and!; [done | done | by apply (message_count_of_field _ _ d)].
    - simpl length in Hmax.
      destruct (redis_add_message_last session_id "user" c None "id" "t" st d n
                  Hd Hcap Hcount Hmin)
        as (message & st1 & d1 & Hadd & -> & Hd1 & Hcap1 & Hcount1 & Hlast); [lia|].
      simpl. rewrite Hadd.
      destruct (IH (before ++ [ {| m_id := "id"; m_role := "user"; m_content := c;
                                   m_timestamp := "t"; m_metadata := "{}" |} ])%list
                  st1 d1 (n + 1) Hd1) as (st' & Hadd' & Hlast' & Hcount').
      + by rewrite Hcap1.
      + done.
      + lia.
      + lia.
      + rewrite Hlast, Hst, Hcap1. apply last_n_snoc. lia.
      + exists st'. split_and!; [done | |].
        * rewrite Hlast', Hcap1, <- app_assoc. done.
        * rewrite Hcount'. f_equal. lia. }
  apply (Hmain contents _ st d n Hd Hcap Hcount Hmin Hmax).
  rewrite last_n_all; [done|lia].
Qed.

End Ring.

Lemma memory_keeps_last_witness :
  InMemorySessionStorage.get_all_messages "s"
    (memory_add_all "s" ["a"; "b"; "c"] (InMemorySessionStorage.init 2))
  = user_messages ["b"; "c"].
Proof.
  pose proof (memory_keeps_last "s" ["a"; "b"; "c"] (InMemorySessionStorage.init 2)) as H.
  destruct H as (H & _); [by vm_compute | by vm_compute |].
  rewrite H. reflexivity.
Defined.

Lemma redis_keeps_last_counts_all_witness :
  exists st',
    redis_add_all "s" ["a"; "b"; "c"] c5_store = Some st'
    /\ SessionStorage.get_all_messages "s" st' = user_messages ["b"; "c"]
    /\ SessionStorage.message_count "s" st' = Some 3.
Proof.
  destruct (redis_keeps_last_counts_all "s" ["a"; "b"; "c"] c5_store
              (Redis.hset "session:s" (SessionStorage.session_data "s" "t0") Redis.empty) 0)
    as (st' & Hadd & Hlast & Hcount);
    [reflexivity | by vm_compute | by vm_compute | by vm_compute | lia | simpl; lia |].
  exists st'. split_and!; [done | | done].
  rewrite Hlast. by vm_compute.
Defined.

(** ** Session store: deleting, workflows, context, the fallback *)

Section StoreEdges.

Local Ltac key_ne :=
  unfold SessionStorage._session_key, SessionStorage._messages_key,
    SessionStorage._context_key, SessionStorage._workflow_key;
  simpl; intros ?; simplify_eq.

(** X12.  [delete_session] forgets the session and nothing else, in both
    stores: afterwards the session does not exist and has no messages, no
    context and no workflow, and every other session reads as before. *)
Theorem delete_session_forgets (session_id : string)
    (memory : InMemorySessionStorage.t) (redis : SessionStorage.t) :
  let memory' := InMemorySessionStorage.delete_session session_id memory in
  let redis' := SessionStorage.delete_session session_id redis in
  (InMemorySessionStorage.session_exists session_id memory' = false
   /\ InMemorySessionStorage.get_all_messages session_id memory' = []
   /\ (forall key, InMemorySessionStorage.get_context session_id key memory' = None)
   /\ (forall workflow_id,
         InMemorySessionStorage.get_workflow session_id workflow_id memory' = None))
  /\ (SessionStorage.session_exists session_id redis' = false
      /\ SessionStorage.get_session session_id redis' = None
      /\ SessionStorage.get_all_messages session_id redis' = []
      /\ (forall workflow_id,
            SessionStorage.get_workflow session_id workflow_id redis' = None))
  /\ forall other, other <> session_id ->
       InMemorySessionStorage.get_session other memory'
       = InMemorySessionStorage.get_session other memory
       /\ InMemorySessionStorage.get_all_messages other memory'
          = InMemorySessionStorage.get_all_messages other memory
       /\ (forall key, InMemorySessionStorage.get_context other key memory'
                       = InMemorySessionStorage.get_context other key memory)
       /\ (forall workflow_id,
             InMemorySessionStorage.get_workflow other workflow_id memory'
             = InMemorySessionStorage.get_workflow other workflow_id memory)
       /\ SessionStorage.get_session other redis' = SessionStorage.get_session other redis
       /\ SessionStorage.get_all_messages other redis'
          = SessionStorage.get_all_messages other redis
       /\ (forall workflow_id,
             SessionStorage.get_workflow other workflow_id redis'
             = SessionStorage.get_workflow other workflow_id redis).
Proof.
  intros memory' redis'. split_and!.
  - unfold InMemorySessionStorage.session_exists. simpl. rewrite lookup_delete_eq.
    apply bool_decide_eq_false. by intros [? ?].
  - unfold InMemorySessionStorage.get_all_messages. simpl. by rewrite lookup_delete_eq.
  - intros key. unfold InMemorySessionStorage.get_context. simpl. by rewrite lookup_delete_eq.
  - intros w. unfold InMemorySessionStorage.get_workflow. simpl. by rewrite lookup_delete_eq.
  - unfold redis', SessionStorage.delete_session, SessionStorage.session_exists.
    destruct (SessionStorage.redis redis) as [d|] eqn:Hd; simpl; [|by rewrite Hd].
    unfold Redis.exists_. simpl. by rewrite !lookup_delete_eq.
  - unfold redis', SessionStorage.delete_session, SessionStorage.get_session.
    destruct (SessionStorage.redis redis) as [d|] eqn:Hd; simpl; [|by rewrite Hd].
    unfold Redis.hgetall. simpl. by rewrite lookup_delete_eq.
  - unfold redis', SessionStorage.delete_session, SessionStorage.get_all_messages.
    destruct (SessionStorage.redis redis) as [d|] eqn:Hd; simpl; [|by rewrite Hd].
    unfold Redis.lrange. simpl.
    rewrite lookup_delete_ne by key_ne. by rewrite lookup_delete_eq.
  - intros w. unfold redis', SessionStorage.delete_session, SessionStorage.get_workflow.
    destruct (SessionStorage.redis redis) as [d|] eqn:Hd; simpl; [|by rewrite Hd].
    unfold Redis.hget. simpl.
    rewrite !(lookup_delete_ne _ _ (SessionStorage._workflow_key session_id)) by key_ne.
    by rewrite lookup_delete_eq.
  - intros other Hother. split_and!.
    + unfold InMemorySessionStorage.get_session. simpl. by rewrite lookup_delete_ne.
    + unfold InMemorySessionStorage.get_all_messages. simpl. by rewrite lookup_delete_ne.
    + intros key. unfold InMemorySessionStorage.get_context. simpl.
      by rewrite lookup_delete_ne.
    + intros w. unfold InMemorySessionStorage.get_workflow. simpl.
      by rewrite lookup_delete_ne.
    + unfold redis', SessionStorage.delete_session, SessionStorage.get_session.
      destruct (SessionStorage.redis redis) as [d|] eqn:Hd; simpl; [|by rewrite Hd].
      unfold Redis.hgetall. simpl. by rewrite !lookup_delete_ne by key_ne.
    + unfold redis', SessionStorage.delete_session, SessionStorage.get_all_messages.
      destruct (SessionStorage.redis redis) as [d|] eqn:Hd; simpl; [|by rewrite Hd].
      unfold Redis.lrange. simpl. by rewrite !lookup_delete_ne by key_ne.
    + intros w. unfold redis', SessionStorage.delete_session, SessionStorage.get_workflow.
      destruct (SessionStorage.redis redis) as [d|] eqn:Hd; simpl; [|by rewrite Hd].
      unfold Redis.hget. simpl. by rewrite !lookup_delete_ne by key_ne.
Qed.

(** X13.  [save_workflow] on either store can be read back with
    [get_workflow].  On the in-memory store it never brings a session into
    existence, and sets [active_workflow] of a session that exists.  On a
    connected Redis-backed store the session exists afterwards in every
    case: for a session that did not exist, [update_session] writes a
    session hash that holds [active_workflow] and [updated_at] but no
    [id], [status] or [message_count]. *)
Theorem save_workflow_session (session_id workflow_id workflow_data now : string)
    (memory : InMemorySessionStorage.t) (redis : SessionStorage.t) (d : Redis.db) :
  SessionStorage.redis redis = Some d ->
  workflow_data <> "" ->
  let memory' :=
    InMemorySessionStorage.save_workflow session_id workflow_id workflow_data now memory in
  let redis' := SessionStorage.save_workflow session_id workflow_id workflow_data now redis in
  (InMemorySessionStorage.get_workflow session_id workflow_id memory' = Some workflow_data
   /\ InMemorySessionStorage.session_exists session_id memory'
      = InMemorySessionStorage.session_exists session_id memory
   /\ (InMemorySessionStorage.session_exists session_id memory = true ->
       InMemorySessionStorage.s_active_workflow
         <$> InMemorySessionStorage.get_session session_id memory'
       = Some (Some workflow_id)))
  /\ SessionStorage.get_workflow session_id workflow_id redis' = Some workflow_data
  /\ SessionStorage.session_exists session_id redis' = true
  /\ exists fields,
       SessionStorage.get_session session_id redis' = Some fields
       /\ fields !! "active_workflow" = Some workflow_id
       /\ fields !! "updated_at" = Some now
       /\ (SessionStorage.session_exists session_id redis = false ->
           fields !! "id" = None /\ fields !! "status" = None
           /\ fields !! "message_count" = None).
Proof.
  intros Hd Hdata memory' redis'. split_and!.
  - unfold InMemorySessionStorage.get_workflow. simpl.
    by rewrite lookup_insert_eq; simpl; rewrite lookup_insert_eq.
  - unfold InMemorySessionStorage.session_exists. simpl.
    rewrite lookup_alter_eq. apply bool_decide_ext. by rewrite fmap_is_Some.
  - unfold InMemorySessionStorage.session_exists, InMemorySessionStorage.get_session.
    simpl. rewrite lookup_alter_eq. intros [s ->]%bool_decide_eq_true. done.
  - unfold redis', SessionStorage.save_workflow, SessionStorage.update_session,
      SessionStorage.get_workflow. rewrite Hd. simpl.
    unfold Redis.hget. simpl.
    rewrite lookup_insert_ne by key_ne. rewrite lookup_insert_eq. simpl.
    rewrite lookup_union_l', lookup_singleton_eq by (rewrite lookup_singleton_eq; eauto).
    destruct (String.eqb_spec workflow_data ""); done.
  - unfold redis', SessionStorage.save_workflow, SessionStorage.update_session,
      SessionStorage.session_exists. rewrite Hd. simpl.
    unfold Redis.exists_. simpl. rewrite lookup_insert_eq.
    rewrite bool_decide_eq_true_2 by eauto. done.
  - unfold redis', SessionStorage.save_workflow, SessionStorage.update_session,
      SessionStorage.get_session, SessionStorage.session_exists. rewrite Hd. simpl.
    unfold Redis.hgetall, Redis.exists_. simpl. rewrite lookup_insert_eq. simpl.
    rewrite lookup_insert_ne by key_ne.
    eexists. split_and!.
    + case_bool_decide as Hempty; [|reflexivity].
      exfalso. apply (f_equal (fun m : gmap string string => m !! "updated_at")) in Hempty.
      rewrite lookup_union_l' in Hempty by (rewrite lookup_insert_eq; eauto).
      by rewrite lookup_insert_eq in Hempty.
    + rewrite lookup_union_l' by (by rewrite lookup_insert_ne, lookup_singleton_eq; eauto).
      by rewrite lookup_insert_ne, lookup_singleton_eq.
    + rewrite lookup_union_l' by (rewrite lookup_insert_eq; eauto).
      by rewrite lookup_insert_eq.
    + intros Hnone.
      destruct (Redis.hashes d !! SessionStorage._session_key session_id) as [h|] eqn:Hh.
      { rewrite bool_decide_eq_true_2 in Hnone by eauto. done. }
      simpl. rewrite !lookup_union_r by done. done.
Qed.

(** X14.  The in-memory context is a dictionary per session: a value set
    under a key that is not empty is what [get_context] returns for that
    key; the other keys of the session and every other session read as
    before; and [set_context] neither creates the session nor touches its
    messages. *)
Theorem context_round_trip (session_id key value : string) (st : InMemorySessionStorage.t) :
  key <> "" ->
  let st' := InMemorySessionStorage.set_context session_id key value st in
  InMemorySessionStorage.get_context session_id (Some key) st'
  = Some (InMemorySessionStorage.Value value)
  /\ (forall k, k <> key -> k <> "" ->
        InMemorySessionStorage.get_context session_id (Some k) st'
        = InMemorySessionStorage.get_context session_id (Some k) st)
  /\ (forall other k, other <> session_id ->
        InMemorySessionStorage.get_context other k st'
        = InMemorySessionStorage.get_context other k st)
  /\ InMemorySessionStorage.session_exists session_id st'
     = InMemorySessionStorage.session_exists session_id st
  /\ InMemorySessionStorage.get_all_messages session_id st'
     = InMemorySessionStorage.get_all_messages session_id st.
Proof.
  intros Hkey st'. unfold InMemorySessionStorage.get_context. simpl. split_and!.
  - rewrite lookup_insert_eq. destruct (String.eqb_spec key ""); [done|].
    by rewrite lookup_insert_eq.
  - intros k Hk Hne. rewrite lookup_insert_eq.
    destruct (String.eqb_spec k ""); [done|]. rewrite lookup_insert_ne by done.
    destruct (InMemorySessionStorage.contexts st !! session_id); simpl; [done|].
    by rewrite lookup_empty.
  - intros other k Hother. by rewrite lookup_insert_ne.
  - done.
  - done.
Qed.

Lemma storage_callers_fallback (callers : list (option Redis.db * list StoreCall))
    (s : SessionStorage.t) (m : InMemorySessionStorage.t) (k : nat)
    (r : StorageGlobals.Returned) :
  SessionStorage.redis s = None ->
  storage_callers callers
    {| StorageGlobals._storage := Some s; StorageGlobals._fallback_storage := Some m |} !! k
  = Some r ->
  r = StorageGlobals.Fallback (foldl call m (concat (snd <$> take k callers))).
Proof.
  intros Hs. revert m k.
  induction callers as [|[server calls] callers IH]; intros m k Hk; [done|].
  simpl in Hk. unfold StorageGlobals.get_session_storage in Hk. simpl in Hk.
  rewrite Hs in Hk. simpl in Hk.
  destruct k as [|k]; simpl in *.
  - by injection Hk as <-.
  - rewrite foldl_app. by apply IH.
Qed.

(** X15.  Once the first connection attempt has failed, the storage
    accessor never tries Redis again, and every caller is handed the same
    in-memory store: the store handed to the k-th caller holds everything
    the callers before it wrote, whether or not Redis could be reached by
    then. *)
Theorem fallback_is_shared (calls : list StoreCall)
    (callers : list (option Redis.db * list StoreCall)) (k : nat)
    (r : StorageGlobals.Returned) :
  storage_callers ((None, calls) :: callers) StorageGlobals.init !! k = Some r ->
  r = StorageGlobals.Fallback
        (foldl call (InMemorySessionStorage.init 100)
           (concat (snd <$> take k ((None, calls) :: callers)))).
Proof.
  simpl. destruct k as [|k]; simpl.
  - by intros [= <-].
  - intros Hk. rewrite foldl_app.
    by apply (storage_callers_fallback callers (StorageGlobals.connected_storage None)).
Qed.

End StoreEdges.

Lemma save_workflow_session_witness :
  SessionStorage.session_exists "new"
    {| SessionStorage.redis := Some Redis.empty; SessionStorage.max_messages := 100 |} = false
  /\ SessionStorage.session_exists "new"
       (SessionStorage.save_workflow "new" "wf1" "{}" "t"
          {| SessionStorage.redis := Some Redis.empty; SessionStorage.max_messages := 100 |})
     = true
  /\ InMemorySessionStorage.session_exists "new"
       (InMemorySessionStorage.save_workflow "new" "wf1" "{}" "t"
          (InMemorySessionStorage.init 100))
     = false.
Proof.
  destruct (save_workflow_session "new" "wf1" "{}" "t" (InMemorySessionStorage.init 100)
              {| SessionStorage.redis := Some Redis.empty; SessionStorage.max_messages := 100 |}
              Redis.empty eq_refl) as ((_ & Hmem & _) & _ & Hredis & _); [done|].
  split_and!; [reflexivity | exact Hredis |].
  rewrite Hmem. reflexivity.
Defined.

Lemma context_round_trip_witness :
  InMemorySessionStorage.get_context "s" (Some "pending_task")
    (InMemorySessionStorage.set_context "s" "pending_task" "research X"
       (InMemorySessionStorage.init 100))
  = Some (InMemorySessionStorage.Value "research X").
Proof.
  apply (context_round_trip "s" "pending_task" "research X" (InMemorySessionStorage.init 100)).
  discriminate.
Defined.

Lemma fallback_is_shared_witness :
  storage_callers
    [ (None, [CreateSession (Some "s") "u" "t0"; AddMessage "s" "user" "hello" None "m1" "t1"]);
      (Some Redis.empty, []) ] StorageGlobals.init !! 1%nat
  = Some (StorageGlobals.Fallback
            (foldl call (InMemorySessionStorage.init 100)
               [CreateSession (Some "s") "u" "t0";
                AddMessage "s" "user" "hello" None "m1" "t1"])).
Proof.
  destruct (storage_callers
    [ (None, [CreateSession (Some "s") "u" "t0"; AddMessage "s" "user" "hello" None "m1" "t1"]);
      (Some Redis.empty, []) ] StorageGlobals.init !! 1%nat) as [r|] eqn:Hr;
    [|by vm_compute in Hr].
  f_equal.
  apply (fallback_is_shared
           [CreateSession (Some "s") "u" "t0"; AddMessage "s" "user" "hello" None "m1" "t1"]
           [(Some Redis.empty, [])] 1 r Hr).
Defined.

(** ** Realtime bus: delivery, clean-up and the buffer *)

Section Delivery.
Import WebSocketManager.

Variable broken : nat -> bool.

Lemma received_log_sent (c x : nat) (data : Event) (st : t) :
  received c (log_sent x data st)
  = (received c st ++ (if decide (x = c) then [data] else []))%list.
Proof.
  unfold received, log_sent. simpl. rewrite filter_app, map_app.
  f_equal. rewrite filter_cons, filter_nil. simpl. by case_decide.
Qed.

Lemma remove_first_app (x : nat) (p l : list nat) :
  x ∉ p -> remove_first x (p ++ x :: l) = (p ++ l)%list.
Proof.
  induction p as [|y p IH]; simpl; intros Hx.
  - by rewrite decide_True.
  - rewrite decide_False by set_solver. f_equal. apply IH. set_solver.
Qed.

(** The sending pass of [broadcast]. *)
Lemma deliver_spec (data : Event) (l : list nat) (st : t) :
  let st' := foldl (fun st c => if broken c then st else log_sent c data st) st l in
  active_connections st' = active_connections st
  /\ message_buffer st' = message_buffer st
  /\ buffer_size st' = buffer_size st
  /\ forall c,
       received c st'
       = (received c st
          ++ (if broken c then []
              else replicate (length (filter (fun x => x = c) l)) data))%list.
Proof.
  revert st. induction l as [|x l IH]; intros st; simpl.
  - split_and!; [done..|]. intros c. destruct (broken c); by rewrite app_nil_r.
  - specialize (IH (if broken x then st else log_sent x data st)).
    destruct IH as (Ha & Hb & Hs & Hr).
    destruct (broken x) eqn:Hx.
    + split_and!; [done..|]. intros c. rewrite Hr. f_equal.
      destruct (broken c) eqn:Hc; [done|].
      rewrite filter_cons, decide_False; [done|]. intros ->. congruence.
    + split_and!; [done..|]. intros c. rewrite Hr, received_log_sent, <- app_assoc.
      f_equal. rewrite filter_cons.
      case_decide as Hxc; [|done]. subst x. by rewrite Hx.
Qed.

(** The clean-up pass of [broadcast], with the connections already kept
    in front. *)
Lemma cleanup_spec (l p : list nat) (st : t) :
  active_connections st = (p ++ l)%list ->
  Forall (fun c => broken c = false) p ->
  let st' := foldl (fun st c => if broken c then disconnect c st else st) st l in
  active_connections st' = (p ++ filter (fun c => broken c = false) l)%list
  /\ message_buffer st' = message_buffer st
  /\ buffer_size st' = buffer_size st
  /\ sent st' = sent st.
Proof.
  revert p st. induction l as [|x l IH]; intros p st Hst Hp; simpl.
  - by rewrite filter_nil.
  - rewrite filter_cons. destruct (broken x) eqn:Hx.
    + rewrite decide_False by done.
      destruct (IH p (disconnect x st)) as (Ha & Hb & Hs & Hr); [|done|done].
      simpl. rewrite Hst. apply remove_first_app.
      intros Hin. rewrite Forall_forall in Hp. specialize (Hp _ Hin). congruence.
    + rewrite decide_True by done.
      destruct (IH (p ++ [x])%list st) as (Ha & Hb & Hs & Hr).
      * by rewrite <- app_assoc.
      * apply Forall_app. split; [done|]. by constructor.
      * by rewrite <- app_assoc in Ha.
Qed.

(** X16.  [broadcast] delivers and cleans up: every registered connection
    whose socket works receives the event, once for each time it is
    registered, after what it had received; a connection whose send fails
    receives nothing and is no longer registered afterwards; the working
    connections stay, in their order; the buffer is left as it is. *)
Theorem broadcast_delivers (data : Event) (st : t) :
  let st' := broadcast broken data st in
  active_connections st' = filter (fun c => broken c = false) (active_connections st)
  /\ (forall c,
        received c st'
        = (received c st
           ++ (if broken c then [] else replicate (registrations c st) data))%list)
  /\ message_buffer st' = message_buffer st.
Proof.
  unfold broadcast, registrations.
  destruct (deliver_spec data (active_connections st) st) as (Ha & Hb & Hs & Hr).
  set (delivered := foldl (fun st c => if broken c then st else log_sent c data st)
                      st (active_connections st)) in *.
  destruct (cleanup_spec (active_connections st) [] delivered) as (Ha' & Hb' & Hs' & Hr');
    [done | constructor |].
  split_and!.
  - exact Ha'.
  - intros c. unfold received in *. rewrite Hr'. apply Hr.
  - congruence.
Qed.

Lemma send_each_buffer (websocket : nat) (channel : string)
    (msgs : list ChatMessage) (st : t) :
  message_buffer (send_each broken websocket channel msgs st) = message_buffer st
  /\ buffer_size (send_each broken websocket channel msgs st) = buffer_size st
  /\ active_connections (send_each broken websocket channel msgs st)
     = active_connections st.
Proof.
  revert st. induction msgs as [|m msgs IH]; intros st; simpl; [done|].
  destruct (broken websocket); [done|].
  destruct (IH (log_sent websocket (BufferedMessage channel m) st)) as (-> & -> & ->). done.
Qed.

(** X18.  A socket whose sends fail is dropped by [broadcast] and by
    [connect], but not by [send_buffered_messages]: that call delivers
    nothing and leaves the manager as it was, the connection still
    registered. *)
Theorem broken_socket_dropped (websocket : nat) (channel client_id : string)
    (data : Event) (st : t) :
  broken websocket = true ->
  send_buffered_messages broken websocket channel st = st
  /\ (websocket ∉ active_connections (broadcast broken data st))
  /\ received websocket (broadcast broken data st) = received websocket st
  /\ ((websocket ∉ active_connections st) ->
      active_connections (connect broken websocket client_id st) = active_connections st
      /\ received websocket (connect broken websocket client_id st) = received websocket st).
Proof.
  intros Hbroken. split_and!.
  - unfold send_buffered_messages. destruct (message_buffer st !! channel) as [msgs|]; [|done].
    destruct msgs; simpl; [done|]. by rewrite Hbroken.
  - destruct (broadcast_delivers data st) as (-> & _).
    intros [Hok _]%list_elem_of_filter. congruence.
  - destruct (broadcast_delivers data st) as (_ & -> & _).
    by rewrite Hbroken, app_nil_r.
  - intros Hout. unfold connect, send_to_client. rewrite Hbroken. simpl.
    split; [|done]. rewrite (remove_first_app websocket (active_connections st) []) by done.
    by rewrite app_nil_r.
Qed.

End Delivery.

Section Buffer.
Import WebSocketManager.

Lemma connect_buffer_size (broken : nat -> bool) (websocket : nat) (client_id : string)
    (st : t) :
  buffer_size (connect broken websocket client_id st) = buffer_size st.
Proof. unfold connect, send_to_client. by destruct (broken websocket). Qed.

Lemma bus_call_buffer (c : (nat -> bool) * BusCall) (all : list ChatMessage) (st : t) :
  buffer_size st = 50 ->
  default [] (message_buffer st !! "chat") = Spec.last_n 50 all ->
  (forall channel, channel <> "chat" -> message_buffer st !! channel = None) ->
  buffer_size (bus_call st c) = 50
  /\ default [] (message_buffer (bus_call st c) !! "chat")
     = Spec.last_n 50 (all ++ chat_messages_of [c])
  /\ (forall channel, channel <> "chat" -> message_buffer (bus_call st c) !! channel = None).
Proof.
  intros Hsize Hchat Hother. destruct c as [broken [ws id|ws|m|sid chunk fin|ws ch]].
  - change (bus_call st (broken, Connect ws id)) with (connect broken ws id st).
    change (chat_messages_of [(broken, Connect ws id)]) with (@nil ChatMessage).
    by rewrite app_nil_r, connect_buffer_size, connect_buffer.
  - change (bus_call st (broken, Disconnect ws)) with (disconnect ws st).
    change (chat_messages_of [(broken, Disconnect ws)]) with (@nil ChatMessage).
    by rewrite app_nil_r.
  - change (bus_call st (broken, BroadcastChatMessage m))
      with (broadcast_chat_message broken m st).
    change (chat_messages_of [(broken, BroadcastChatMessage m)]) with [m].
    destruct (broadcast_buffer broken (ChatMessageEvent m) st) as [Hb Hs].
    unfold broadcast_chat_message. split_and!.
    + unfold _buffer_message. simpl. congruence.
    + rewrite buffer_message_last by congruence. rewrite Hb, Hchat.
      apply last_n_snoc. lia.
    + intros channel Hne. unfold _buffer_message. simpl.
      rewrite lookup_insert_ne by done. rewrite Hb. by apply Hother.
  - change (bus_call st (broken, BroadcastChatStream sid chunk fin))
      with (broadcast_chat_stream broken sid chunk fin st).
    change (chat_messages_of [(broken, BroadcastChatStream sid chunk fin)])
      with (@nil ChatMessage).
    destruct (broadcast_buffer broken (ChatStream sid chunk fin) st) as [Hb Hs].
    unfold broadcast_chat_stream. by rewrite app_nil_r, Hb, Hs.
  - change (bus_call st (broken, SendBufferedMessages ws ch))
      with (send_buffered_messages broken ws ch st).
    change (chat_messages_of [(broken, SendBufferedMessages ws ch)])
      with (@nil ChatMessage).
    rewrite app_nil_r. unfold send_buffered_messages.
    destruct (message_buffer st !! ch) as [msgs|] eqn:Hch; [|done].
    destruct (send_each_buffer broken ws ch msgs st) as (-> & -> & _). done.
Qed.

Lemma chat_messages_of_cons (c : (nat -> bool) * BusCall)
    (calls : list ((nat -> bool) * BusCall)) :
  chat_messages_of (c :: calls) = (chat_messages_of [c] ++ chat_messages_of calls)%list.
Proof. destruct c as [broken []]; reflexivity. Qed.

(** X17.  The chat buffer over the life of a manager: after every sequence
    of connects, disconnects, chat-message broadcasts, stream broadcasts
    and buffer replays on a new manager, whichever sockets fail along the
    way, the channel "chat" holds exactly the last 50 chat messages
    broadcast, oldest first, and no other channel holds anything. *)
Theorem chat_buffer_holds_last_50 (calls : list ((nat -> bool) * BusCall)) :
  let st := foldl bus_call init calls in
  default [] (message_buffer st !! "chat") = Spec.last_n 50 (chat_messages_of calls)
  /\ (length (default [] (message_buffer st !! "chat")) <= 50)%nat
  /\ forall channel, channel <> "chat" -> message_buffer st !! channel = None.
Proof.
  assert (Hmain : forall calls all st,
    buffer_size st = 50 ->
    default [] (message_buffer st !! "chat") = Spec.last_n 50 all ->
    (forall channel, channel <> "chat" -> message_buffer st !! channel = None) ->
    default [] (message_buffer (foldl bus_call st calls) !! "chat")
    = Spec.last_n 50 (all ++ chat_messages_of calls)
    /\ (forall channel, channel <> "chat" ->
          message_buffer (foldl bus_call st calls) !! channel = None)).
  { clear. intros calls. induction calls as [|c calls IH]; intros all st Hsize Hchat Hother.
    - simpl. by rewrite app_nil_r.
    - destruct (bus_call_buffer c all st Hsize Hchat Hother) as (Hsize' & Hchat' & Hother').
      simpl. destruct (IH _ _ Hsize' Hchat' Hother') as [Hc Ho].
      split; [|done]. rewrite Hc, <- app_assoc. by rewrite <- chat_messages_of_cons. }
  intros st. destruct (Hmain calls [] init) as [Hc Ho]; [done..|].
  fold st in Hc, Ho. split_and!; [done| |done].
  rewrite Hc. unfold Spec.last_n. rewrite length_drop. lia.
Qed.

End Buffer.

Lemma broken_socket_dropped_witness :
  let broken := fun c : nat => Nat.eqb c 0 in
  let st := WebSocketManager.broadcast_chat_message (fun _ => false)
              {| WebSocketManager.cm_session_id := "S6"; WebSocketManager.cm_role := "user";
                 WebSocketManager.cm_content := "hello" |}
              (WebSocketManager.connect (fun _ => false) 0 "early" WebSocketManager.init) in
  WebSocketManager.active_connections st = [0%nat]
  /\ WebSocketManager.send_buffered_messages broken 0 "chat" st = st
  /\ (0%nat ∉ WebSocketManager.active_connections
                (WebSocketManager.broadcast broken (WebSocketManager.ChatStream "S6" "a" false) st)).
Proof.
  intros broken st.
  destruct (broken_socket_dropped broken 0 "chat" "early"
              (WebSocketManager.ChatStream "S6" "a" false) st eq_refl) as (H1 & H2 & _).
  split_and!; [reflexivity | exact H1 | exact H2].
Defined.

(** ** Agent manager: the registries, termination, templates *)

Section Registry.
Import AgentManager.

Lemma create_agent_consistent (name role : string) (system_prompt model_arg : option string)
    (capabilities : option (list string)) (parent_id : option string)
    (use_template : bool) (uuid : string) (openclaw_session : option string) (st : t) :
  uuid <> "" ->
  agents st !! uuid = None ->
  registry_consistent st ->
  registry_consistent
    (manager_call st (CreateAgent name role system_prompt model_arg capabilities parent_id
                        use_template uuid openclaw_session)).
Proof.
  intros Hne Hfresh [Hnames Hids]. unfold manager_call, create_agent.
  case_bool_decide as Htaken; [done|].
  assert (agent_by_name st !! name = None) as Hfree.
  { destruct (agent_by_name st !! name) eqn:E; [|done]. exfalso. apply Htaken. eauto. }
  split; simpl.
  - intros n id. destruct (decide (n = name)) as [->|Hn].
    + rewrite lookup_insert_eq. split.
      * intros [= <-]. rewrite lookup_insert_eq. eauto.
      * intros (agent & Hagent & Hname).
        destruct (decide (id = uuid)) as [->|Hid]; [done|].
        rewrite lookup_insert_ne in Hagent by done.
        assert (agent_by_name st !! name = Some id) as Hold by (apply Hnames; eauto).
        congruence.
    + rewrite lookup_insert_ne by done. rewrite Hnames. split.
      * intros (agent & Hagent & Hname). exists agent. split; [|done].
        rewrite lookup_insert_ne; [done|]. intros <-. congruence.
      * intros (agent & Hagent & Hname).
        destruct (decide (id = uuid)) as [->|Hid].
        -- rewrite lookup_insert_eq in Hagent. injection Hagent as <-. simpl in Hname. done.
        -- rewrite lookup_insert_ne in Hagent by done. eauto.
  - intros id agent. destruct (decide (id = uuid)) as [->|Hid].
    + rewrite lookup_insert_eq. by intros [= <-].
    + rewrite lookup_insert_ne by done. apply Hids.
Qed.

Lemma terminate_agent_consistent (agent_id : string) (st : t) :
  registry_consistent st -> registry_consistent (manager_call st (TerminateAgent agent_id)).
Proof.
  intros [Hnames Hids]. unfold manager_call, terminate_agent.
  destruct (agents st !! agent_id) as [agent|] eqn:Hagent; [|done].
  split; simpl.
  - intros n id. destruct (decide (n = agent_name agent)) as [->|Hn].
    + rewrite lookup_delete_eq. split; [done|].
      intros (a & Ha & Hname). exfalso.
      destruct (decide (id = agent_id)) as [->|Hid]; [by rewrite lookup_delete_eq in Ha|].
      rewrite lookup_delete_ne in Ha by done.
      assert (agent_by_name st !! agent_name agent = Some id) as H1 by (apply Hnames; eauto).
      assert (agent_by_name st !! agent_name agent = Some agent_id) as H2
        by (apply Hnames; eauto).
      congruence.
    + rewrite lookup_delete_ne by done. rewrite Hnames. split.
      * intros (a & Ha & Hname). exists a. split; [|done].
        rewrite lookup_delete_ne; [done|]. intros <-. congruence.
      * intros (a & Ha & Hname).
        destruct (decide (id = agent_id)) as [->|Hid]; [by rewrite lookup_delete_eq in Ha|].
        rewrite lookup_delete_ne in Ha by done. eauto.
  - intros id a. destruct (decide (id = agent_id)) as [->|Hid].
    + by rewrite lookup_delete_eq.
    + rewrite lookup_delete_ne by done. apply Hids.
Qed.

Lemma calls_consistent (calls : list ManagerCall) (st : t) :
  registry_consistent st -> fresh_ids st calls ->
  registry_consistent (foldl manager_call st calls).
Proof.
  revert st. induction calls as [|c calls IH]; intros st Hst Hfresh; [done|].
  destruct Hfresh as [Hc Hrest]. simpl. apply IH; [|done].
  destruct c; [destruct Hc; by apply create_agent_consistent
              | by apply terminate_agent_consistent].
Qed.

(** X19.  The agent registries stay in step.  After every sequence of
    [create_agent] and [terminate_agent] calls on a new manager (each
    [uuid4()] giving an unused id), no two registered agents share a name,
    every registered agent is found by its id, and, when its name is not
    empty, by its name. *)
Theorem agent_names_unique (model : string) (calls : list ManagerCall) :
  fresh_ids (init model) calls ->
  let st := foldl manager_call (init model) calls in
  (forall id1 id2 agent1 agent2,
     agents st !! id1 = Some agent1 ->
     agents st !! id2 = Some agent2 ->
     agent_name agent1 = agent_name agent2 ->
     id1 = id2)
  /\ (forall id agent,
        agents st !! id = Some agent ->
        get_agent (Some id) None st = Some agent
        /\ (agent_name agent <> "" ->
            get_agent None (Some (agent_name agent)) st = Some agent)).
Proof.
  intros Hfresh st.
  assert (Hst : registry_consistent st).
  { apply calls_consistent; [|done]. split; simpl.
    - intros name id. rewrite lookup_empty. split; [done|].
      intros (a & Ha & _). by rewrite lookup_empty in Ha.
    - intros id a. by rewrite lookup_empty. }
  destruct Hst as [Hnames Hids]. split.
  - intros id1 id2 a1 a2 H1 H2 Hname.
    assert (agent_by_name st !! agent_name a1 = Some id1) as E1 by (apply Hnames; eauto).
    assert (agent_by_name st !! agent_name a1 = Some id2) as E2 by (apply Hnames; eauto).
    congruence.
  - intros id agent Hagent. destruct (Hids _ _ Hagent) as [_ Hid].
    assert (truthy (Some id) = Some id) as Htid.
    { simpl. by destruct (String.eqb_spec id ""). }
    split.
    + unfold get_agent. by rewrite Htid.
    + intros Hname. unfold get_agent. simpl.
      destruct (String.eqb_spec (agent_name agent) ""); [done|].
      assert (agent_by_name st !! agent_name agent = Some id) as -> by (apply Hnames; eauto).
      by rewrite Htid.
Qed.

(** X20.  Terminating an agent frees its name.  [terminate_agent] of a
    registered agent returns true and removes it from both registries, so
    a second [terminate_agent] returns false and changes nothing, and
    [create_agent] with the same name succeeds again; before, that name
    was refused with a [ValueError] (the registries being in step). *)
Theorem terminate_frees_name (agent_id role uuid : string) (agent : Agent) (st : t) :
  registry_consistent st ->
  agents st !! agent_id = Some agent ->
  let st' := (terminate_agent agent_id st).2 in
  (terminate_agent agent_id st).1 = true
  /\ agents st' !! agent_id = None
  /\ agent_by_name st' !! agent_name agent = None
  /\ terminate_agent agent_id st' = (false, st')
  /\ created (create_agent (agent_name agent) role None None None None true uuid None st)
     = None
  /\ agent_name
       <$> created (create_agent (agent_name agent) role None None None None true uuid None st')
     = Some (agent_name agent).
Proof.
  intros [Hnames _] Hagent st'. unfold st', terminate_agent. rewrite Hagent. simpl.
  split_and!.
  - done.
  - by rewrite lookup_delete_eq.
  - by rewrite lookup_delete_eq.
  - by rewrite lookup_delete_eq.
  - unfold create_agent. rewrite bool_decide_eq_true_2; [done|].
    exists agent_id. apply Hnames. eauto.
  - unfold create_agent. simpl. rewrite lookup_delete_eq.
    rewrite bool_decide_eq_false_2 by (by intros [? ?]). done.
Qed.

Lemma template_role (value : string) (tpl : Template) :
  templates !! value = Some tpl -> AgentRole_of_value value = Some (t_role tpl).
Proof.
  unfold templates, AgentRole_of_value. intros Htpl.
  repeat match goal with
         | |- context [String.eqb value ?k] =>
             destruct (String.eqb_spec value k) as [->|?];
               [by vm_compute in Htpl; injection Htpl as <-|]
         end.
  rewrite !lookup_insert_ne in Htpl by done. by rewrite lookup_empty in Htpl.
Qed.

(** X21.  Templates.  For a free name and a role whose lower-cased form
    names one of the built-in templates, [create_agent] with
    [use_template] gives the agent the role of that template, the
    template's system prompt unless an explicit one (not empty) is passed,
    and the template's capabilities unless explicit ones (not empty) are
    passed; the agent starts in status pending, with the model passed or
    else the manager's. *)
Theorem create_agent_from_template (name role : string)
    (system_prompt model_arg : option string) (capabilities : option (list string))
    (parent_id : option string) (uuid : string) (openclaw_session : option string)
    (tpl : Template) (st : t) :
  agent_by_name st !! name = None ->
  templates !! PyStr.lower role = Some tpl ->
  exists agent st',
    create_agent name role system_prompt model_arg capabilities parent_id true
      uuid openclaw_session st = Ok (agent, st')
    /\ agent_role agent = t_role tpl
    /\ agent_system_prompt agent = str_or system_prompt (t_system_prompt tpl)
    /\ agent_capabilities agent = list_or capabilities (t_capabilities tpl)
    /\ agent_status agent = PENDING
    /\ agent_model agent = str_or model_arg (model st)
    /\ get_agent None (Some name) st' = (if String.eqb name "" then None
                                         else if String.eqb uuid "" then None
                                         else Some agent).
Proof.
  intros Hname Htpl. unfold create_agent.
  rewrite Hname, bool_decide_false by (by intros [? ?]).
  rewrite Htpl, (template_role _ _ Htpl).
  eexists _, _. split; [reflexivity|]. simpl. split_and!; try done.
  unfold get_agent. simpl. destruct (String.eqb name ""); [done|].
  rewrite lookup_insert_eq. simpl. destruct (String.eqb uuid ""); [done|].
  by rewrite lookup_insert_eq.
Qed.

End Registry.

Lemma agent_names_unique_witness :
  let st := foldl manager_call (AgentManager.init "m")
              [ CreateAgent "a" "code" None None None None true "id-1" None;
                CreateAgent "a" "review" None None None None true "id-2" None;
                TerminateAgent "id-1";
                CreateAgent "a" "verify" None None None None true "id-3" None ] in
  (AgentManager.agent_role <$> AgentManager.get_agent None (Some "a") st)
  = Some AgentManager.VERIFY
  /\ forall id1 id2 agent1 agent2,
       AgentManager.agents st !! id1 = Some agent1 ->
       AgentManager.agents st !! id2 = Some agent2 ->
       AgentManager.agent_name agent1 = AgentManager.agent_name agent2 ->
       id1 = id2.
Proof.
  intros st. split; [by vm_compute|].
  apply (agent_names_unique "m"
           [ CreateAgent "a" "code" None None None None true "id-1" None;
             CreateAgent "a" "review" None None None None true "id-2" None;
             TerminateAgent "id-1";
             CreateAgent "a" "verify" None None None None true "id-3" None ]).
  simpl. split_and!; try done; by vm_compute.
Defined.

Lemma terminate_frees_name_witness :
  let st := manager_call (AgentManager.init "m")
              (CreateAgent "a" "code" None None None None true "id-1" None) in
  (AgentManager.terminate_agent "id-1" st).1 = true
  /\ AgentManager.created
       (AgentManager.create_agent "a" "code" None None None None true "id-2" None st)
     = None
  /\ (AgentManager.agent_name
        <$> AgentManager.created
              (AgentManager.create_agent "a" "code" None None None None true "id-2" None
                 (AgentManager.terminate_agent "id-1" st).2))
     = Some "a".
Proof.
  intros st.
  destruct (AgentManager.agents st !! "id-1") as [agent|] eqn:Hagent;
    [|by vm_compute in Hagent].
  assert (AgentManager.agent_name agent = "a") as Hname.
  { vm_compute in Hagent. by injection Hagent as <-. }
  destruct (terminate_frees_name "id-1" "code" "id-2" agent st) as (H1 & _ & _ & _ & H2 & H3).
  - apply (create_agent_consistent "a" "code" None None None None true "id-1" None
             (AgentManager.init "m")); [done | done |].
    split; simpl.
    + intros name id. rewrite lookup_empty. split; [done|].
      intros (a & Ha & _). by rewrite lookup_empty in Ha.
    + intros id a. by rewrite lookup_empty.
  - exact Hagent.
  - rewrite Hname in H2, H3. split_and!; done.
Defined.

Lemma create_agent_from_template_witness :
  exists agent st',
    AgentManager.create_agent "reviewer-1" "Review" None None None None true "id-1" None
      (AgentManager.init "deepseek-r1:14b") = AgentManager.Ok (agent, st')
    /\ AgentManager.agent_role agent = AgentManager.REVIEW
    /\ AgentManager.agent_capabilities agent
       = ["code_review"; "document_review"; "quality_assessment"].
Proof.
  destruct (create_agent_from_template "reviewer-1" "Review" None None None None "id-1" None
              {| AgentManager.t_role := AgentManager.REVIEW;
                 AgentManager.t_system_prompt := "You are a Review Agent. Your task is to review and critique work.
Provide constructive feedback and suggestions for improvement.
Be thorough but fair in your assessment.";
                 AgentManager.t_capabilities :=
                   ["code_review"; "document_review"; "quality_assessment"] |}
              (AgentManager.init "deepseek-r1:14b"))
    as (agent & st' & Hcreate & Hrole & _ & Hcaps & _); [done | by vm_compute |].
  exists agent, st'. split_and!; done.
Defined.

(** ** Reflection: insights and table advice *)

Section Insights.
Import MemoryLearning.

Lemma error_type_of_cases (e : string) :
  error_type_of e ∈ ["Test failures"; "Syntax errors"; "Import errors"; "Type errors";
                     "Quality check failures"; "Implementation errors"].
Proof.
  unfold error_type_of.
  repeat match goal with |- context [if ?b then _ else _] => destruct b end;
    set_solver.
Qed.

Lemma split_head_pattern (e : string) (n : Z) :
  PyStr.split_head " occurred" (pattern_line (error_type_of e, n)) = error_type_of e.
Proof.
  unfold pattern_line. cbn [fst snd].
  pose proof (error_type_of_cases e) as He.
  repeat (apply elem_of_cons in He as [->|He]; [reflexivity|]).
  by apply elem_of_nil in He.
Qed.

(** A bucket that occurs is the bucket of one of the errors. *)
Lemma occurrences_positive (bucket : string) (errors : list string) :
  0 < Spec.occurrences bucket errors ->
  exists e, e ∈ errors /\ error_type_of e = bucket.
Proof.
  unfold Spec.occurrences. intros Hpos.
  destruct (filter (fun e => Spec.bucket_of e = bucket) errors) as [|e l] eqn:Hf;
    [simpl in Hpos; lia|].
  assert (e ∈ filter (fun e => Spec.bucket_of e = bucket) errors) as Hin
    by (rewrite Hf; left).
  apply list_elem_of_filter in Hin as [He Hin].
  exists e. split; [done|]. by rewrite error_type_of_bucket.
Qed.

Lemma occurrences_of_error (e : string) (errors : list string) :
  e ∈ errors -> 0 < Spec.occurrences (error_type_of e) errors.
Proof.
  intros Hin. unfold Spec.occurrences.
  assert (e ∈ filter (fun e' => Spec.bucket_of e' = error_type_of e) errors) as Hf.
  { apply list_elem_of_filter. split; [|done]. by rewrite error_type_of_bucket. }
  destruct (filter _ errors); [by apply elem_of_nil in Hf|]. simpl. lia.
Qed.

(** X22.  The primary challenge is the most frequent failure bucket.  When
    at least one attempt failed and every failed attempt carries an error
    string (or no error key), the insights of [reflect] start with the
    outcome line, and their second line is "Primary challenge: {bucket}"
    for a bucket in which no fewer failed attempts fall than in any
    other. *)
Theorem primary_challenge_most_frequent (format_avg : Z -> nat -> string)
    (story_title : string) (total_attempts : Z) (final_success : bool)
    (all_attempts : list Attempt) :
  let failures := filter (fun a => success a = false) all_attempts in
  Forall (fun f => error f <> ErrNone) failures ->
  failures <> [] ->
  exists insights bucket,
    reflect_insights format_avg story_title total_attempts final_success all_attempts
    = Some insights
    /\ insights !! 0%nat = Some (outcome_insight story_title total_attempts final_success)
    /\ insights !! 1%nat = Some ("Primary challenge: " ++ bucket)
    /\ 0 < Spec.occurrences bucket (omap failure_error failures)
    /\ forall other,
         Spec.occurrences other (omap failure_error failures)
         <= Spec.occurrences bucket (omap failure_error failures).
Proof.
  intros failures Hf Hne.
  destruct (analyze_failure_patterns_spec failures Hf) as (items & Heq & Hnd & Hin & Hs).
  set (errors := omap failure_error failures) in *.
  assert (exists e, e ∈ errors) as [e0 He0].
  { destruct failures as [|f failures']; [done|].
    apply Forall_cons in Hf as [Hf0 _]. unfold errors. simpl.
    destruct f as [a s c [| |e] q]; simpl in *; [eexists; left | done | eexists; left]. }
  destruct items as [|[bucket n] items].
  { exfalso. pose proof (occurrences_of_error e0 errors He0) as Hpos.
    assert ((error_type_of e0, Spec.occurrences (error_type_of e0) errors) ∈ [])
      as Hbad by (by apply Hin).
    by apply elem_of_nil in Hbad. }
  assert (Hhead : n = Spec.occurrences bucket errors /\ 0 < n) by (apply Hin; left).
  destruct Hhead as [-> Hpos].
  destruct (occurrences_positive _ _ Hpos) as (e & _ & <-).
  eexists _, (error_type_of e). split_and!.
  - unfold reflect_insights, reflect. fold failures. rewrite Heq. reflexivity.
  - reflexivity.
  - simpl. by rewrite split_head_pattern.
  - done.
  - intros other.
    destruct (decide (0 < Spec.occurrences other errors)) as [Ho|Ho]; [|lia].
    assert ((other, Spec.occurrences other errors)
            ∈ (error_type_of e, Spec.occurrences (error_type_of e) errors) :: items) as Hoin
      by (by apply Hin).
    apply elem_of_cons in Hoin as [[= -> ?]|Hoin]; [lia|].
    inversion_clear Hs as [|? ? _ Hall]. rewrite Forall_forall in Hall.
    specialize (Hall _ Hoin). simpl in Hall. lia.
Qed.

Lemma uint_chars (u : Decimal.uint) :
  Forall (fun ch => (nat_of_ascii ch < 65)%nat)
    (list_ascii_of_string (NilEmpty.string_of_uint u)).
Proof. induction u; simpl; constructor; try done; vm_compute; lia. Qed.

Lemma str_int_chars (n : Z) :
  Forall (fun ch => (nat_of_ascii ch < 65)%nat) (list_ascii_of_string (PyStr.str_int n)).
Proof.
  unfold PyStr.str_int, NilZero.string_of_int, NilZero.string_of_uint.
  destruct (Z.to_int n) as [u|u].
  - destruct u; try apply uint_chars. repeat constructor.
  - constructor; [vm_compute; lia|].
    destruct u; try apply uint_chars. repeat constructor.
Qed.

Lemma list_ascii_of_string_app (s1 s2 : string) :
  list_ascii_of_string (s1 ++ s2)
  = (list_ascii_of_string s1 ++ list_ascii_of_string s2)%list.
Proof.
  induction s1 as [|a s1 IH]; [done|].
  change ((String a s1 ++ s2)%string) with (String a (s1 ++ s2)).
  simpl. by rewrite IH.
Qed.

Lemma string_app_assoc (s1 s2 s3 : string) :
  ((s1 ++ s2) ++ s3 = s1 ++ s2 ++ s3)%string.
Proof.
  induction s1 as [|a s1 IH]; [done|].
  change (String a ((s1 ++ s2) ++ s3) = String a (s1 ++ s2 ++ s3))%string.
  by rewrite IH.
Qed.

Lemma prefix_app (needle s1 s2 : string) :
  (String.length needle <= String.length s1)%nat ->
  String.prefix needle (s1 ++ s2) = String.prefix needle s1.
Proof.
  revert s1. induction needle as [|c needle IH]; intros s1 Hlen.
  - by destruct s1, s2.
  - destruct s1 as [|a s1]; [simpl in Hlen; lia|].
    change ((String a s1 ++ s2)%string) with (String a (s1 ++ s2)).
    simpl. destruct (ascii_dec c a); [|done]. apply IH. simpl in Hlen. lia.
Qed.

Lemma contains_absent (c : ascii) (needle hay : string) :
  Forall (fun ch => ch <> c) (list_ascii_of_string hay) ->
  PyStr.contains (String c needle) hay = false.
Proof.
  induction hay as [|a hay IH]; intros Hhay; [done|].
  apply Forall_cons in Hhay as [Ha Hhay]. simpl.
  destruct (ascii_dec c a) as [->|_]; [done|]. by apply IH.
Qed.

(** Looking for a word that starts with a capital in a pattern line: only
    the start of the line can match. *)
Lemma contains_line (c b : ascii) (needle bucket digits : string) :
  (65 <= nat_of_ascii c)%nat ->
  Forall (fun ch => (nat_of_ascii ch < 65)%nat) (list_ascii_of_string digits) ->
  forallb (fun ch => negb (Ascii.eqb ch c))
    (list_ascii_of_string (bucket ++ " occurred in " ++ " attempt(s)")) = true ->
  (String.length (String c needle) <= String.length (String b bucket ++ " occurred in "))%nat ->
  PyStr.contains (String c needle)
    (String b bucket ++ " occurred in " ++ digits ++ " attempt(s)")
  = String.prefix (String c needle) (String b bucket ++ " occurred in ").
Proof.
  intros Hc Hd Hrest Hlen.
  rewrite <- (prefix_app _ _ (digits ++ " attempt(s)") Hlen).
  rewrite string_app_assoc.
  change ((String b bucket ++ " occurred in " ++ digits ++ " attempt(s)")%string)
    with (String b (bucket ++ " occurred in " ++ digits ++ " attempt(s)")).
  cbn [PyStr.contains].
  rewrite contains_absent; [by destruct (String.prefix _ _)|].
  rewrite forallb_forall in Hrest.
  rewrite !list_ascii_of_string_app in *.
  rewrite !Forall_app. split_and!.
  - apply Forall_forall. intros ch Hch ->.
    specialize (Hrest c). rewrite Ascii.eqb_refl in Hrest.
    assert (false = true) by (apply Hrest, list_elem_of_In; set_solver). done.
  - apply Forall_forall. intros ch Hch ->.
    specialize (Hrest c). rewrite Ascii.eqb_refl in Hrest.
    assert (false = true) by (apply Hrest, list_elem_of_In; set_solver). done.
  - eapply Forall_impl; [exact Hd|]. simpl. intros ch Hch ->. lia.
  - apply Forall_forall. intros ch Hch ->.
    specialize (Hrest c). rewrite Ascii.eqb_refl in Hrest.
    assert (false = true) by (apply Hrest, list_elem_of_In; set_solver). done.
Qed.

(** The advice [recommendation_for] gives for the pattern line of a
    bucket is the table's. *)
Lemma recommendation_for_line (e : string) (n : Z) :
  recommendation_for (pattern_line (error_type_of e, n))
  = (filter (fun p => p.1 = error_type_of e) Spec.advice_table).*2.
Proof.
  unfold pattern_line. cbn [fst snd].
  pose proof (str_int_chars n) as Hd. revert Hd. generalize (PyStr.str_int n). intros d Hd.
  pose proof (error_type_of_cases e) as He.
  repeat (apply elem_of_cons in He as [->|He];
          [unfold recommendation_for;
           rewrite !contains_line by (done || (vm_compute; lia) || (vm_compute; done));
           reflexivity|]).
  by apply elem_of_nil in He.
Qed.

Lemma recommendation_for_lines (items : list (string * Z)) :
  (forall item, item ∈ items -> exists e, item.1 = error_type_of e) ->
  map recommendation_for (map pattern_line items)
  = map (fun b => (filter (fun p => p.1 = b) Spec.advice_table).*2) items.*1.
Proof.
  induction items as [|[b n] items IH]; intros Hall; [done|]. csimpl. f_equal.
  - destruct (Hall (b, n)) as [e He]; [left|]. simpl in He. subst b.
    apply recommendation_for_line.
  - apply IH. intros item Hitem. apply Hall. by right.
Qed.

Lemma advice_table_bucket (bucket bucket' advice : string) :
  (bucket, advice) ∈ Spec.advice_table -> (bucket', advice) ∈ Spec.advice_table ->
  bucket = bucket'.
Proof.
  unfold Spec.advice_table. rewrite !elem_of_cons, !elem_of_nil. naive_solver.
Qed.

Lemma advice_for_elem_of (bucket advice : string) :
  advice ∈ (filter (fun p => p.1 = bucket) Spec.advice_table).*2
  <-> (bucket, advice) ∈ Spec.advice_table.
Proof.
  rewrite list_elem_of_fmap. split.
  - intros ([b a] & -> & [Hb Hin]%list_elem_of_filter). simpl in *. by subst.
  - intros Hin. exists (bucket, advice). split; [done|].
    apply list_elem_of_filter. done.
Qed.

Lemma advice_NoDup (buckets : list string) :
  NoDup buckets ->
  NoDup (concat (map (fun b => (filter (fun p => p.1 = b) Spec.advice_table).*2) buckets)).
Proof.
  induction 1 as [|b buckets Hb Hnd IH]; simpl; [constructor|].
  apply NoDup_app. split_and!.
  - eapply sublist_NoDup; [|apply fmap_sublist, sublist_filter].
    unfold Spec.advice_table. simpl. repeat (constructor; [set_solver|]). constructor.
  - intros a Ha%advice_for_elem_of Hin.
    apply list_elem_of_In, in_concat in Hin as (l & Hl & Hal).
    apply in_map_iff in Hl as (b' & <- & Hb').
    apply list_elem_of_In, advice_for_elem_of in Hal.
    rewrite (advice_table_bucket _ _ _ Ha Hal) in Hb.
    by apply list_elem_of_In in Hb'.
  - done.
Qed.

(** X23.  The table advice is given exactly when it applies, and the cap
    of five never cuts it.  When [reflect] returns and every failed
    attempt carries an error string (or no error key), each of the four
    pieces of advice of the recommendation table is among the
    recommendations if and only if at least one failed attempt falls in
    its bucket. *)
Theorem reflect_table_advice (format_avg : Z -> nat -> string)
    (all_attempts : list Attempt) (derived : Derived) :
  let failures := filter (fun a => success a = false) all_attempts in
  reflect format_avg all_attempts = Some derived ->
  Forall (fun f => error f <> ErrNone) failures ->
  forall bucket advice,
    (bucket, advice) ∈ Spec.advice_table ->
    advice ∈ recommendations derived
    <-> 0 < Spec.occurrences bucket (omap failure_error failures).
Proof.
  intros failures Hr Hf bucket advice Htable.
  destruct (analyze_failure_patterns_spec failures Hf) as (items & Heq & Hnd & Hin & _).
  set (errors := omap failure_error failures) in *.
  unfold reflect in Hr. fold failures in Hr. rewrite Heq in Hr. injection Hr as <-.
  cbn [recommendations]. unfold _generate_recommendations.
  set (factors := _analyze_success_factors _ _ _).
  set (advice_for := fun b => (filter (fun p : string * string => p.1 = b)
                                 Spec.advice_table).*2).
  assert (Hraw : concat (map recommendation_for (map pattern_line items))
                 = concat (map advice_for items.*1)).
  { f_equal. apply recommendation_for_lines.
    intros [b n] Hitem. apply Hin in Hitem as [-> Hpos].
    destruct (occurrences_positive _ _ Hpos) as (e & _ & <-). eauto. }
  rewrite Hraw. set (raw := concat (map advice_for items.*1)).
  assert (Hraw_in : forall a, a ∈ raw <-> exists b, b ∈ items.*1 /\ (b, a) ∈ Spec.advice_table).
  { intros a. unfold raw. rewrite list_elem_of_In, in_concat. split.
    - intros (l & Hl & Hal). apply in_map_iff in Hl as (b & <- & Hb).
      exists b. split; [by apply list_elem_of_In|].
      by apply advice_for_elem_of, list_elem_of_In.
    - intros (b & Hb & Hba). exists (advice_for b). split.
      + apply in_map_iff. exists b. split; [done|]. by apply list_elem_of_In.
      + by apply list_elem_of_In, advice_for_elem_of. }
  assert (Hlen : (length raw <= 4)%nat).
  { change 4%nat with (length Spec.advice_table.*2).
    apply submseteq_length, NoDup_submseteq; [by apply advice_NoDup|].
    intros a (b & _ & Hba)%Hraw_in. apply list_elem_of_fmap. by exists (b, a). }
  assert (advice <> "Retry with refined approach when initial attempt fails"
          /\ advice <> "Break complex tasks into smaller incremental changes"
          /\ advice <> "Run quality checks after each significant change") as (N1 & N2 & N3).
  { unfold Spec.advice_table in Htable.
    rewrite !elem_of_cons, elem_of_nil in Htable. naive_solver. }
  set (r1 := if mentions_persistence factors
             then (raw ++ ["Retry with refined approach when initial attempt fails"])%list
             else raw).
  assert (Hr1 : (length r1 <= 5)%nat /\ (advice ∈ r1 <-> advice ∈ raw)).
  { unfold r1. destruct (mentions_persistence factors); [|split; [lia|done]].
    rewrite length_app. simpl. split; [lia|]. set_solver. }
  destruct Hr1 as [Hlen1 Hin1].
  assert (Hfinal : advice ∈ take 5 match r1 with
                                   | [] => ["Break complex tasks into smaller incremental changes";
                                            "Run quality checks after each significant change"]
                                   | _ :: _ => r1
                                   end
                   <-> advice ∈ raw).
  { rewrite <- Hin1. destruct r1 as [|r rs]; [set_solver|]. by rewrite take_ge. }
  rewrite Hfinal.
  rewrite Hraw_in. split.
  - intros (b & Hb & Hba). rewrite (advice_table_bucket _ _ _ Htable Hba).
    apply list_elem_of_fmap in Hb as ([b' n] & -> & Hitem). simpl.
    by apply Hin in Hitem as [-> ?].
  - intros Hpos. exists bucket. split; [|done].
    apply list_elem_of_fmap. exists (bucket, Spec.occurrences bucket errors).
    split; [done|]. by apply Hin.
Qed.

End Insights.

Lemma primary_challenge_most_frequent_witness :
  exists insights,
    MemoryLearning.reflect_insights (fun _ _ => "2.0") "Add login" 4 true c6_attempts
    = Some insights
    /\ insights !! 1%nat = Some "Primary challenge: Test failures".
Proof.
  destruct (primary_challenge_most_frequent (fun _ _ => "2.0") "Add login" 4 true c6_attempts)
    as (insights & bucket & Hr & _ & H1 & _);
    [repeat constructor; simpl; discriminate | done |].
  exists insights. split; [done|].
  vm_compute in Hr. injection Hr as <-. reflexivity.
Defined.

Lemma reflect_table_advice_witness :
  "Write tests incrementally alongside implementation"
  ∈ default [] (MemoryLearning.recommendations
                  <$> MemoryLearning.reflect (fun _ _ => "2.0") c6_attempts).
Proof.
  destruct (MemoryLearning.reflect (fun _ _ => "2.0") c6_attempts) as [derived|] eqn:Hr;
    [|by vm_compute in Hr].
  simpl.
  apply (reflect_table_advice (fun _ _ => "2.0") c6_attempts derived Hr
           ltac:(repeat constructor; simpl; discriminate) "Test failures").
  - unfold Spec.advice_table. set_solver.
  - by vm_compute.
Defined.

(** ** Reading the diary back *)

Section Entries.
Import MemoryLearning.

Variable story_id : option string.

Lemma read_entries_bound (limit : Z) (files : list (string * option string))
    (entries : list (string * string)) :
  Z.of_nat (length entries) <= limit ->
  Forall (fun e => Spec.entry_wanted story_id e.1 = true) entries ->
  Z.of_nat (length (read_entries story_id limit files entries)) <= limit
  /\ Forall (fun e => Spec.entry_wanted story_id e.1 = true) (read_entries story_id limit files entries).
Proof.
  revert entries. induction files as [|[name content] files IH]; intros entries Hlen Hw;
    [done|]. simpl.
  destruct (Z.leb_spec limit (Z.of_nat (length entries))); [done|].
  destruct (match story_id with
            | Some id => negb (String.eqb id "") && negb (PyStr.contains id name)
            | None => false
            end) eqn:Hfilter; [by apply IH|].
  destruct content as [c|]; [|done].
  apply IH.
  - rewrite length_app. simpl. lia.
  - apply Forall_app. split; [done|]. constructor; [|done]. simpl.
    unfold Spec.entry_wanted. destruct story_id as [id|]; [|done].
    destruct (String.eqb id ""); [done|]. simpl in *.
    by destruct (PyStr.contains id name).
Qed.

Lemma read_entries_readable (limit : Z) (files : list (string * option string))
    (entries : list (string * string)) :
  Z.of_nat (length entries) <= limit ->
  Forall (fun f => is_Some f.2) files ->
  read_entries story_id limit files entries
  = take (Z.to_nat limit)
      (entries ++ omap (fun f => if Spec.entry_wanted story_id f.1 then pair f.1 <$> f.2 else None) files).
Proof.
  revert entries. induction files as [|[name content] files IH]; intros entries Hlen Hfiles.
  - simpl. rewrite app_nil_r, take_ge; [done|lia].
  - apply Forall_cons in Hfiles as [[c Hc] Hfiles]. simpl in Hc. subst content. simpl.
    destruct (Z.leb_spec limit (Z.of_nat (length entries))).
    + rewrite take_app_le by lia. rewrite take_ge; [done|lia].
    + unfold Spec.entry_wanted at 1. destruct story_id as [id|] eqn:Hid.
      * destruct (String.eqb id ""); simpl.
        -- rewrite IH; [|rewrite length_app; simpl; lia|done].
           by rewrite <- app_assoc.
        -- destruct (PyStr.contains id name); simpl.
           ++ rewrite IH; [|rewrite length_app; simpl; lia|done].
              by rewrite <- app_assoc.
           ++ by apply IH.
      * rewrite IH; [|rewrite length_app; simpl; lia|done].
        by rewrite <- app_assoc.
Qed.

(** X24.  [get_diary_entries] and [get_reflections] run the same loop over
    the files of their folder, newest name first.  For a [limit] that is
    not negative they return at most [limit] entries, each of a file
    whose name holds [story_id] (any file when no [story_id] is given);
    and when every file can be read, exactly the first [limit] such files,
    in that order, each with its content. *)
Theorem get_diary_entries_first_matching (limit : Z)
    (files : list (string * option string)) :
  0 <= limit ->
  Z.of_nat (length (get_diary_entries story_id limit files)) <= limit
  /\ Forall (fun e => Spec.entry_wanted story_id e.1 = true)
       (get_diary_entries story_id limit files)
  /\ (Forall (fun f => is_Some f.2) files ->
      get_diary_entries story_id limit files
      = take (Z.to_nat limit)
          (omap (fun f => if Spec.entry_wanted story_id f.1
                          then pair f.1 <$> f.2 else None) files))
  /\ get_reflections story_id limit files = get_diary_entries story_id limit files.
Proof.
  intros Hlimit. unfold get_diary_entries, get_reflections.
  destruct (read_entries_bound limit files []) as [Hlen Hw]; [simpl; lia | constructor |].
  split_and!; [done | done | | done].
  intros Hfiles. by rewrite read_entries_readable by (done || (simpl; lia)).
Qed.

End Entries.

Lemma get_diary_entries_first_matching_witness :
  MemoryLearning.get_diary_entries (Some "US-1") 2
    [ ("2026-01-03-US-10-1.md", Some "c"); ("2026-01-02-US-2-1.md", Some "b");
      ("2026-01-01-US-1-2.md", Some "a2"); ("2026-01-01-US-1-1.md", Some "a1") ]
  = [ ("2026-01-03-US-10-1.md", "c"); ("2026-01-01-US-1-2.md", "a2") ].
Proof.
  destruct (get_diary_entries_first_matching (Some "US-1") 2
    [ ("2026-01-03-US-10-1.md", Some "c"); ("2026-01-02-US-2-1.md", Some "b");
      ("2026-01-01-US-1-2.md", Some "a2"); ("2026-01-01-US-1-1.md", Some "a1") ])
    as (_ & _ & H & _); [lia|].
  rewrite H; [reflexivity|]. repeat constructor; simpl; eauto.
Defined.
